(** * hybrid_exp: pricing normalisation, catalog generation and workload
    quantisation

    A shallow embedding of [cloud_providers.py], [hybrid.py] and
    [resample_load.py] and the properties of their pricing, catalog,
    quantisation and resampling routines.

    Conventions of the embedding.
    - A pandas data frame is the list of its rows, in row order.
    - Text is the list of its code points; the model holds the code points
      below 256.
    - A float is the rational that it denotes, and float arithmetic rounds
      to the nearest float ([binary64]). Infinities and NaN are not
      represented: properties about computed prices take the prices of the
      table in the finite range.
    - Python integers are [Z]; counts that the code only uses as counts are
      [nat]. numpy and pandas hold integers in 64 bits: the definitions
      compute in [Z], and the properties that depend on it are stated for
      values in the 64-bit range.
    - [Series.str.contains] is a regular-expression search; the model tests
      for a substring, which is the same for a pattern without
      metacharacters. The patterns of the code are such; properties that
      depend on the operating-system pattern of the caller say so.
    - [int] on text has no limit on the length of a numeral (the limit of
      4300 digits of recent interpreters can be switched off); properties
      that depend on [int] returning are stated for shorter numerals.
    - A Python exception is an explicit [Raise] result.
    - [LimitingSet] objects live in a store and are named by references, so
      that sharing by reference is visible. *)

From Stdlib Require Import QArith Qround Qabs.
From Stdlib Require Import Ascii DecimalString DecimalNat.
From stdpp Require Import base decidable option list sorting strings numbers.

Local Open Scope Z_scope.

(* ===================================================================== *)
(** ** Python values, exceptions and builtins *)
(* ===================================================================== *)

Inductive exn : Set :=
| KeyError | ValueError | IndexError | TypeError | AssertionError.

Inductive result (A : Type) : Type :=
| Ok (a : A)
| Raise (e : exn).
Arguments Ok {A} a.
Arguments Raise {A} e.

Definition bind {A B} (m : result A) (k : A -> result B) : result B :=
  match m with
  | Ok a => k a
  | Raise e => Raise e
  end.

(** [try: m except: d] with a bare [except]. *)
Definition try_except {A} (m : result A) (d : A) : A :=
  match m with
  | Ok a => a
  | Raise _ => d
  end.

(** A loop whose body may raise: the first exception leaves the loop. *)
Fixpoint for_each {A B} (f : A -> result B) (l : list A) : result (list B) :=
  match l with
  | [] => Ok []
  | x :: l' =>
      bind (f x) (fun y => bind (for_each f l') (fun ys => Ok (y :: ys)))
  end.

Fixpoint fold_loop {A S} (f : S -> A -> result S) (l : list A) (s : S)
  : result S :=
  match l with
  | [] => Ok s
  | x :: l' => bind (f s x) (fold_loop f l')
  end.

Module Py.

(** [pat in s] for strings; also [Series.str.contains(pat)] for a pattern
    without regular-expression metacharacters. *)
Fixpoint str_contains (pat s : string) : bool :=
  String.prefix pat s ||
  match s with
  | EmptyString => false
  | String _ s' => str_contains pat s'
  end.

(** [str(n)] for a non-negative integer. *)
Definition str_of_nat (n : nat) : string :=
  NilEmpty.string_of_uint (Nat.to_uint n).

(** [range(start, stop, step)], with CPython's length computation. *)
Definition range_len (start stop step : Z) : Z :=
  if 0 <? step then
    if start <? stop then (stop - start - 1) / step + 1 else 0
  else
    if stop <? start then (start - stop - 1) / (- step) + 1 else 0.

Definition range (start stop step : Z) : result (list Z) :=
  if step =? 0 then Raise ValueError
  else Ok ((fun i => start + Z.of_nat i * step)
             <$> seq 0 (Z.to_nat (range_len start stop step))).

(** [max(l)] on a sequence of integers. *)
Definition max (l : list Z) : result Z :=
  match l with
  | [] => Raise ValueError
  | x :: l' => Ok (fold_left Z.max l' x)
  end.

(** [functools.reduce(f, l)] without initial value. *)
Definition reduce {A} (f : A -> A -> A) (l : list A) : result A :=
  match l with
  | [] => Raise TypeError
  | x :: l' => Ok (fold_left f l' x)
  end.

(** An insertion-ordered [dict]: assignment to an existing key replaces
    the value in place, a new key is appended. *)
Section dict.
Context {K V : Type} `{EqDecision K}.

Fixpoint dict_set (k : K) (v : V) (d : list (K * V)) : list (K * V) :=
  match d with
  | [] => [(k, v)]
  | (k', v') :: d' =>
      if decide (k' = k) then (k, v) :: d' else (k', v') :: dict_set k v d'
  end.

Fixpoint dict_get (k : K) (d : list (K * V)) : option V :=
  match d with
  | [] => None
  | (k', v') :: d' => if decide (k' = k) then Some v' else dict_get k d'
  end.

(** [dict(pairs)] / a dict comprehension over [pairs]. *)
Definition dict_of (pairs : list (K * V)) : list (K * V) :=
  fold_left (fun d kv => dict_set kv.1 kv.2 d) pairs [].
End dict.

(** Python slices [l[i:]] and [l[:i]] for an integer [i]. *)
Definition slice_bound {A} (l : list A) (i : Z) : nat :=
  let n := Z.of_nat (length l) in
  Z.to_nat (if i <? 0 then Z.max 0 (n + i) else Z.min n i).
Definition slice_from {A} (l : list A) (i : Z) : list A :=
  drop (slice_bound l i) l.
Definition slice_to {A} (l : list A) (i : Z) : list A :=
  take (slice_bound l i) l.

(** [l * n] for a list and an integer. *)
Definition list_mul {A} (l : list A) (n : Z) : list A :=
  mjoin (replicate (Z.to_nat n) l).

(** [l.remove(x)]: the list without the first occurrence of [x];
    [ValueError] when [x] does not occur. *)
Fixpoint list_remove {A} `{EqDecision A} (x : A) (l : list A)
  : result (list A) :=
  match l with
  | [] => Raise ValueError
  | y :: l' =>
      if decide (y = x) then Ok l'
      else match list_remove x l' with
           | Ok r => Ok (y :: r)
           | Raise e => Raise e
           end
  end.

End Py.

(* ===================================================================== *)
(** ** Floats

    A finite float (binary64) is the rational that it denotes. An
    arithmetic operation on floats returns the float nearest to the exact
    result, ties going to the even significand, with gradual underflow.
    Infinities and NaN are outside the model: a result beyond the largest
    finite float is not represented. *)
(* ===================================================================== *)

Module binary64.

(** Two to the power [e], for any integer [e]. *)
Definition pow2 (e : Z) : Q :=
  if 0 <=? e then inject_Z (2 ^ e) else 1 # Z.to_pos (2 ^ (- e)).

(** The integer e with 2^e <= a < 2^(e+1), for a positive [a]. *)
Definition floor_log2 (a : Q) : Z :=
  let e := Z.log2 (Qnum a) - Z.log2 (Zpos (Qden a)) in
  if Qle_bool (pow2 e) a then e else e - 1.

Definition round_half_even (x : Q) : Z :=
  let f := Qfloor x in
  match ((x - inject_Z f) ?= 1 # 2)%Q with
  | Lt => f
  | Gt => f + 1
  | Eq => if Z.even f then f else f + 1
  end.

(** The float nearest to [x]: 53 significant bits, least exponent -1074.
    The result is a fraction in lowest terms. *)
Definition round (x : Q) : Q :=
  let x := Qred x in
  if Qeq_bool x 0 then 0%Q
  else
    let a := Qabs x in
    let u := Z.max (floor_log2 a - 52) (-1074) in
    let y := (inject_Z (round_half_even (a / pow2 u)) * pow2 u)%Q in
    Qred (if Qle_bool 0 x then y else - y).

Definition fadd (a b : Q) : Q := round (a + b).
Definition fsub (a b : Q) : Q := round (a - b).
Definition fmul (a b : Q) : Q := round (a * b).
Definition fdiv (a b : Q) : Q := round (a / b).

(** The float of an integer. *)
Definition of_int (z : Z) : Q := round (inject_Z z).

End binary64.

Notation "x <- m ;; k" := (bind m (fun x => k))
  (at level 100, m at next level, right associativity, only parsing).

(* ===================================================================== *)
(** ** cloud_providers.py: the raw price table *)
(* ===================================================================== *)

(** A cell of the [ECU] column as [read_csv] delivers it: text, a number,
    or NaN for an empty field. *)
Inductive cell : Type :=
| CStr (s : string)
| CFloat (q : Q)
| CNaN.

(** One row of the EC2 price table. Only the columns that the code reads
    are kept. [OfferingClass] is never filled by [read_amazon_ec2_data], so
    it may be NaN, here [None]. *)
Record Row : Type := mkRow {
  Type_ : string;
  Region : string;
  Price : Q;
  OS : string;
  Unit : string;
  Rsv : string;
  Popt : string;
  Tenancy : string;
  OfferingClass : option string;
  Pdesc : string;
  Software : string;
  ECU : cell
}.

(** The index of the price frame after [unstack(-1)]:
    [Region, Tenancy, Rsv, Popt]. *)
Record PriceKey : Type := mkKey {
  kRegion : string;
  kTenancy : string;
  kRsv : string;
  kPopt : string
}.

Global Instance PriceKey_eq_dec : EqDecision PriceKey.
Proof. solve_decision. Defined.

Definition key_of (r : Row) : PriceKey :=
  {| kRegion := Region r; kTenancy := Tenancy r;
     kRsv := Rsv r; kPopt := Popt r |}.

(** The five index keys of [set_index(index_keys)]. *)
Definition index_of (r : Row) : PriceKey * string := (key_of r, Unit r).

(** Lexicographic order of index tuples, as [sort_values] uses it. *)
Definition key_tuple (k : PriceKey) : list string :=
  [kRegion k; kTenancy k; kRsv k; kPopt k].

Fixpoint tuple_leb (a b : list string) : bool :=
  match a, b with
  | [], _ => true
  | _ :: _, [] => false
  | x :: a', y :: b' =>
      match String.compare x y with
      | Lt => true
      | Eq => tuple_leb a' b'
      | Gt => false
      end
  end.

Definition key_le (a b : PriceKey) : Prop :=
  tuple_leb (key_tuple a) (key_tuple b) = true.

Global Instance key_le_dec : RelDecision key_le.
Proof. intros a b. unfold key_le. apply _. Defined.

Definition entry_le {V} (a b : PriceKey * V) : Prop := key_le a.1 b.1.

Global Instance entry_le_dec {V} : RelDecision (@entry_le V).
Proof. intros a b. unfold entry_le. apply _. Defined.

(** The frame [grouped]: the columns made from the [Unit] values, and one
    row per index key holding one price per column. *)
Record Grouped : Type := mkGrouped {
  g_columns : list string;
  g_rows : list (PriceKey * list Q)
}.

(* ===================================================================== *)
(** ** malloovia objects and the store of limiting sets *)
(* ===================================================================== *)

Module LimitingSet.
Record t : Type := mk { id : string; name : string; max_vms : Z }.
End LimitingSet.

Global Instance LimitingSet_eq_dec : EqDecision LimitingSet.t.
Proof. solve_decision. Defined.

Global Instance LimitingSet_inhabited : Inhabited LimitingSet.t :=
  populate (LimitingSet.mk "" "" 0).

(** A reference to a [LimitingSet] object, and the store of the objects
    created so far. Two references are the same object exactly when they are
    equal. *)
Abbreviation ref := nat.
Abbreviation store := (list LimitingSet.t).

(** A call of the constructor [LimitingSet(...)] creates a new object. *)
Definition new_LimitingSet (o : LimitingSet.t) (h : store) : ref * store :=
  (length h, h ++ [o]).

Module InstanceClass.
Record t : Type := mk {
  id : string;
  name : string;
  limiting_sets : list ref;
  price : Q;
  max_vms : Z;
  is_reserved : bool;
  time_unit : string
}.
End InstanceClass.

Module App.
Record t : Type := mk { id : string; name : string }.
End App.

Global Instance App_eq_dec : EqDecision App.t.
Proof. solve_decision. Defined.

(** One value of [region_data]. *)
Record RegionDatum : Type := mkDatum {
  d_on_demand : option Q;
  d_reserved : option Q;
  d_max_vms : Z
}.

(* ===================================================================== *)
(** ** cloud_providers.py: prices and catalog *)
(* ===================================================================== *)

Module cloud_providers.

(** The row filter of [get_amazon_ec2_prices], lines 108 to 128. *)
Definition keep_row (instance os : string) (r : Row) : bool :=
  (String.eqb (Type_ r) instance && Py.str_contains os (OS r))
  && negb (Py.str_contains "SQL" (Software r))
  && negb (Py.str_contains "No Upfront" (Popt r))
  && negb (Py.str_contains "Partial Upfront" (Popt r))
  && negb (Py.str_contains "Unused" (Pdesc r))
  && negb (Qeq_bool (Price r) 0)
  && String.eqb (Tenancy r) "Shared"
  && negb (bool_decide (OfferingClass r = Some "convertible")).

(** The price stored under index [(k, u)], if a row has that index. *)
Definition cell_price (fl : list Row) (k : PriceKey) (u : string) : option Q :=
  Price <$> find (fun r => bool_decide (index_of r = (k, u))) fl.

(** [set_index(index_keys)[["Price"]].unstack(-1).fillna(0).reset_index()]:
    [unstack] refuses an index with duplicate entries; the last index level
    becomes the columns; an absent cell is NaN and [fillna] makes it 0. *)
Definition unstack_fillna (fl : list Row) : result Grouped :=
  if bool_decide (NoDup (index_of <$> fl)) then
    let cols := merge_sort String.le (remove_dups (Unit <$> fl)) in
    let idx := merge_sort key_le (remove_dups (key_of <$> fl)) in
    Ok {| g_columns := cols;
          g_rows :=
            (fun k => (k, (fun u => default 0%Q (cell_price fl k u)) <$> cols))
              <$> idx |}
  else Raise ValueError.

(** Position of the column [("Price", u)]; [KeyError] when the frame has no
    such column. *)
Definition column_loc (g : Grouped) (u : string) : result nat :=
  match list_find (fun c => c = u) (g_columns g) with
  | Some (i, _) => Ok i
  | None => Raise KeyError
  end.

Definition at_column (vs : list Q) (i : nat) : Q := nth i vs 0%Q.

(** [grouped[grouped.Rsv == rsv]] *)
Definition select_rsv (g : Grouped) (rsv : string) : list (PriceKey * list Q) :=
  filter (fun row => kRsv row.1 = rsv) (g_rows g).

(** [hrs + quantity /365 / 24] and [hrs + quantity /365 /24 /3] on float
    columns: every division and the addition round. *)
Definition price_1yr (hrs quantity : Q) : Q :=
  binary64.fadd hrs (binary64.fdiv (binary64.fdiv quantity 365) 24).

Definition price_3yr (hrs quantity : Q) : Q :=
  binary64.fadd hrs
    (binary64.fdiv (binary64.fdiv (binary64.fdiv quantity 365) 24) 3).

(** The three selections read their price columns before anything is
    merged, so a missing column raises even when the selection is empty. The
    outer merges join frames with different [Rsv], hence concatenate them;
    a group with another [Rsv] is in none of them. *)
Definition get_amazon_ec2_prices (amazon_ec2_data : list Row)
    (instance os : string) : result (list (PriceKey * Q)) :=
  let filtered := filter (fun r => keep_row instance os r = true)
                    amazon_ec2_data in
  grouped <- unstack_fillna filtered ;;
  (* yr1["Price/h"] = yr1[("Price","Hrs")] + yr1[("Price","Quantity")]/365/24 *)
  hrs <- column_loc grouped "Hrs" ;;
  quantity <- column_loc grouped "Quantity" ;;
  let yr1 :=
    (fun row => (row.1,
       price_1yr (at_column row.2 hrs) (at_column row.2 quantity)))
      <$> select_rsv grouped "1yr" in
  let yr3 :=
    (fun row => (row.1,
       price_3yr (at_column row.2 hrs) (at_column row.2 quantity)))
      <$> select_rsv grouped "3yr" in
  let on_demand :=
    (fun row => (row.1, at_column row.2 hrs))
      <$> select_rsv grouped "No" in
  (* outer merges, then sort_values(by=index_keys).set_index(index_keys) *)
  let prices := yr1 ++ yr3 ++ on_demand in
  Ok (merge_sort entry_le prices).

(** [prices.xs((tenancy, rsv, popt), level=(1,2,3))["Price/h"].to_dict()]:
    [xs] raises [KeyError] when one of the labels does not occur in its index
    level; otherwise it keeps the rows that carry all three labels and drops
    those levels, which leaves the region as index. *)
Definition xs_to_dict (prices : list (PriceKey * Q))
    (tenancy rsv popt : string) : result (list (string * Q)) :=
  if bool_decide (Exists (fun e => kTenancy e.1 = tenancy) prices)
     && bool_decide (Exists (fun e => kRsv e.1 = rsv) prices)
     && bool_decide (Exists (fun e => kPopt e.1 = popt) prices)
  then
    Ok (Py.dict_of
          ((fun e => (kRegion e.1, e.2))
             <$> filter (fun e => kTenancy e.1 = tenancy /\ kRsv e.1 = rsv
                                  /\ kPopt e.1 = popt) prices))
  else Raise KeyError.

Record SimplifiedPrices : Type := mkSimplified {
  on_demand : list (string * Q);
  reserved : list (string * Q)
}.

Definition get_simplified_amazon_prices (amazon_ec2_data : list Row)
    (instance os : string) : result SimplifiedPrices :=
  prices <- get_amazon_ec2_prices amazon_ec2_data instance os ;;
  on_demand <- xs_to_dict prices "Shared" "No" "N/A" ;;
  reserved <- xs_to_dict prices "Shared" "1yr" "All Upfront" ;;
  Ok {| on_demand := on_demand; reserved := reserved |}.

(** The comprehension that creates the availability-zone limiting sets. *)
Definition new_zone (region_name : string) (max_inst_per_group : Z)
    (acc : list ref * store) (z : nat) : list ref * store :=
  let zname := region_name +:+ "_AZ" +:+ Py.str_of_nat z in
  let '(zone, h) :=
    new_LimitingSet (LimitingSet.mk zname zname max_inst_per_group) acc.2 in
  (acc.1 ++ [zone], h).

(** [h] is the store of limiting sets before the call, and the result
    carries the store after it. [availability_zones] is a count, so
    [range(1, availability_zones + 1)] is [seq 1 availability_zones]. A
    [continue] in a loop body is the [None] of [omap]. *)
Definition generate_amazon_region_instances (amazon_ec2_data : list Row)
    (region_name : string) (max_inst_per_type max_inst_per_group : Z)
    (availability_zones : nat) (instance_names : list string) (h : store)
  : result (list InstanceClass.t * store) :=
  region_data <-
    fold_loop
      (fun region_data instance_name =>
         r <- get_simplified_amazon_prices amazon_ec2_data instance_name
                "Linux" ;;
         Ok (Py.dict_set instance_name
               {| d_on_demand := Py.dict_get region_name (on_demand r);
                  d_reserved := Py.dict_get region_name (reserved r);
                  d_max_vms := max_inst_per_type |}
               region_data))
      (merge_sort String.le instance_names) [] ;;
  (* The limiting set "region" sets a limit for on-demand instances *)
  let '(region, h1) :=
    new_LimitingSet
      (LimitingSet.mk region_name region_name max_inst_per_group) h in
  let ins :=
    omap (fun idat : string * RegionDatum =>
            match d_on_demand idat.2 with
            | None => None (* continue *)
            | Some p =>
                Some (InstanceClass.mk (idat.1 +:+ "_" +:+ region_name) idat.1
                        [region] p (d_max_vms idat.2) false "h")
            end) region_data in
  (* The limiting set "availability zone" sets a limit for reserved ones *)
  let '(zones, h2) :=
    fold_left (new_zone region_name max_inst_per_group)
      (seq 1 availability_zones) ([], h1) in
  let ins_reserved :=
    region_data ≫=
      (fun idat : string * RegionDatum =>
         omap (fun zone : ref =>
                 match d_reserved idat.2 with
                 | None => None (* continue *)
                 | Some p =>
                     Some (InstanceClass.mk
                             (idat.1 +:+ "_" +:+ region_name +:+ "_"
                                +:+ LimitingSet.name (h2 !!! zone))
                             idat.1 [zone] p 0 true "h")
                 end) zones) in
  Ok (ins ++ ins_reserved, h2).

End cloud_providers.

(* ===================================================================== *)
(** ** hybrid.py: performances and workload quantisation *)
(* ===================================================================== *)

Module hybrid.

Definition N_AVAILABLE_WLS : Z := 4.

(** *** [int(x)] on a cell of the price table

    [int] on text replaces white space beyond ASCII by a blank and then
    strips tab, LF, VT, FF, CR and blank from both ends. Among the code
    points of the model the white space beyond ASCII is U+0085 and U+00A0;
    the separators U+001C to U+001F are ASCII and are not stripped. *)

Definition is_space (c : ascii) : bool :=
  let n := N_of_ascii c in
  ((9 <=? n) && (n <=? 13) || (n =? 32) || (n =? 133) || (n =? 160))%N.

Definition digit_of (c : ascii) : option Z :=
  let n := N_of_ascii c in
  if ((48 <=? n) && (n <=? 57))%N then Some (Z.of_N n - 48) else None.

(** Decimal digits, where single underscores may separate digits. *)
Fixpoint digits_value (acc : Z) (after_underscore : bool) (l : list ascii)
  : option Z :=
  match l with
  | [] => if after_underscore then None else Some acc
  | c :: l' =>
      if Ascii.eqb c "_" then
        if after_underscore then None else digits_value acc true l'
      else
        match digit_of c with
        | Some d => digits_value (10 * acc + d) false l'
        | None => None
        end
  end.

Definition unsigned_value (l : list ascii) : option Z :=
  match l with
  | [] => None
  | c :: _ => if Ascii.eqb c "_" then None else digits_value 0 false l
  end.

Fixpoint lstrip (l : list ascii) : list ascii :=
  match l with
  | c :: l' => if is_space c then lstrip l' else l
  | [] => []
  end.

Definition strip (l : list ascii) : list ascii :=
  reverse (lstrip (reverse (lstrip l))).

(** [int(s)] for text: surrounding white space, an optional sign, decimal
    digits with single underscores between them. Any other code point below
    256 makes [int] raise. *)
Definition int_of_str (s : string) : result Z :=
  let body := strip (String.list_ascii_of_string s) in
  let parsed :=
    match body with
    | c :: rest =>
        if Ascii.eqb c "-" then Z.opp <$> unsigned_value rest
        else if Ascii.eqb c "+" then unsigned_value rest
        else unsigned_value body
    | [] => None
    end in
  match parsed with
  | Some z => Ok z
  | None => Raise ValueError
  end.

(** [int(x)]: text is parsed, a float is truncated towards zero, NaN is
    refused. *)
Definition int (c : cell) : result Z :=
  match c with
  | CStr s => int_of_str s
  | CFloat q => Ok (Z.quot (Qnum q) (Zpos (Qden q)))
  | CNaN => Raise ValueError
  end.

(** [amazon_ec2_data[amazon_ec2_data.Type == name]['ECU'].iloc[0]] *)
Definition first_ECU (amazon_ec2_data : list Row) (name : string)
  : result cell :=
  match filter (fun r => Type_ r = name) amazon_ec2_data with
  | r :: _ => Ok (ECU r)
  | [] => Raise IndexError
  end.

(** *** Keys of the performance dictionary

    [InstanceClass] and [LimitingSet] are named tuples: as dictionary keys
    they are compared field by field, the limiting sets by their values and
    the price by its numeric value. *)
Record ICKey : Type := mkICKey {
  key_id : string;
  key_name : string;
  key_limiting_sets : list LimitingSet.t;
  key_price_num : Z;
  key_price_den : positive;
  key_max_vms : Z;
  key_is_reserved : bool;
  key_time_unit : string
}.

Global Instance ICKey_eq_dec : EqDecision ICKey.
Proof. solve_decision. Defined.

Definition ic_key (h : store) (ic : InstanceClass.t) : ICKey :=
  let p := Qred (InstanceClass.price ic) in
  {| key_id := InstanceClass.id ic;
     key_name := InstanceClass.name ic;
     key_limiting_sets := (fun r => h !!! r) <$> InstanceClass.limiting_sets ic;
     key_price_num := Qnum p;
     key_price_den := Qden p;
     key_max_vms := InstanceClass.max_vms ic;
     key_is_reserved := InstanceClass.is_reserved ic;
     key_time_unit := InstanceClass.time_unit ic |}.

Record PerformanceSet : Type := mkPerformanceSet {
  ps_id : string;
  ps_time_unit : string;
  ps_values : list (ICKey * list (App.t * Z))
}.

Definition ecus_of (amazon_ec2_data : list Row) (priv_ecus : Z)
    (ic : InstanceClass.t) : Z :=
  try_except (c <- first_ECU amazon_ec2_data (InstanceClass.name ic) ;; int c)
    priv_ecus.

Definition get_perfs (amazon_ec2_data : list Row) (h : store)
    (ics : list InstanceClass.t) (apps : list App.t) (perf_factor : Z)
    (perfs_per_ecu : list Z) (priv_ecus : Z) : PerformanceSet :=
  let perf_dict :=
    fold_left
      (fun perf_dict ic =>
         let ecus := ecus_of amazon_ec2_data priv_ecus ic in
         Py.dict_set (ic_key h ic)
           (Py.dict_of
              ((fun ap : App.t * Z => (ap.1, ap.2 * ecus * perf_factor))
                 <$> zip apps perfs_per_ecu))
           perf_dict)
      ics [] in
  {| ps_id := "performances"; ps_time_unit := "h"; ps_values := perf_dict |}.

(** *** Quanta *)

Definition get_quanta (perf_list : list (list Z)) (quant_factor : Z)
  : result (list Z) :=
  quanta <- for_each (fun l => Py.reduce Z.gcd l) perf_list ;;
  Ok ((fun q => q * quant_factor) <$> quanta).

(** *** numpy's [digitize] and [take] *)

Fixpoint nondecreasing (l : list Z) : bool :=
  match l with
  | x :: l' =>
      match l' with
      | y :: _ => (x <=? y) && nondecreasing l'
      | [] => true
      end
  | [] => true
  end.

Fixpoint nonincreasing (l : list Z) : bool :=
  match l with
  | x :: l' =>
      match l' with
      | y :: _ => (y <=? x) && nonincreasing l'
      | [] => true
      end
  | [] => true
  end.

(** [searchsorted(bins, x, side='left')] on ascending bins: the number of
    bins below [x]. *)
Definition searchsorted_left (bins : list Z) (x : Z) : nat :=
  length (filter (fun b => b < x) bins).

(** [np.digitize(xs, bins, right=True)] *)
Definition digitize_right (xs bins : list Z) : result (list nat) :=
  if nondecreasing bins then
    Ok (searchsorted_left bins <$> xs)
  else if nonincreasing bins then
    Ok ((fun x => (length bins - searchsorted_left (reverse bins) x)%nat)
          <$> xs)
  else Raise ValueError.

(** [np.take(a, indices)] with the default mode, for indices that are not
    negative. *)
Definition take_at (a : list Z) (indices : list nat) : result (list Z) :=
  for_each (fun i => match a !! i with
                     | Some v => Ok v
                     | None => Raise IndexError
                     end) indices.

(** [np.array(rows)] for a list of integer arrays: a two-dimensional array,
    here the list of its rows. numpy 1.24 and later refuse rows of different
    lengths; earlier versions build an array of objects instead. *)
Definition same_lengths (rows : list (list Z)) : bool :=
  match rows with
  | [] => true
  | r :: rows' => forallb (fun r' => (length r' =? length r)%nat) rows'
  end.

Definition np_array (rows : list (list Z)) : result (list (list Z)) :=
  if same_lengths rows then Ok rows else Raise ValueError.

(** Values are assumed to fit numpy's 64-bit integers. *)
Definition discretize_levels (workloads : list (list Z)) (quanta : list Z)
  : result (list (list Z)) :=
  if bool_decide (length workloads = length quanta) then
    quantized <-
      for_each
        (fun wq : list Z * Z =>
           let '(workload, quantum) := wq in
           m <- Py.max workload ;;
           levels <- Py.range 0 (m + quantum) quantum ;;
           idx <- digitize_right workload levels ;;
           take_at levels idx)
        (zip workloads quanta) ;;
    np_array quantized
  else Raise AssertionError.

Definition reordered_list {A} (l : list A) (first_element : Z) : list A :=
  Py.slice_from l first_element ++ Py.slice_to l first_element.

(** *** The workload part of [solve_problem], lines 177 to 224

    [wls] is the list of series read from the workload files; the result is
    the list [ltwp] of (application, series) pairs. *)
Definition apps_of (n_apps : Z) : list App.t :=
  (fun i => App.mk ("a" +:+ Py.str_of_nat i) (Py.str_of_nat i))
    <$> seq 0 (Z.to_nat n_apps).

Definition factor_repeat_of (n_apps : Z) : Z :=
  (n_apps + N_AVAILABLE_WLS - 1) / N_AVAILABLE_WLS.

(** The series of each application before quantisation. *)
Definition raw_workloads (n_apps first_app : Z) (wls : list (list Z))
  : list (list Z) :=
  let wls := reordered_list wls first_app in
  let wls := Py.list_mul wls (factor_repeat_of n_apps) in
  Py.slice_to wls n_apps.

Definition quantize_step (n_apps quant_factor : Z) (wls : list (list Z))
    (quanta : list Z) : result (list (list Z)) :=
  let factor_repeat := factor_repeat_of n_apps in
  if negb (quant_factor =? 0) then
    q <- discretize_levels wls quanta ;;
    Ok (Py.list_mul q factor_repeat)
  else
    Ok (Py.list_mul wls factor_repeat).

Definition workloads_of (n_apps first_app quant_factor : Z)
    (wls : list (list Z)) (quanta : list Z)
  : result (list (App.t * list Z)) :=
  let apps := apps_of n_apps in
  let wls := raw_workloads n_apps first_app wls in
  wls <- quantize_step n_apps quant_factor wls quanta ;;
  Ok (zip apps wls).

(** *** [remove_unneded_instances_ec2], lines 88 to 109 *)
Definition needed_row (r : Row) : bool :=
  negb (Py.str_contains "SQL" (Software r))
  && negb (Py.str_contains "No Upfront" (Popt r))
  && negb (Py.str_contains "Partial Upfront" (Popt r))
  && negb (Py.str_contains "Unused" (Pdesc r))
  && negb (Qeq_bool (Price r) 0)
  && String.eqb (Tenancy r) "Shared"
  && negb (bool_decide (OfferingClass r = Some "convertible")).

Definition remove_unneded_instances_ec2 (amazona_ec2_data : list Row)
  : list Row :=
  filter (fun r => needed_row r = true) amazona_ec2_data.

(** *** [create_ics], lines 20 to 54

    [amazon_s3_data] is the [Region] column of the S3 table.
    [Series.unique()] keeps the values in the order of their first
    appearance. [region_names] is [None] or a list; [not region_names] holds
    for [None] and for the empty list. *)
Fixpoint unique (l : list string) : list string :=
  match l with
  | [] => []
  | x :: l' => x :: filter (fun y => y <> x) (unique l')
  end.

Definition default_region_names (amazon_s3_data : list string)
  : result (list string) :=
  let region_names := unique amazon_s3_data in
  region_names <- Py.list_remove "N/A" region_names ;;
  region_names <- Py.list_remove "AWS GovCloud (US-East)" region_names ;;
  Py.list_remove "AWS GovCloud (US-West)" region_names.

Definition create_ics_step (amazon_ec2_data : list Row)
    (instance_names : list string)
    (acc : list InstanceClass.t * store) (region_name : string)
  : result (list InstanceClass.t * store) :=
  region <- cloud_providers.generate_amazon_region_instances amazon_ec2_data
              region_name 20 20 3 instance_names acc.2 ;;
  Ok (acc.1 ++ region.1, region.2).

Definition create_ics (amazon_ec2_data : list Row)
    (amazon_s3_data : list string) (instance_names : list string)
    (region_names : option (list string)) (h : store)
  : result (list InstanceClass.t * nat * store) :=
  region_names <-
    match region_names with
    | Some (r :: rs) => Ok (r :: rs)
    | _ => default_region_names amazon_s3_data
    end ;;
  res <- fold_loop (create_ics_step amazon_ec2_data instance_names)
           region_names ([], h) ;;
  Ok (res.1, length region_names, res.2).

(** *** The catalog and the baselines of [solve_problem], lines 158 to 184 *)
Definition add_private_ics (ics : list InstanceClass.t)
    (priv_n priv_prev_n : Z) (priv_cost : Q) : list InstanceClass.t :=
  let ics := ics ++ [InstanceClass.mk "priv" "priv" [] priv_cost priv_n
                       true "h"] in
  if 0 <? priv_prev_n then
    ics ++ [InstanceClass.mk "priv_prev" "priv_prev" [] 0.000001
              priv_prev_n true "h"]
  else ics.

Definition perfs_per_ecu_of (n_apps first_app : Z) : list Z :=
  reordered_list (Py.list_mul [1000; 500; 2000; 300] (factor_repeat_of n_apps))
    first_app.

End hybrid.

(* ===================================================================== *)
(** ** resample_load.py

    The load is a pandas series of 64-bit integers with the default index
    0, 1, 2, ...; it is the list of its values. The definitions compute
    with exact integers; they agree with the code as long as the values and
    the sums fit 64 bits, which the properties below assume. A percentile
    is a float. *)
(* ===================================================================== *)

Module resample_load.

Inductive error : Set := ZeroDivisionError | ValueError.

(** [s.split(",")] *)
Fixpoint split_commas (s : string) : list string :=
  match s with
  | EmptyString => [EmptyString]
  | String c s' =>
      match split_commas s' with
      | piece :: rest =>
          if Ascii.eqb c "," then EmptyString :: piece :: rest
          else String c piece :: rest
      | [] => []
      end
  end.

(** [str(z)] for an integer. *)
Definition str_of_int (z : Z) : string :=
  if z <? 0 then String "-" (Py.str_of_nat (Z.to_nat (- z)))
  else Py.str_of_nat (Z.to_nat z).

(** [load_dataframe], as a function of the text of the file. *)
Definition load_dataframe (content : string) : error + list Z :=
  match for_each hybrid.int_of_str (split_commas content) with
  | Ok df => inr df
  | Raise _ => inl ValueError
  end.

(** [df.groupby(by=lambda x: x//nseconds)]: the value at position x has
    key x//nseconds; the groups come by increasing key, each with its values
    in series order. The key function is only called on a series that has
    values. *)
Definition groupby (df : list Z) (nseconds : Z) : error + list (list Z) :=
  match df with
  | _ :: _ =>
      if nseconds =? 0 then inl ZeroDivisionError
      else
        let rows := imap (fun x v => (Z.of_nat x / nseconds, v)) df in
        inr ((fun k => snd <$> filter (fun kv => kv.1 = k) rows)
               <$> merge_sort Z.le (remove_dups (fst <$> rows)))
  | [] => inr []
  end.

Definition sum (l : list Z) : Z := foldr Z.add 0 l.

(** The quantile of one group, as pandas computes it on floats: the rank
    is the float product [q * (n - 1)]; when it is a whole number the value
    at that rank is returned, otherwise the float expression
    [val + (next_val - val) * frac] interpolates between the two nearest
    ranks. *)
Definition quantile (q : Q) (group : list Z) : Q :=
  let sorted := binary64.of_int <$> merge_sort Z.le group in
  let pos :=
    binary64.fmul q (binary64.of_int (Z.of_nat (length group) - 1)) in
  let idx := Z.to_nat (Qfloor pos) in
  let frac := (pos - inject_Z (Qfloor pos))%Q in
  let val := default 0%Q (sorted !! idx) in
  if Qeq_bool frac 0 then val
  else
    let next_val := default 0%Q (sorted !! S idx) in
    binary64.fadd val (binary64.fmul (binary64.fsub next_val val) frac).

(** [x.astype(int)] on a float: truncation towards zero. *)
Definition astype_int (x : Q) : Z := Z.quot (Qnum x) (Zpos (Qden x)).

(** The test [percentile and percentile>0.0]. *)
Definition percentile_used (percentile : option Q) : option Q :=
  match percentile with
  | Some p => if Qeq_bool p 0 then None
              else if Qle_bool p 0 then None else Some p
  | None => None
  end.

Definition resample_dataframe (df : list Z) (percentile : option Q)
    (totalsum : bool) (nseconds : Z) : error + list Z :=
  match groupby df nseconds with
  | inl e => inl e
  | inr groups =>
      let total := sum <$> groups in
      match percentile_used percentile with
      | Some q =>
          if Qle_bool q 1 then
            inr ((fun g =>
                    astype_int
                      (binary64.fmul (quantile q g)
                         (binary64.of_int nseconds)))
                   <$> groups)
          else inl ValueError
      | None =>
          if totalsum then inr total else inl ValueError
      end
  end.

(** What [main] does with the text of the input file: it stops before
    reading, raises, or writes a text to the output file. *)
Inductive outcome : Type :=
| Exit
| Raised (e : error)
| Written (text : string).

Definition truthy (percentile : option Q) : bool :=
  match percentile with
  | Some p => negb (Qeq_bool p 0)
  | None => false
  end.

Definition main (content : string) (percentile : option Q) (totalsum : bool)
  : outcome :=
  if negb totalsum && negb (truthy percentile) then Exit
  else
    match load_dataframe content with
    | inl e => Raised e
    | inr df =>
        match resample_dataframe df percentile totalsum 3600 with
        | inl e => Raised e
        | inr rph => Written (String.concat "," (str_of_int <$> rph))
        end
    end.

End resample_load.

(* ===================================================================== *)
(** ** Vocabulary of the properties *)
(* ===================================================================== *)

(** A row that the normaliser must ignore. *)
Definition excluded (r : Row) : Prop :=
  Py.str_contains "SQL" (Software r) = true
  \/ Py.str_contains "No Upfront" (Popt r) = true
  \/ Py.str_contains "Partial Upfront" (Popt r) = true
  \/ Py.str_contains "Unused" (Pdesc r) = true
  \/ (Price r == 0)%Q
  \/ Tenancy r <> "Shared"
  \/ OfferingClass r = Some "convertible".

(** The rows of the table that survive the filter for one instance type. *)
Definition surviving (data : list Row) (instance os : string) : list Row :=
  filter (fun r => cloud_providers.keep_row instance os r = true) data.

(** A pattern that a regular-expression search reads literally: it holds
    none of the characters that [re] gives a meaning to. Only for such a
    pattern is [Series.str.contains] the substring test of the model. *)
Definition literal_pattern (pat : string) : Prop :=
  forallb
    (fun c => negb (existsb (Ascii.eqb c)
                      (String.list_ascii_of_string ".^$*+?{}[]\|()")))
    (String.list_ascii_of_string pat) = true.

(** Prices small enough for the sums of the normaliser to stay finite
    floats. *)
Definition finite_prices (fl : list Row) : Prop :=
  forallb (fun r => Qle_bool (Qabs (Price r)) (binary64.pow2 1023)) fl = true.

(** [v] is the price component of group [k] billed in unit [u]: the price
    of a row of the group with that unit, or zero when the group has no such
    row. *)
Definition component_of (fl : list Row) (k : PriceKey) (u : string) (v : Q)
  : Prop :=
  (exists r, r ∈ fl /\ key_of r = k /\ Unit r = u /\ v = Price r)
  \/ ((forall r, r ∈ fl -> ~ (key_of r = k /\ Unit r = u)) /\ v = 0%Q).

(** Names and objects that the catalog builder creates. *)
Definition zone_name (region_name : string) (z : nat) : string :=
  region_name +:+ "_AZ" +:+ Py.str_of_nat z.

Definition zone_object (region_name : string) (cap : Z) (z : nat)
  : LimitingSet.t :=
  LimitingSet.mk (zone_name region_name z) (zone_name region_name z) cap.

Definition on_demand_id (i region_name : string) : string :=
  i +:+ "_" +:+ region_name.

Definition reserved_id (i region_name : string) (z : nat) : string :=
  i +:+ "_" +:+ region_name +:+ "_" +:+ zone_name region_name z.

Definition datum_of (region_name : string) (max_inst_per_type : Z)
    (r : cloud_providers.SimplifiedPrices) : RegionDatum :=
  {| d_on_demand := Py.dict_get region_name (cloud_providers.on_demand r);
     d_reserved := Py.dict_get region_name (cloud_providers.reserved r);
     d_max_vms := max_inst_per_type |}.

Definition on_demand_entries (ins : list InstanceClass.t)
  : list InstanceClass.t :=
  filter (fun ic => InstanceClass.is_reserved ic = false) ins.

Definition reserved_entries (ins : list InstanceClass.t)
  : list InstanceClass.t :=
  filter (fun ic => InstanceClass.is_reserved ic = true) ins.

(** The characters of a string. *)
Definition chars (s : string) : list ascii := String.list_ascii_of_string s.

Definition is_digit (c : ascii) : Prop :=
  (48 <= N_of_ascii c <= 57)%N.

(** The loop body that fills [region_data]. *)
Definition region_data_step (amazon_ec2_data : list Row)
    (region_name : string) (max_inst_per_type : Z)
    (region_data : list (string * RegionDatum)) (instance_name : string)
  : result (list (string * RegionDatum)) :=
  r <- cloud_providers.get_simplified_amazon_prices amazon_ec2_data
         instance_name "Linux" ;;
  Ok (Py.dict_set instance_name (datum_of region_name max_inst_per_type r)
        region_data).

(** The entries of the catalog, written over the zone numbers. [base] is the
    size of the store before the call: the region object is created at
    reference [base], the object of zone [z] at [base + z]. *)
Definition on_demand_entry (region_name : string) (base : nat)
    (idat : string * RegionDatum) : option InstanceClass.t :=
  match d_on_demand idat.2 with
  | None => None
  | Some p =>
      Some (InstanceClass.mk (on_demand_id idat.1 region_name) idat.1
              [base] p (d_max_vms idat.2) false "h")
  end.

Definition reserved_entry (region_name : string) (base : nat)
    (idat : string * RegionDatum) (z : nat) : option InstanceClass.t :=
  match d_reserved idat.2 with
  | None => None
  | Some p =>
      Some (InstanceClass.mk (reserved_id idat.1 region_name z) idat.1
              [(base + z)%nat] p 0 true "h")
  end.

Definition catalog_of (region_name : string) (base zones : nat)
    (region_data : list (string * RegionDatum)) : list InstanceClass.t :=
  omap (on_demand_entry region_name base) region_data
  ++ (region_data ≫=
        (fun idat => omap (reserved_entry region_name base idat)
                       (seq 1 zones))).

Definition store_after (h : store) (region_name : string) (cap : Z)
    (zones : nat) : store :=
  (h ++ [LimitingSet.mk region_name region_name cap])
  ++ (zone_object region_name cap <$> seq 1 zones).

(** [g] is a greatest common divisor of the values of [l]: it divides all
    of them and every common divisor divides it. *)
Definition is_gcd_of (l : list Z) (g : Z) : Prop :=
  (forall p, p ∈ l -> (g | p))
  /\ (forall d, (forall p, p ∈ l -> (d | p)) -> (d | g)).

(** The smallest multiple of [q] that is not below [x], for positive [q]. *)
Definition round_up (q x : Z) : Z := (x + q - 1) / q * q.

(** The ECU lookup of [get_perfs] fails for an instance type: the table has
    no row of that type, or the ECU cell of its first row is not a number. *)
Definition ecu_lookup_fails (data : list Row) (name : string) : Prop :=
  (forall r, r ∈ data -> Type_ r <> name)
  \/ (exists r rest e,
        filter (fun r => Type_ r = name) data = r :: rest
        /\ hybrid.int (ECU r) = Raise e).

(** The performances of one instance class with [ecus] compute units. *)
Definition perfs_of (apps : list App.t) (perfs_per_ecu : list Z)
    (ecus perf_factor : Z) : list (App.t * Z) :=
  Py.dict_of ((fun ap : App.t * Z => (ap.1, ap.2 * ecus * perf_factor))
                <$> zip apps perfs_per_ecu).

(** *** Example tables *)

Definition price_row (ty region : string) (p : Q) (unit rsv popt : string)
  : Row :=
  {| Type_ := ty; Region := region; Price := p; OS := "Linux"; Unit := unit;
     Rsv := rsv; Popt := popt; Tenancy := "Shared"; OfferingClass := None;
     Pdesc := "per hour"; Software := "N/A"; ECU := CStr "9" |}.

(** One type, on demand in two regions, reserved for one year in "eu" and
    for three years, with an hourly part, in "us". *)
Definition example_table : list Row :=
  [ price_row "c5" "eu" 0.5 "Hrs" "No" "N/A";
    price_row "c5" "eu" 8760 "Quantity" "1yr" "All Upfront";
    price_row "c5" "us" 0.25 "Hrs" "No" "N/A";
    price_row "c5" "us" 26280 "Quantity" "3yr" "All Upfront";
    price_row "c5" "us" 0.125 "Hrs" "3yr" "All Upfront" ].

Definition example_prices : list (PriceKey * Q) :=
  [ (mkKey "eu" "Shared" "1yr" "All Upfront",
      cloud_providers.price_1yr 0 8760);
    (mkKey "eu" "Shared" "No" "N/A", 0.5%Q);
    (mkKey "us" "Shared" "3yr" "All Upfront",
      cloud_providers.price_3yr 0.125 26280);
    (mkKey "us" "Shared" "No" "N/A", 0.25%Q) ].

(** A row that the filter removes: a SQL bundle. *)
Definition sql_row : Row :=
  {| Type_ := "c5"; Region := "eu"; Price := 2; OS := "Linux"; Unit := "Hrs";
     Rsv := "No"; Popt := "N/A"; Tenancy := "Shared"; OfferingClass := None;
     Pdesc := "per hour"; Software := "SQL Std"; ECU := CStr "9" |}.

(** A type that is only offered on demand. *)
Definition on_demand_only_table : list Row :=
  [ price_row "t1" "eu" 0.5 "Hrs" "No" "N/A" ].


(** Two types in a region called "AZ1". *)
Definition collision_table : list Row :=
  [ price_row "a" "AZ1" 0.5 "Hrs" "No" "N/A";
    price_row "a" "AZ1" 8760 "Quantity" "1yr" "All Upfront";
    price_row "a_AZ1_AZ1" "AZ1" 0.25 "Hrs" "No" "N/A";
    price_row "a_AZ1_AZ1" "AZ1" 17520 "Quantity" "1yr" "All Upfront" ].

Definition priv : InstanceClass.t :=
  InstanceClass.mk "priv" "priv" [] 0.05 10 true "h".

(** An on-demand class of the type "c5", and four short workload series. *)
Definition c5_ic : InstanceClass.t :=
  InstanceClass.mk "c5_eu" "c5" [] 0.5 20 false "h".

Definition four_series : list (list Z) :=
  [[0; 499; 500; 501]; [1; 2; 3; 4]; [5; 6; 7; 8]; [9; 10; 11; 12]].

(** The shape of demand that the discretisation accepts: one positive
    quantum per series, and series that are non-empty, non-negative and of
    one length. *)
Definition demand_shape (workloads : list (list Z)) (quanta : list Z)
  : Prop :=
  length workloads = length quanta
  /\ Forall (fun q => 0 < q) quanta
  /\ Forall (fun w => w <> [] /\ Forall (fun x => 0 <= x) w) workloads
  /\ (forall w1 w2, w1 ∈ workloads -> w2 ∈ workloads ->
                    length w1 = length w2).

(** Demand and quanta below a bound. numpy holds the demand and the levels
    in 64-bit integers: below 2^62 every level, which is less than the
    greatest demand plus the quantum, fits them. *)
Definition bounded_demand (bound : Z) (workloads : list (list Z))
    (quanta : list Z) : Prop :=
  Forall (fun q => q < bound) quanta
  /\ Forall (fun w => Forall (fun x => x < bound) w) workloads.

(** Well-formed demand: the shape above, and values and quanta below 2^61,
    so that the quantized demand can be quantized again within 64 bits. *)
Definition well_formed_demand (workloads : list (list Z)) (quanta : list Z)
  : Prop :=
  demand_shape workloads quanta /\ bounded_demand (2 ^ 61) workloads quanta.

(** The consecutive blocks of [n] values of a series, the last one
    possibly shorter. *)
Definition blocks (n : nat) (l : list Z) : list (list Z) :=
  (fun k => take n (drop (k * n) l)) <$> seq 0 (Nat.div (length l + n - 1) n).

(** A load that pandas holds as a series of 64-bit integers: it is not
    empty and every value fits. *)
Definition int64_values (df : list Z) : Prop :=
  df <> [] /\ Forall (fun x => - 2 ^ 63 <= x < 2 ^ 63) df.

(** A load whose sums fit as well: the absolute values add up to less than
    2^63, so no sum over a part of the load wraps around. *)
Definition int64_load (df : list Z) : Prop :=
  df <> [] /\ resample_load.sum (Z.abs <$> df) < 2 ^ 63.

(** A text whose numerals have at most 4300 characters each: [int] reads
    longer numerals only when the interpreter's limit on them is off. *)
Definition short_numerals (content : string) : Prop :=
  forallb (fun piece => Z.of_nat (String.length piece) <=? 4300)
    (resample_load.split_commas content) = true.

(** The same for a cell of the price table. *)
Definition short_cell (c : cell) : Prop :=
  match c with
  | CStr s => Z.of_nat (String.length s) <= 4300
  | _ => True
  end.

(** A percentile that [resample_dataframe] does not use: none, zero or
    negative. *)
Definition percentile_not_used (percentile : option Q) : Prop :=
  match percentile with
  | Some p => (p <= 0)%Q
  | None => True
  end.

(* ===================================================================== *)
(** ** Exceptions and loops *)
(* ===================================================================== *)

Lemma bind_Ok_inv {A B} (m : result A) (k : A -> result B) (b : B) :
  bind m k = Ok b -> exists a, m = Ok a /\ k a = Ok b.
Proof. destruct m as [a|e]; simpl; [eauto | discriminate]. Qed.

Ltac bind_inv H :=
  let a := fresh "a" in
  let Ha := fresh "Ha" in
  apply bind_Ok_inv in H; destruct H as (a & Ha & H).

Lemma for_each_Ok_fmap {A B} (f : A -> result B) (g : A -> B) (l : list A) :
  (forall x, x ∈ l -> f x = Ok (g x)) -> for_each f l = Ok (g <$> l).
Proof.
  induction l as [|x l IH]; intros Hf; [reflexivity|]. simpl.
  rewrite (Hf x) by left. simpl. rewrite IH; [reflexivity|].
  intros y Hy. apply Hf. right. exact Hy.
Qed.

Lemma for_each_Raise {A B} (f : A -> result B) (e : exn) (l : list A) :
  (forall x e', x ∈ l -> f x = Raise e' -> e' = e) ->
  (exists x e', x ∈ l /\ f x = Raise e') ->
  for_each f l = Raise e.
Proof.
  induction l as [|x l IH]; intros Honly (y & e' & Hy & Hfy).
  - apply elem_of_nil in Hy. contradiction.
  - simpl. destruct (f x) as [b|e0] eqn:E; simpl.
    + rewrite IH; [reflexivity| |].
      * intros z e1 Hz. apply Honly. right. exact Hz.
      * apply elem_of_cons in Hy. destruct Hy as [->|Hy]; [congruence|eauto].
    + f_equal. apply (Honly x e0); [left|exact E].
Qed.

(* ===================================================================== *)
(** ** The price normaliser *)
(* ===================================================================== *)

Section normaliser.
Import cloud_providers.

Lemma keep_row_excluded instance os r :
  excluded r -> keep_row instance os r = false.
Proof.
  unfold excluded, keep_row.
  intros [H|[H|[H|[H|[H|[H|H]]]]]].
  1-4: rewrite H; simpl; rewrite ?andb_false_r; reflexivity.
  - apply Qeq_bool_iff in H. rewrite H. simpl.
    rewrite ?andb_false_r. reflexivity.
  - apply String.eqb_neq in H. rewrite H. rewrite ?andb_false_r. reflexivity.
  - rewrite bool_decide_eq_true_2 by exact H. simpl.
    rewrite ?andb_false_r. reflexivity.
Qed.

Lemma unstack_fillna_Ok fl g :
  unstack_fillna fl = Ok g ->
  NoDup (index_of <$> fl)
  /\ g_columns g = merge_sort String.le (remove_dups (Unit <$> fl))
  /\ g_rows g =
       (fun k => (k, (fun u => default 0%Q (cell_price fl k u))
                       <$> g_columns g))
         <$> merge_sort key_le (remove_dups (key_of <$> fl)).
Proof.
  unfold unstack_fillna. case_bool_decide; [|discriminate].
  intros [= <-]. simpl. auto.
Qed.

Lemma column_loc_Ok g u i :
  column_loc g u = Ok i -> g_columns g !! i = Some u.
Proof.
  unfold column_loc.
  destruct (list_find _ _) as [[j c]|] eqn:E; [|discriminate].
  intros [= <-]. apply list_find_Some in E. destruct E as (E & -> & _).
  exact E.
Qed.

Lemma at_column_fmap (f : string -> Q) cols i u :
  cols !! i = Some u -> at_column (f <$> cols) i = f u.
Proof.
  intros H. unfold at_column. rewrite nth_lookup, list_lookup_fmap, H.
  reflexivity.
Qed.

Lemma cell_price_component fl k u :
  component_of fl k u (default 0%Q (cell_price fl k u)).
Proof.
  unfold component_of, cell_price.
  destruct (find _ fl) as [r|] eqn:E; simpl.
  - left. apply find_some in E. destruct E as [Hin Hb].
    apply bool_decide_eq_true in Hb. injection Hb as Hk Hu.
    exists r. rewrite list_elem_of_In. auto.
  - right. split; [|reflexivity]. intros r Hin [Hk Hu].
    apply list_elem_of_In in Hin.
    pose proof (find_none _ _ E r Hin) as Hb. simpl in Hb.
    apply bool_decide_eq_false in Hb. apply Hb.
    unfold index_of. congruence.
Qed.

Lemma grouped_row_in fl g row :
  unstack_fillna fl = Ok g ->
  row ∈ g_rows g <->
  (exists r, r ∈ fl /\ key_of r = row.1)
  /\ row.2 = (fun u => default 0%Q (cell_price fl row.1 u)) <$> g_columns g.
Proof.
  intros Hg. apply unstack_fillna_Ok in Hg. destruct Hg as (_ & _ & Hrows).
  rewrite Hrows, list_elem_of_fmap. split.
  - intros (k & -> & Hk). simpl. split; [|reflexivity].
    rewrite merge_sort_Permutation, elem_of_remove_dups,
      list_elem_of_fmap in Hk.
    destruct Hk as (r & -> & Hr). eauto.
  - intros [(r & Hr & Hk) H2]. exists row.1. split.
    + destruct row as [k vs]. simpl in *. congruence.
    + rewrite merge_sort_Permutation, elem_of_remove_dups, list_elem_of_fmap.
      eauto.
Qed.

(** When the normaliser returns, what it returns. *)
Lemma get_amazon_ec2_prices_Ok data instance os prices :
  get_amazon_ec2_prices data instance os = Ok prices ->
  exists g hrs quantity,
    unstack_fillna (surviving data instance os) = Ok g
    /\ g_columns g !! hrs = Some "Hrs"
    /\ g_columns g !! quantity = Some "Quantity"
    /\ forall e, e ∈ prices <->
         exists row, row ∈ g_rows g /\ e.1 = row.1
           /\ ((kRsv row.1 = "1yr"
                /\ e.2 = price_1yr (at_column row.2 hrs)
                           (at_column row.2 quantity))
               \/ (kRsv row.1 = "3yr"
                   /\ e.2 = price_3yr (at_column row.2 hrs)
                              (at_column row.2 quantity))
               \/ (kRsv row.1 = "No" /\ e.2 = at_column row.2 hrs)).
Proof.
  unfold get_amazon_ec2_prices. fold (surviving data instance os).
  intros H. bind_inv H. rename a into g. bind_inv H. rename a into hrs.
  bind_inv H. rename a into quantity. injection H as <-.
  exists g, hrs, quantity. repeat split; eauto using column_loc_Ok.
  - rewrite merge_sort_Permutation, !elem_of_app, !list_elem_of_fmap.
    unfold select_rsv.
    intros [(row & -> & Hr)|[(row & -> & Hr)|(row & -> & Hr)]];
      apply list_elem_of_filter in Hr; destruct Hr as [Hrsv Hr];
      exists row; simpl; tauto.
  - rewrite merge_sort_Permutation, !elem_of_app, !list_elem_of_fmap.
    unfold select_rsv. destruct e as [k p]. simpl.
    intros (row & Hr & -> & [[Hrsv ->]|[[Hrsv ->]|[Hrsv ->]]]);
      [left | right; left | right; right];
      exists row; (split; [reflexivity | apply list_elem_of_filter; auto]).
Qed.

Lemma column_loc_present g u :
  u ∈ g_columns g -> exists i, column_loc g u = Ok i.
Proof.
  intros Hu. unfold column_loc.
  destruct (list_find _ _) as [[i c]|] eqn:E; [eauto|].
  apply list_find_None in E. rewrite list.Forall_forall in E.
  exfalso. apply (E u Hu). reflexivity.
Qed.

(** The normaliser returns when no two surviving rows have the same index
    and both billing units occur among the surviving rows. *)
Lemma get_amazon_ec2_prices_returns data instance os :
  NoDup (index_of <$> surviving data instance os) ->
  "Hrs" ∈ Unit <$> surviving data instance os ->
  "Quantity" ∈ Unit <$> surviving data instance os ->
  exists prices, get_amazon_ec2_prices data instance os = Ok prices.
Proof.
  intros Hnd Hh Hq. unfold get_amazon_ec2_prices.
  fold (surviving data instance os). unfold unstack_fillna.
  rewrite bool_decide_eq_true_2 by exact Hnd. simpl.
  set (g := {| g_columns := _; g_rows := _ |}).
  destruct (column_loc_present g "Hrs") as [ih ->].
  { simpl. rewrite merge_sort_Permutation, elem_of_remove_dups. exact Hh. }
  destruct (column_loc_present g "Quantity") as [iq ->].
  { simpl. rewrite merge_sort_Permutation, elem_of_remove_dups. exact Hq. }
  simpl. eauto.
Qed.

(** Without a row billed by quantity the frame has no such column and the
    normaliser raises, also for a table that only holds on-demand rows. *)
Lemma get_amazon_ec2_prices_on_demand_only :
  get_amazon_ec2_prices on_demand_only_table "t1" "Linux" = Raise KeyError.
Proof. vm_compute. reflexivity. Qed.


(** C2. A row whose software field contains "SQL", or whose purchase option
    contains "No Upfront" or "Partial Upfront", or whose description contains
    "Unused", or whose price is zero, or whose tenancy is not "Shared", or
    whose offering class is "convertible", contributes to nothing that the
    normaliser returns: the result is the same with the row and without
    it, for every table, instance type and OS filter. *)
Theorem C2_excluded_rows_do_not_contribute
    (before after : list Row) (r : Row) (instance os : string) :
  excluded r ->
  cloud_providers.get_amazon_ec2_prices (before ++ r :: after) instance os
  = cloud_providers.get_amazon_ec2_prices (before ++ after) instance os.
Proof.
  intros Hex. unfold get_amazon_ec2_prices.
  rewrite !list.filter_app, filter_cons_False; [reflexivity|].
  rewrite (keep_row_excluded instance os r Hex). discriminate.
Qed.

End normaliser.

(* ===================================================================== *)
(** ** Strings *)
(* ===================================================================== *)

Section strings.

Lemma chars_app (a b : string) : chars (a +:+ b) = chars a ++ chars b.
Proof.
  unfold chars. induction a as [|c a IH]; [reflexivity|].
  change (String c a +:+ b) with (String c (a +:+ b)). simpl.
  rewrite IH. reflexivity.
Qed.

Lemma chars_inj (a b : string) : chars a = chars b -> a = b.
Proof.
  unfold chars. intros H.
  rewrite <- (String.string_of_list_ascii_of_string a),
    <- (String.string_of_list_ascii_of_string b), H. reflexivity.
Qed.

(** Two splittings of one list at a separator that does not occur after
    the split point are the same splitting. *)
Lemma split_at_last {A} (c : A) (l1 l2 d1 d2 : list A) :
  c ∉ d1 -> c ∉ d2 -> l1 ++ c :: d1 = l2 ++ c :: d2 -> l1 = l2 /\ d1 = d2.
Proof.
  intros H1 H2. revert l2. induction l1 as [|x l1 IH]; intros [|y l2] E;
    simpl in E.
  - injection E as ->. auto.
  - injection E as <- ->. exfalso. apply H1, elem_of_app. right. left.
  - injection E as -> <-. exfalso. apply H2, elem_of_app. right. left.
  - injection E as -> E. destruct (IH _ E) as [-> ->]. auto.
Qed.

(** The same for a separator that does not occur before the split point. *)
Lemma split_at_first {A} (c : A) (l1 l2 r1 r2 : list A) :
  c ∉ l1 -> c ∉ l2 -> l1 ++ c :: r1 = l2 ++ c :: r2 -> l1 = l2 /\ r1 = r2.
Proof.
  revert l2. induction l1 as [|x l1 IH]; intros [|y l2] H1 H2 E; simpl in E.
  - injection E as ->. auto.
  - injection E as <- _. exfalso. apply H2. left.
  - injection E as -> _. exfalso. apply H1. left.
  - injection E as -> E.
    apply not_elem_of_cons in H1, H2.
    destruct (IH l2) as [-> ->]; [tauto | tauto | exact E | auto].
Qed.

Lemma string_of_uint_digits (d : Decimal.uint) :
  Forall is_digit (chars (NilEmpty.string_of_uint d)).
Proof.
  unfold chars. induction d; simpl; constructor; try assumption;
    unfold is_digit; simpl; lia.
Qed.

Lemma str_of_nat_digits (n : nat) : Forall is_digit (chars (Py.str_of_nat n)).
Proof. apply string_of_uint_digits. Qed.

Lemma str_of_nat_inj (n m : nat) : Py.str_of_nat n = Py.str_of_nat m -> n = m.
Proof.
  unfold Py.str_of_nat. intros H.
  apply (f_equal NilEmpty.uint_of_string) in H.
  rewrite !NilEmpty.usu in H. injection H as H.
  apply (f_equal Nat.of_uint) in H.
  rewrite !DecimalNat.Unsigned.of_to in H. exact H.
Qed.

Lemma not_digit_not_in (c : ascii) (n : nat) :
  ~ is_digit c -> c ∉ chars (Py.str_of_nat n).
Proof.
  intros Hc Hin. pose proof (str_of_nat_digits n) as Hd.
  rewrite list.Forall_forall in Hd. apply Hc, Hd, Hin.
Qed.

Lemma str_contains_char_false (c : ascii) (s : string) :
  Py.str_contains (String c "") s = false -> c ∉ chars s.
Proof.
  unfold chars. induction s as [|x s IH]; simpl.
  - intros _. apply not_elem_of_nil.
  - intros H. apply orb_false_iff in H. destruct H as [Hx Hs].
    apply not_elem_of_cons. split; [|auto].
    intros ->. destruct (ascii_dec x x) as [_|Hne]; [|congruence].
    destruct s; discriminate.
Qed.

Lemma on_demand_id_chars (i region_name : string) :
  chars (on_demand_id i region_name)
  = chars i ++ "_"%char :: chars region_name.
Proof. unfold on_demand_id. rewrite !chars_app. reflexivity. Qed.

Lemma reserved_id_chars (i region_name : string) (z : nat) :
  chars (reserved_id i region_name z)
  = chars i ++ "_"%char :: chars region_name
      ++ "_"%char :: chars region_name
      ++ "_"%char :: "A"%char :: "Z"%char :: chars (Py.str_of_nat z).
Proof.
  unfold reserved_id, zone_name. rewrite !chars_app. reflexivity.
Qed.

Lemma on_demand_id_inj (a b region_name : string) :
  on_demand_id a region_name = on_demand_id b region_name -> a = b.
Proof.
  intros H. apply (f_equal chars) in H. rewrite !on_demand_id_chars in H.
  apply app_inv_tail in H. apply chars_inj. exact H.
Qed.

Lemma reserved_id_inj (a b region_name : string) (z1 z2 : nat) :
  reserved_id a region_name z1 = reserved_id b region_name z2 ->
  a = b /\ z1 = z2.
Proof.
  intros H. apply (f_equal chars) in H. rewrite !reserved_id_chars in H.
  set (mid := "_"%char :: chars region_name
                ++ "_"%char :: chars region_name ++ ["_"%char; "A"%char]).
  assert (Hshape : forall i z,
            chars i ++ "_"%char :: chars region_name
              ++ "_"%char :: chars region_name
              ++ "_"%char :: "A"%char :: "Z"%char :: chars (Py.str_of_nat z)
            = (chars i ++ mid) ++ "Z"%char :: chars (Py.str_of_nat z)).
  { intros i z. subst mid.
    repeat ((rewrite <- app_assoc) || (progress simpl)). reflexivity. }
  rewrite !Hshape in H.
  apply split_at_last in H.
  - destruct H as [Hpre Hdig]. apply app_inv_tail in Hpre.
    split; [apply chars_inj; exact Hpre|].
    apply str_of_nat_inj, chars_inj. exact Hdig.
  - apply not_digit_not_in. unfold is_digit. simpl. lia.
  - apply not_digit_not_in. unfold is_digit. simpl. lia.
Qed.

Lemma ids_of_modes_differ (a b region_name : string) (z : nat) :
  "_"%char ∉ chars a -> "_"%char ∉ chars b ->
  on_demand_id a region_name <> reserved_id b region_name z.
Proof.
  intros Ha Hb H. apply (f_equal chars) in H.
  rewrite on_demand_id_chars, reserved_id_chars in H.
  apply split_at_first in H; [|exact Ha|exact Hb].
  destruct H as [_ H]. apply (f_equal length) in H.
  rewrite length_app in H. simpl in H. lia.
Qed.

End strings.

(* ===================================================================== *)
(** ** Insertion-ordered dictionaries *)
(* ===================================================================== *)

Section dict_facts.
Context {K V : Type} `{EqDecision K}.
Implicit Types (k : K) (v : V) (d : list (K * V)).

Lemma dict_get_set_eq k v d : Py.dict_get k (Py.dict_set k v d) = Some v.
Proof.
  induction d as [|[k' v'] d IH]; simpl.
  - rewrite decide_True by reflexivity. reflexivity.
  - destruct (decide (k' = k)) as [->|Hne]; simpl.
    + rewrite decide_True by reflexivity. reflexivity.
    + rewrite decide_False by exact Hne. exact IH.
Qed.

Lemma dict_get_set_ne k k' v d :
  k <> k' -> Py.dict_get k' (Py.dict_set k v d) = Py.dict_get k' d.
Proof.
  intros Hne. induction d as [|[k0 v0] d IH]; simpl.
  - rewrite decide_False by exact Hne. reflexivity.
  - destruct (decide (k0 = k)) as [->|Hne0]; simpl.
    + rewrite !decide_False by exact Hne. reflexivity.
    + destruct (decide (k0 = k')); [reflexivity | exact IH].
Qed.

Lemma elem_of_dict_set k v d e :
  e ∈ Py.dict_set k v d -> e = (k, v) \/ e ∈ d.
Proof.
  induction d as [|[k' v'] d IH]; simpl.
  - intros He%list_elem_of_singleton. auto.
  - destruct (decide (k' = k)) as [->|Hne]; rewrite !elem_of_cons;
      intros [He|He]; auto.
    destruct (IH He); auto.
Qed.

Lemma dict_set_keys k v d k' :
  k' ∈ (Py.dict_set k v d).*1 <-> k' = k \/ k' ∈ d.*1.
Proof.
  induction d as [|[k0 v0] d IH]; simpl.
  - rewrite list_elem_of_singleton, elem_of_nil. tauto.
  - destruct (decide (k0 = k)) as [->|Hne]; simpl; rewrite !elem_of_cons.
    + tauto.
    + rewrite IH. tauto.
Qed.

Lemma dict_set_NoDup k v d : NoDup d.*1 -> NoDup (Py.dict_set k v d).*1.
Proof.
  induction d as [|[k0 v0] d IH]; simpl.
  - intros _. apply NoDup_singleton.
  - intros [Hnot Hd]%list.NoDup_cons.
    destruct (decide (k0 = k)) as [->|Hne]; simpl; apply list.NoDup_cons.
    + auto.
    + split; [|auto]. rewrite dict_set_keys. intros [->|Hin]; auto.
Qed.

Lemma dict_set_length k v d :
  (length (Py.dict_set k v d) <= S (length d))%nat.
Proof.
  induction d as [|[k0 v0] d IH]; simpl; [lia|].
  destruct (decide (k0 = k)); simpl; lia.
Qed.

(** The value under [k] after a run of assignments: if every assignment to
    [k] writes [v] and [k] is assigned at least once. *)
Lemma dict_get_fold_set {X} (key : X -> K) (val : X -> V) (l : list X) k v d :
  (forall x, x ∈ l -> key x = k -> val x = v) ->
  Py.dict_get k d = Some v \/ (exists x, x ∈ l /\ key x = k) ->
  Py.dict_get k (fold_left (fun d x => Py.dict_set (key x) (val x) d) l d)
  = Some v.
Proof.
  revert d. induction l as [|x l IH]; intros d Hval Hex; simpl.
  - destruct Hex as [Hd|(x & Hx & _)]; [exact Hd|].
    apply elem_of_nil in Hx. contradiction.
  - apply IH.
    + intros y Hy. apply Hval. right. exact Hy.
    + destruct (decide (key x = k)) as [Hk|Hk].
      * left. rewrite Hk, dict_get_set_eq. f_equal. apply Hval; [left|exact Hk].
      * destruct Hex as [Hd|(y & Hy & Hyk)].
        -- left. rewrite dict_get_set_ne by exact Hk. exact Hd.
        -- apply elem_of_cons in Hy. destruct Hy as [->|Hy];
             [contradiction | right; eauto].
Qed.

End dict_facts.

(* ===================================================================== *)
(** ** The catalog builder *)
(* ===================================================================== *)

Section catalog.
Import cloud_providers.

Lemma omap_fmap_ext {A B C} (f : B -> option C) (f' : A -> option C)
    (g : A -> B) (l : list A) :
  (forall x, x ∈ l -> f (g x) = f' x) -> omap f (g <$> l) = omap f' l.
Proof.
  induction l as [|x l IH]; intros Hext; [reflexivity|]. csimpl.
  rewrite (Hext x) by left. rewrite IH; [reflexivity|].
  intros y Hy. apply Hext. right. exact Hy.
Qed.

Lemma bind_ext_in {A B} (f g : A -> list B) (l : list A) :
  (forall x, x ∈ l -> f x = g x) -> l ≫= f = l ≫= g.
Proof.
  induction l as [|x l IH]; intros Hext; [reflexivity|]. csimpl.
  rewrite (Hext x) by left. rewrite IH; [reflexivity|].
  intros y Hy. apply Hext. right. exact Hy.
Qed.

(** The zone comprehension creates consecutive new objects. *)
Lemma new_zones region_name cap n s zs (h : store) :
  fold_left (new_zone region_name cap) (seq s n) (zs, h)
  = (zs ++ seq (length h) n, h ++ (zone_object region_name cap <$> seq s n)).
Proof.
  revert s zs h. induction n as [|n IH]; intros s zs h; simpl.
  - rewrite !app_nil_r. reflexivity.
  - unfold new_zone at 2. simpl. rewrite IH.
    rewrite length_app, <- !app_assoc. simpl.
    replace (length h + 1)%nat with (S (length h)) by lia.
    reflexivity.
Qed.

Lemma store_after_region (h : store) region_name cap zones :
  store_after h region_name cap zones !! length h
  = Some (LimitingSet.mk region_name region_name cap).
Proof.
  unfold store_after. rewrite <- app_assoc. apply list_lookup_middle.
  reflexivity.
Qed.

Lemma store_after_zone (h : store) region_name cap zones z :
  (1 <= z <= zones)%nat ->
  store_after h region_name cap zones !! (length h + z)%nat
  = Some (zone_object region_name cap z).
Proof.
  intros Hz. unfold store_after.
  rewrite lookup_app_r by (rewrite length_app; simpl; lia).
  rewrite length_app. simpl.
  replace (length h + z - (length h + 1))%nat with (z - 1)%nat by lia.
  rewrite list_lookup_fmap, lookup_seq_lt by lia. simpl.
  do 2 f_equal. lia.
Qed.

Lemma store_after_old (h : store) region_name cap zones i o :
  h !! i = Some o -> store_after h region_name cap zones !! i = Some o.
Proof.
  intros H. unfold store_after. rewrite <- app_assoc.
  apply lookup_app_l_Some. exact H.
Qed.

Lemma store_after_length (h : store) region_name cap zones :
  length (store_after h region_name cap zones) = (length h + 1 + zones)%nat.
Proof.
  unfold store_after. rewrite !length_app, length_fmap, length_seq.
  reflexivity.
Qed.

(** The builder is the loop over the instance names followed by the
    construction of the catalog. *)
Lemma generate_amazon_region_instances_eq data region_name
    max_inst_per_type max_inst_per_group availability_zones instance_names h :
  generate_amazon_region_instances data region_name max_inst_per_type
    max_inst_per_group availability_zones instance_names h
  = (region_data <-
       fold_loop (region_data_step data region_name max_inst_per_type)
         (merge_sort String.le instance_names) [] ;;
     Ok (catalog_of region_name (length h) availability_zones region_data,
         store_after h region_name max_inst_per_group availability_zones)).
Proof.
  unfold generate_amazon_region_instances.
  change (fold_loop _ (merge_sort String.le instance_names) [])
    with (fold_loop (region_data_step data region_name max_inst_per_type)
            (merge_sort String.le instance_names) []).
  destruct (fold_loop _ _ _) as [rd|e]; simpl; [|reflexivity].
  rewrite new_zones. simpl. unfold catalog_of.
  fold (store_after h region_name max_inst_per_group availability_zones).
  do 2 f_equal. f_equal.
  apply bind_ext_in. intros idat _.
  rewrite length_app. simpl.
  rewrite <- (fmap_add_seq (length h) 1).
  apply omap_fmap_ext. intros z Hz. apply elem_of_seq in Hz.
  unfold reserved_entry. destruct (d_reserved idat.2); [|reflexivity].
  assert (Hz' : (1 <= z <= availability_zones)%nat) by lia.
  pose proof (store_after_zone h region_name max_inst_per_group
                availability_zones z Hz') as Hzone.
  apply list_lookup_total_correct in Hzone.
  rewrite Hzone. reflexivity.
Qed.

(** What the loop over the instance names leaves in [region_data]. *)
Lemma region_data_loop data region_name max_inst_per_type names rd0 rd :
  fold_loop (region_data_step data region_name max_inst_per_type) names rd0
  = Ok rd ->
  NoDup rd0.*1 ->
  NoDup rd.*1
  /\ (length rd <= length rd0 + length names)%nat
  /\ (forall n, n ∈ names -> n ∈ rd.*1)
  /\ (forall n, n ∈ rd0.*1 -> n ∈ rd.*1)
  /\ (forall e, e ∈ rd ->
        e ∈ rd0
        \/ (e.1 ∈ names
            /\ exists r, get_simplified_amazon_prices data e.1 "Linux" = Ok r
                 /\ e.2 = datum_of region_name max_inst_per_type r)).
Proof.
  revert rd0. induction names as [|n names IH]; intros rd0 H Hnd; simpl in H.
  - injection H as <-. repeat split; auto; [lia|].
    intros n Hn. apply elem_of_nil in Hn. contradiction.
  - bind_inv H. rename a into rd1. unfold region_data_step in Ha.
    bind_inv Ha. rename a into r. injection Ha as <-.
    destruct (IH _ H (dict_set_NoDup _ _ _ Hnd))
      as (Hnd' & Hlen & Hnames & Hkeys & Hin).
    pose proof (dict_set_length n (datum_of region_name max_inst_per_type r)
                  rd0) as Hl.
    split; [exact Hnd'|]. split; [simpl; lia|]. split; [|split].
    + intros m Hm. apply elem_of_cons in Hm. destruct Hm as [->|Hm]; [|auto].
      apply Hkeys, dict_set_keys. left. reflexivity.
    + intros m Hm. apply Hkeys, dict_set_keys. right. exact Hm.
    + intros e He. destruct (Hin e He) as [He0|(Hn & r' & Hr' & Hd)].
      * apply elem_of_dict_set in He0. destruct He0 as [->|He0]; [|auto].
        right. simpl. split; [left|]. eauto.
      * right. split; [right; exact Hn | eauto].
Qed.

Lemma region_data_loop_total data region_name max_inst_per_type names rd0 :
  (forall n, n ∈ names ->
     exists r, get_simplified_amazon_prices data n "Linux" = Ok r) ->
  exists rd,
    fold_loop (region_data_step data region_name max_inst_per_type) names rd0
    = Ok rd.
Proof.
  revert rd0. induction names as [|n names IH]; intros rd0 Hall; simpl.
  - eauto.
  - destruct (Hall n) as [r Hr]; [left|].
    unfold region_data_step at 1. rewrite Hr. simpl.
    apply IH. intros m Hm. apply Hall. right. exact Hm.
Qed.

Lemma on_demand_entry_Some region_name base idat ic :
  on_demand_entry region_name base idat = Some ic ->
  InstanceClass.id ic = on_demand_id idat.1 region_name
  /\ InstanceClass.name ic = idat.1
  /\ InstanceClass.limiting_sets ic = [base]
  /\ InstanceClass.is_reserved ic = false
  /\ d_on_demand idat.2 = Some (InstanceClass.price ic)
  /\ InstanceClass.max_vms ic = d_max_vms idat.2.
Proof.
  unfold on_demand_entry. destruct (d_on_demand idat.2); [|discriminate].
  intros [= <-]. simpl. auto 10.
Qed.

Lemma reserved_entry_Some region_name base idat z ic :
  reserved_entry region_name base idat z = Some ic ->
  InstanceClass.id ic = reserved_id idat.1 region_name z
  /\ InstanceClass.name ic = idat.1
  /\ InstanceClass.limiting_sets ic = [(base + z)%nat]
  /\ InstanceClass.is_reserved ic = true
  /\ d_reserved idat.2 = Some (InstanceClass.price ic)
  /\ InstanceClass.max_vms ic = 0.
Proof.
  unfold reserved_entry. destruct (d_reserved idat.2); [|discriminate].
  intros [= <-]. simpl. auto 10.
Qed.

Lemma elem_of_catalog_of region_name base zones rd ic :
  ic ∈ catalog_of region_name base zones rd <->
  (exists idat, idat ∈ rd /\ on_demand_entry region_name base idat = Some ic)
  \/ (exists idat z, idat ∈ rd /\ (1 <= z <= zones)%nat
        /\ reserved_entry region_name base idat z = Some ic).
Proof.
  unfold catalog_of.
  rewrite elem_of_app, list_elem_of_omap, list_elem_of_bind.
  split; (intros [H|H]; [left; exact H | right]).
  - destruct H as (idat & Hic & Hidat). apply list_elem_of_omap in Hic.
    destruct Hic as (z & Hz & Hic). apply elem_of_seq in Hz.
    exists idat, z. split; [exact Hidat|]. split; [lia | exact Hic].
  - destruct H as (idat & z & Hidat & Hz & Hic). exists idat.
    split; [|exact Hidat]. apply list_elem_of_omap. exists z.
    split; [apply elem_of_seq; lia | exact Hic].
Qed.

(** What a successful call returns. *)
Lemma generate_amazon_region_instances_Ok data region_name
    max_inst_per_type max_inst_per_group availability_zones instance_names
    h ins h' :
  generate_amazon_region_instances data region_name max_inst_per_type
    max_inst_per_group availability_zones instance_names h = Ok (ins, h') ->
  exists rd,
    fold_loop (region_data_step data region_name max_inst_per_type)
      (merge_sort String.le instance_names) [] = Ok rd
    /\ ins = catalog_of region_name (length h) availability_zones rd
    /\ h' = store_after h region_name max_inst_per_group availability_zones.
Proof.
  rewrite generate_amazon_region_instances_eq. intros H. bind_inv H.
  injection H as <- <-. eauto.
Qed.

(** C3. In a one-region catalog the builder gives every on-demand entry
    exactly one constraint, the one region object created by the call
    (the same reference in all of them); it gives every reserved entry
    exactly one constraint, the object of that entry's availability zone;
    and no constraint belongs both to an on-demand and to a reserved
    entry. *)
Theorem C3_constraint_sharing data region_name max_inst_per_type
    max_inst_per_group availability_zones instance_names h ins h' :
  cloud_providers.generate_amazon_region_instances data region_name
    max_inst_per_type max_inst_per_group availability_zones instance_names h
  = Ok (ins, h') ->
  let region : ref := length h in
  h !! region = None
  /\ h' !! region
     = Some (LimitingSet.mk region_name region_name max_inst_per_group)
  /\ (forall ic, ic ∈ ins -> InstanceClass.is_reserved ic = false ->
        InstanceClass.limiting_sets ic = [region])
  /\ (forall ic, ic ∈ ins -> InstanceClass.is_reserved ic = true ->
        exists z, (1 <= z <= availability_zones)%nat
          /\ InstanceClass.limiting_sets ic = [(region + z)%nat]
          /\ h' !! (region + z)%nat
             = Some (zone_object region_name max_inst_per_group z)
          /\ InstanceClass.id ic
             = reserved_id (InstanceClass.name ic) region_name z)
  /\ (forall ic1 ic2 r, ic1 ∈ ins -> ic2 ∈ ins ->
        InstanceClass.is_reserved ic1 = false ->
        InstanceClass.is_reserved ic2 = true ->
        r ∈ InstanceClass.limiting_sets ic1 ->
        r ∉ InstanceClass.limiting_sets ic2).
Proof.
  intros H region. apply generate_amazon_region_instances_Ok in H.
  destruct H as (rd & _ & -> & ->).
  assert (Hod : forall ic,
            ic ∈ catalog_of region_name (length h) availability_zones rd ->
            InstanceClass.is_reserved ic = false ->
            InstanceClass.limiting_sets ic = [region]).
  { intros ic Hic Hres. apply elem_of_catalog_of in Hic.
    destruct Hic as [(idat & _ & He)|(idat & z & _ & _ & He)].
    - apply on_demand_entry_Some in He. tauto.
    - apply reserved_entry_Some in He. destruct He as (_ & _ & _ & Hr & _).
      congruence. }
  assert (Hrs : forall ic,
            ic ∈ catalog_of region_name (length h) availability_zones rd ->
            InstanceClass.is_reserved ic = true ->
            exists z, (1 <= z <= availability_zones)%nat
              /\ InstanceClass.limiting_sets ic = [(region + z)%nat]
              /\ store_after h region_name max_inst_per_group
                   availability_zones !! (region + z)%nat
                 = Some (zone_object region_name max_inst_per_group z)
              /\ InstanceClass.id ic
                 = reserved_id (InstanceClass.name ic) region_name z).
  { intros ic Hic Hres. apply elem_of_catalog_of in Hic.
    destruct Hic as [(idat & _ & He)|(idat & z & _ & Hz & He)].
    - apply on_demand_entry_Some in He. destruct He as (_ & _ & _ & Hr & _).
      congruence.
    - apply reserved_entry_Some in He.
      destruct He as (Hid & Hname & Hls & _).
      exists z. split; [exact Hz|]. split; [exact Hls|].
      split; [apply store_after_zone; exact Hz|]. congruence. }
  split; [apply lookup_ge_None_2; reflexivity|].
  split; [apply store_after_region|].
  split; [exact Hod|]. split; [exact Hrs|].
  intros ic1 ic2 r H1 H2 Hr1 Hr2 Hin1 Hin2.
  rewrite (Hod ic1 H1 Hr1) in Hin1.
  destruct (Hrs ic2 H2 Hr2) as (z & Hz & Hls & _). rewrite Hls in Hin2.
  apply list_elem_of_singleton in Hin1, Hin2. subst region. lia.
Qed.

(** The store that a successful call leaves. *)
Lemma generate_amazon_region_instances_store data region_name
    max_inst_per_type max_inst_per_group availability_zones instance_names
    h ins h' :
  generate_amazon_region_instances data region_name max_inst_per_type
    max_inst_per_group availability_zones instance_names h = Ok (ins, h') ->
  h' = store_after h region_name max_inst_per_group availability_zones.
Proof.
  intros H. apply generate_amazon_region_instances_Ok in H.
  destruct H as (rd & _ & _ & ->). reflexivity.
Qed.

(** C5, as the code has it. The builder takes one group cap,
    [max_inst_per_group]: the region-level constraint that it creates has
    that cap, and each of the [availability_zones] zone-level constraints has
    the same cap; the objects that existed before the call are unchanged. *)
Theorem C5_one_group_cap data region_name max_inst_per_type
    max_inst_per_group availability_zones instance_names h ins h' :
  cloud_providers.generate_amazon_region_instances data region_name
    max_inst_per_type max_inst_per_group availability_zones instance_names h
  = Ok (ins, h') ->
  length h' = (length h + 1 + availability_zones)%nat
  /\ (forall i o, h !! i = Some o -> h' !! i = Some o)
  /\ h' !! length h
     = Some (LimitingSet.mk region_name region_name max_inst_per_group)
  /\ (forall z, (1 <= z <= availability_zones)%nat ->
        h' !! (length h + z)%nat
        = Some (LimitingSet.mk (zone_name region_name z)
                  (zone_name region_name z) max_inst_per_group)).
Proof.
  intros H. apply generate_amazon_region_instances_store in H. subst h'.
  split; [apply store_after_length|].
  split; [intros i o; apply store_after_old|].
  split; [apply store_after_region|].
  intros z Hz. apply store_after_zone. exact Hz.
Qed.

(** C5 as stated fails: no call of the builder gives the region-level
    constraint the cap 20 and a zone-level constraint the cap 10. *)
Lemma C5_caps_are_not_independent :
  ~ exists data region_name max_inst_per_type max_inst_per_group
      availability_zones instance_names h ins h' region_set zone_set,
      cloud_providers.generate_amazon_region_instances data region_name
        max_inst_per_type max_inst_per_group availability_zones
        instance_names h = Ok (ins, h')
      /\ h' !! length h = Some region_set
      /\ h' !! (length h + 1)%nat = Some zone_set
      /\ LimitingSet.max_vms region_set = 20
      /\ LimitingSet.max_vms zone_set = 10.
Proof.
  intros (data & region_name & mt & mg & az & names & h & ins & h'
          & region_set & zone_set & H & Hr & Hz & Hcr & Hcz).
  apply generate_amazon_region_instances_store in H. subst h'.
  rewrite store_after_region in Hr. injection Hr as <-. simpl in Hcr.
  destruct az as [|az].
  - apply lookup_lt_Some in Hz. rewrite store_after_length in Hz. lia.
  - rewrite store_after_zone in Hz by lia. injection Hz as <-.
    simpl in Hcz. lia.
Qed.

(** *** Counting entries and comparing ids *)

Lemma filter_all {A} (P : A -> Prop) `{forall x, Decision (P x)} (l : list A) :
  (forall x, x ∈ l -> P x) -> filter P l = l.
Proof.
  induction l as [|x l IH]; intros Hall; [reflexivity|].
  rewrite filter_cons_True by (apply Hall; left).
  rewrite IH; [reflexivity|]. intros y Hy. apply Hall. right. exact Hy.
Qed.

Lemma filter_none {A} (P : A -> Prop) `{forall x, Decision (P x)}
    (l : list A) :
  (forall x, x ∈ l -> ~ P x) -> filter P l = [].
Proof.
  induction l as [|x l IH]; intros Hall; [reflexivity|].
  rewrite filter_cons_False by (apply Hall; left).
  apply IH. intros y Hy. apply Hall. right. exact Hy.
Qed.

Lemma omap_length_le {A B} (f : A -> option B) (l : list A) :
  (length (omap f l) <= length l)%nat.
Proof.
  induction l as [|x l IH]; csimpl; [lia|].
  destruct (f x); simpl; lia.
Qed.

Lemma bind_length_le {A B} (f : A -> list B) (n : nat) (l : list A) :
  (forall x, (length (f x) <= n)%nat) ->
  (length (l ≫= f) <= length l * n)%nat.
Proof.
  intros Hf. induction l as [|x l IH]; csimpl; [lia|].
  rewrite length_app. specialize (Hf x). lia.
Qed.

Lemma fmap_bind_comm {A B C} (g : B -> C) (f : A -> list B) (l : list A) :
  g <$> (l ≫= f) = l ≫= (fun x => g <$> f x).
Proof.
  induction l as [|x l IH]; csimpl; [reflexivity|].
  rewrite fmap_app, IH. reflexivity.
Qed.

Lemma NoDup_fmap_omap {A B C} (f : A -> option B) (g : B -> C) (l : list A) :
  NoDup l ->
  (forall x1 x2 y1 y2, x1 ∈ l -> x2 ∈ l ->
     f x1 = Some y1 -> f x2 = Some y2 -> g y1 = g y2 -> x1 = x2) ->
  NoDup (g <$> omap f l).
Proof.
  induction 1 as [|x l Hx Hnd IH]; intros Hinj; csimpl; [constructor|].
  assert (Htail : NoDup (g <$> omap f l)).
  { apply IH. intros x1 x2 y1 y2 H1 H2. apply Hinj; right; assumption. }
  destruct (f x) as [y|] eqn:E; [|exact Htail].
  csimpl. apply list.NoDup_cons. split; [|exact Htail].
  intros Hin. apply list_elem_of_fmap in Hin. destruct Hin as (y' & Hg & Hy').
  apply list_elem_of_omap in Hy'. destruct Hy' as (x' & Hx' & Hf').
  assert (x = x') as ->.
  { apply (Hinj x x' y y'); [left | right; exact Hx' | exact E | exact Hf'
                            | exact Hg]. }
  contradiction.
Qed.

Lemma keys_NoDup_inj {V} (rd : list (string * V)) e1 e2 :
  NoDup rd.*1 -> e1 ∈ rd -> e2 ∈ rd -> e1.1 = e2.1 -> e1 = e2.
Proof.
  induction rd as [|e rd IH]; csimpl; intros Hnd H1 H2 Hk.
  - apply elem_of_nil in H1. contradiction.
  - apply list.NoDup_cons in Hnd. destruct Hnd as [Hnot Hnd].
    apply elem_of_cons in H1, H2.
    destruct H1 as [->|H1], H2 as [->|H2]; [reflexivity| | |auto].
    + exfalso. apply Hnot. rewrite Hk. apply list_elem_of_fmap_2. exact H2.
    + exfalso. apply Hnot. rewrite <- Hk. apply list_elem_of_fmap_2. exact H1.
Qed.

Lemma on_demand_ids_NoDup region_name base (rd : list (string * RegionDatum)) :
  NoDup rd.*1 ->
  NoDup (InstanceClass.id <$> omap (on_demand_entry region_name base) rd).
Proof.
  intros Hnd. apply NoDup_fmap_omap; [eapply NoDup_fmap_1; exact Hnd|].
  intros e1 e2 ic1 ic2 H1 H2 He1 He2 Hid.
  apply on_demand_entry_Some in He1, He2.
  destruct He1 as (Hid1 & _), He2 as (Hid2 & _).
  rewrite Hid1, Hid2 in Hid. apply on_demand_id_inj in Hid.
  apply (keys_NoDup_inj rd); assumption.
Qed.

Lemma reserved_ids_NoDup region_name base zones
    (rd : list (string * RegionDatum)) :
  NoDup rd.*1 ->
  NoDup (InstanceClass.id
           <$> (rd ≫= fun idat =>
                  omap (reserved_entry region_name base idat) (seq 1 zones))).
Proof.
  intros Hnd. rewrite fmap_bind_comm. apply NoDup_bind.
  - intros e1 e2 y H1 H2 Hy1 Hy2.
    apply list_elem_of_fmap in Hy1, Hy2.
    destruct Hy1 as (ic1 & -> & Hic1), Hy2 as (ic2 & Hid & Hic2).
    apply list_elem_of_omap in Hic1, Hic2.
    destruct Hic1 as (z1 & _ & He1), Hic2 as (z2 & _ & He2).
    apply reserved_entry_Some in He1, He2.
    destruct He1 as (Hid1 & _), He2 as (Hid2 & _).
    rewrite Hid1, Hid2 in Hid. apply reserved_id_inj in Hid.
    apply (keys_NoDup_inj rd); tauto.
  - intros e He. apply NoDup_fmap_omap; [apply NoDup_seq|].
    intros z1 z2 ic1 ic2 _ _ He1 He2 Hid.
    apply reserved_entry_Some in He1, He2.
    destruct He1 as (Hid1 & _), He2 as (Hid2 & _).
    rewrite Hid1, Hid2 in Hid. apply reserved_id_inj in Hid. tauto.
  - eapply NoDup_fmap_1. exact Hnd.
Qed.

Lemma catalog_ids_NoDup region_name base zones
    (rd : list (string * RegionDatum)) :
  NoDup rd.*1 ->
  (forall e, e ∈ rd -> "_"%char ∉ chars e.1) ->
  NoDup (InstanceClass.id <$> catalog_of region_name base zones rd).
Proof.
  intros Hnd Hus. unfold catalog_of. rewrite fmap_app. apply list.NoDup_app.
  split; [apply on_demand_ids_NoDup; exact Hnd|].
  split; [|apply reserved_ids_NoDup; exact Hnd].
  intros i Hod Hrs. apply list_elem_of_fmap in Hod, Hrs.
  destruct Hod as (ic1 & -> & Hic1), Hrs as (ic2 & Hid & Hic2).
  apply list_elem_of_omap in Hic1. destruct Hic1 as (e1 & He1 & Hod).
  apply list_elem_of_bind in Hic2. destruct Hic2 as (e2 & Hic2 & He2).
  apply list_elem_of_omap in Hic2. destruct Hic2 as (z & _ & Hrs).
  apply on_demand_entry_Some in Hod. apply reserved_entry_Some in Hrs.
  destruct Hod as (Hid1 & _), Hrs as (Hid2 & _).
  rewrite Hid1, Hid2 in Hid. revert Hid.
  apply ids_of_modes_differ; auto.
Qed.

Lemma on_demand_entries_catalog region_name base zones rd :
  on_demand_entries (catalog_of region_name base zones rd)
  = omap (on_demand_entry region_name base) rd.
Proof.
  unfold on_demand_entries, catalog_of. rewrite list.filter_app.
  rewrite filter_all, filter_none; [apply app_nil_r| |].
  - intros ic Hic. apply list_elem_of_bind in Hic.
    destruct Hic as (e & Hic & _). apply list_elem_of_omap in Hic.
    destruct Hic as (z & _ & He). apply reserved_entry_Some in He.
    destruct He as (_ & _ & _ & -> & _). discriminate.
  - intros ic Hic. apply list_elem_of_omap in Hic.
    destruct Hic as (e & _ & He). apply on_demand_entry_Some in He. tauto.
Qed.

Lemma reserved_entries_catalog region_name base zones rd :
  reserved_entries (catalog_of region_name base zones rd)
  = rd ≫= (fun idat =>
             omap (reserved_entry region_name base idat) (seq 1 zones)).
Proof.
  unfold reserved_entries, catalog_of. rewrite list.filter_app.
  rewrite filter_none, filter_all; [reflexivity| |].
  - intros ic Hic. apply list_elem_of_bind in Hic.
    destruct Hic as (e & Hic & _). apply list_elem_of_omap in Hic.
    destruct Hic as (z & _ & He). apply reserved_entry_Some in He. tauto.
  - intros ic Hic. apply list_elem_of_omap in Hic.
    destruct Hic as (e & _ & He). apply on_demand_entry_Some in He.
    destruct He as (_ & _ & _ & -> & _). discriminate.
Qed.

(** The contents of [region_data] after the loop over the sorted names. *)
Lemma region_data_of_names data region_name max_inst_per_type names rd :
  fold_loop (region_data_step data region_name max_inst_per_type)
    (merge_sort String.le names) [] = Ok rd ->
  NoDup rd.*1
  /\ (length rd <= length names)%nat
  /\ (forall e, e ∈ rd ->
        e.1 ∈ names
        /\ exists r, get_simplified_amazon_prices data e.1 "Linux" = Ok r
             /\ e.2 = datum_of region_name max_inst_per_type r)
  /\ (forall n r, n ∈ names ->
        get_simplified_amazon_prices data n "Linux" = Ok r ->
        (n, datum_of region_name max_inst_per_type r) ∈ rd).
Proof.
  intros H. apply region_data_loop in H; [|constructor].
  destruct H as (Hnd & Hlen & Hnames & _ & Hin).
  rewrite (Permutation_length (merge_sort_Permutation _ names)) in Hlen.
  assert (Hin' : forall e, e ∈ rd ->
            e.1 ∈ names
            /\ exists r, get_simplified_amazon_prices data e.1 "Linux" = Ok r
                 /\ e.2 = datum_of region_name max_inst_per_type r).
  { intros e He. destruct (Hin e He) as [He0|[Hn Hr]].
    - apply elem_of_nil in He0. contradiction.
    - rewrite merge_sort_Permutation in Hn. auto. }
  split; [exact Hnd|]. split; [simpl in Hlen; lia|]. split; [exact Hin'|].
  intros n r Hn Hr.
  assert (Hk : n ∈ rd.*1) by (apply Hnames; rewrite merge_sort_Permutation;
                               exact Hn).
  apply list_elem_of_fmap in Hk. destruct Hk as ([n' d] & -> & He).
  destruct (Hin' _ He) as (_ & r' & Hr' & Hd). simpl in *.
  rewrite Hr in Hr'. injection Hr' as <-. subst d. exact He.
Qed.

(** C4, as the code has it. For N requested instance types, one region and
    Z availability zones, if the simplified price lookup raises no exception
    for any requested type, the builder returns a catalog with at most N
    on-demand and at most N * Z reserved entries; no two on-demand entries
    share an id and no two reserved entries share an id; if no requested
    type name contains an underscore, no two entries share an id; and a type
    with no on-demand (or no reserved) price in the region gets no entry of
    that purchase mode, while a type with such a price gets its entries. *)
Theorem C4_catalog_entries data region_name max_inst_per_type
    max_inst_per_group availability_zones instance_names h :
  (forall n, n ∈ instance_names ->
     exists r,
       cloud_providers.get_simplified_amazon_prices data n "Linux" = Ok r) ->
  exists ins h',
    cloud_providers.generate_amazon_region_instances data region_name
      max_inst_per_type max_inst_per_group availability_zones
      instance_names h = Ok (ins, h')
    /\ (length (on_demand_entries ins) <= length instance_names)%nat
    /\ (length (reserved_entries ins)
        <= length instance_names * availability_zones)%nat
    /\ NoDup (InstanceClass.id <$> on_demand_entries ins)
    /\ NoDup (InstanceClass.id <$> reserved_entries ins)
    /\ ((forall n, n ∈ instance_names -> Py.str_contains "_" n = false) ->
        NoDup (InstanceClass.id <$> ins))
    /\ (forall n r, n ∈ instance_names ->
          cloud_providers.get_simplified_amazon_prices data n "Linux" = Ok r ->
          (Py.dict_get region_name (cloud_providers.on_demand r) = None ->
           forall ic, ic ∈ on_demand_entries ins ->
                      InstanceClass.name ic <> n)
          /\ (Py.dict_get region_name (cloud_providers.reserved r) = None ->
              forall ic, ic ∈ reserved_entries ins ->
                         InstanceClass.name ic <> n)
          /\ (forall p,
                Py.dict_get region_name (cloud_providers.on_demand r) = Some p ->
                exists ic, ic ∈ on_demand_entries ins
                  /\ InstanceClass.name ic = n /\ InstanceClass.price ic = p)
          /\ (forall p z,
                Py.dict_get region_name (cloud_providers.reserved r) = Some p ->
                (1 <= z <= availability_zones)%nat ->
                exists ic, ic ∈ reserved_entries ins
                  /\ InstanceClass.name ic = n /\ InstanceClass.price ic = p
                  /\ InstanceClass.id ic = reserved_id n region_name z)).
Proof.
  intros Hall.
  destruct (region_data_loop_total data region_name max_inst_per_type
              (merge_sort String.le instance_names) []) as [rd Hrd].
  { intros n Hn. apply Hall. rewrite merge_sort_Permutation in Hn. exact Hn. }
  rewrite generate_amazon_region_instances_eq, Hrd. simpl.
  eexists _, _. split; [reflexivity|].
  apply region_data_of_names in Hrd.
  destruct Hrd as (Hnd & Hlen & Hin & Hnames).
  rewrite on_demand_entries_catalog, reserved_entries_catalog.
  split. { pose proof (omap_length_le
             (on_demand_entry region_name (length h)) rd). lia. }
  split.
  { pose proof (bind_length_le
      (fun idat => omap (reserved_entry region_name (length h) idat)
                     (seq 1 availability_zones)) availability_zones rd) as Hb.
    assert (length rd * availability_zones
            <= length instance_names * availability_zones)%nat
      by (apply Nat.mul_le_mono_r; exact Hlen).
    etrans; [apply Hb|exact H].
    intros idat. etrans; [apply omap_length_le|].
    rewrite length_seq. reflexivity. }
  split; [apply on_demand_ids_NoDup; exact Hnd|].
  split; [apply reserved_ids_NoDup; exact Hnd|].
  split.
  { intros Hus. apply catalog_ids_NoDup; [exact Hnd|].
    intros e He. apply str_contains_char_false, Hus, Hin, He. }
  intros n r Hn Hr. pose proof (Hnames n r Hn Hr) as He.
  split; [|split; [|split]].
  - intros Hnone ic Hic Hname. apply list_elem_of_omap in Hic.
    destruct Hic as (e & He' & Hent). apply on_demand_entry_Some in Hent.
    destruct Hent as (_ & Hnm & _ & _ & Hp & _).
    destruct (Hin e He') as (_ & r' & Hr' & Hd).
    rewrite <- Hnm, Hname, Hr in Hr'. injection Hr' as <-.
    rewrite Hd in Hp. simpl in Hp. congruence.
  - intros Hnone ic Hic Hname. apply list_elem_of_bind in Hic.
    destruct Hic as (e & Hic & He'). apply list_elem_of_omap in Hic.
    destruct Hic as (z & _ & Hent). apply reserved_entry_Some in Hent.
    destruct Hent as (_ & Hnm & _ & _ & Hp & _).
    destruct (Hin e He') as (_ & r' & Hr' & Hd).
    rewrite <- Hnm, Hname, Hr in Hr'. injection Hr' as <-.
    rewrite Hd in Hp. simpl in Hp. congruence.
  - intros p Hp. eexists. split.
    + apply list_elem_of_omap. eexists. split; [exact He|].
      unfold on_demand_entry. simpl. rewrite Hp. reflexivity.
    + simpl. auto.
  - intros p z Hp Hz. eexists. split.
    + apply list_elem_of_bind. eexists. split; [|exact He].
      apply list_elem_of_omap. exists z. split; [apply elem_of_seq; lia|].
      unfold reserved_entry. simpl. rewrite Hp. reflexivity.
    + simpl. auto.
Qed.

End catalog.

(* ===================================================================== *)
(** ** Quanta *)
(* ===================================================================== *)

Section quanta.
Import hybrid.

Lemma fold_gcd_is_gcd (l : list Z) (x : Z) :
  is_gcd_of (x :: l) (fold_left Z.gcd l x).
Proof.
  revert x. induction l as [|y l IH]; intros x; simpl.
  - split.
    + intros p Hp%list_elem_of_singleton. subst p. reflexivity.
    + intros d Hd. apply Hd. left.
  - destruct (IH (Z.gcd x y)) as [Hdiv Hgreatest]. split.
    + intros p Hp.
      assert (Hg : (fold_left Z.gcd l (Z.gcd x y) | Z.gcd x y))
        by (apply Hdiv; left).
      apply elem_of_cons in Hp. destruct Hp as [->|Hp].
      { apply (Z.divide_trans _ (Z.gcd x y)); [exact Hg | apply Z.gcd_divide_l]. }
      apply elem_of_cons in Hp. destruct Hp as [->|Hp].
      { apply (Z.divide_trans _ (Z.gcd x y)); [exact Hg | apply Z.gcd_divide_r]. }
      apply Hdiv. right. exact Hp.
    + intros d Hd. apply Hgreatest. intros p Hp.
      apply elem_of_cons in Hp. destruct Hp as [->|Hp].
      * apply Z.gcd_greatest; apply Hd; [left | right; left].
      * apply Hd. right. right. exact Hp.
Qed.

Lemma fold_gcd_nonneg (l : list Z) (x : Z) :
  l <> [] \/ 0 <= x -> 0 <= fold_left Z.gcd l x.
Proof.
  revert x. induction l as [|y l IH]; intros x H; simpl.
  - destruct H as [H|H]; [contradiction | exact H].
  - apply IH. right. apply Z.gcd_nonneg.
Qed.

Lemma reduce_gcd_Ok (l : list Z) :
  l <> [] ->
  exists g, Py.reduce Z.gcd l = Ok g /\ is_gcd_of l g
    /\ ((2 <= length l)%nat \/ Forall (fun p => 0 <= p) l -> 0 <= g).
Proof.
  destruct l as [|x l]; [contradiction|]. intros _. simpl.
  eexists. split; [reflexivity|]. split; [apply fold_gcd_is_gcd|].
  intros H. apply fold_gcd_nonneg. destruct H as [H|H].
  - left. destruct l; [simpl in H; lia | discriminate].
  - right. apply list.Forall_cons in H. tauto.
Qed.

Lemma reduce_gcd_Raise (l : list Z) (e : exn) :
  Py.reduce Z.gcd l = Raise e -> l = [] /\ e = TypeError.
Proof. destruct l; simpl; [intros [= <-]; auto | discriminate]. Qed.

(** C6, as the code has it. For every application with a non-empty
    performance list, the quantum is g times the quantisation factor, where
    g is a greatest common divisor of all performance values of the
    application (not negative when the list has two or more values or no
    negative value); g, which is the quantum for factor 1, divides every
    performance value exactly. *)
Theorem C6_quantum_is_scaled_gcd (perf_list : list (list Z))
    (quant_factor : Z) :
  Forall (fun l => l <> []) perf_list ->
  exists quanta,
    hybrid.get_quanta perf_list quant_factor = Ok quanta
    /\ length quanta = length perf_list
    /\ forall i l, perf_list !! i = Some l ->
         exists g, quanta !! i = Some (g * quant_factor)
           /\ is_gcd_of l g
           /\ ((2 <= length l)%nat \/ Forall (fun p => 0 <= p) l -> 0 <= g)
           /\ (quant_factor = 1 -> forall p, p ∈ l -> (g * quant_factor | p)).
Proof.
  intros Hne. unfold get_quanta.
  set (gcd_of := fun l : list Z => match l with
                                   | [] => 0
                                   | x :: l' => fold_left Z.gcd l' x
                                   end).
  rewrite (for_each_Ok_fmap _ gcd_of).
  - simpl. eexists. split; [reflexivity|].
    split; [rewrite !length_fmap; reflexivity|].
    intros i l Hl. exists (gcd_of l).
    rewrite !list_lookup_fmap, Hl. simpl. split; [reflexivity|].
    rewrite list.Forall_forall in Hne.
    destruct (reduce_gcd_Ok l) as (g & Hg & Hgcd & Hnn).
    { apply Hne. eapply list_elem_of_lookup_2. exact Hl. }
    assert (g = gcd_of l) as <-.
    { destruct l; simpl in *; [discriminate | congruence]. }
    split; [exact Hgcd|]. split; [exact Hnn|].
    intros -> p Hp. rewrite Z.mul_1_r. apply Hgcd. exact Hp.
  - intros l Hl. rewrite list.Forall_forall in Hne. specialize (Hne l Hl).
    destruct l; [contradiction | reflexivity].
Qed.

End quanta.

(* ===================================================================== *)
(** ** Discretisation *)
(* ===================================================================== *)

Section discretisation.
Import hybrid.

Lemma round_up_spec (q x : Z) :
  0 < q ->
  (q | round_up q x)
  /\ x <= round_up q x < x + q
  /\ (forall m, (q | m) -> x <= m -> round_up q x <= m).
Proof.
  intros Hq. unfold round_up.
  pose proof (Z.div_mod (x + q - 1) q ltac:(lia)) as Hdm.
  pose proof (Z.mod_pos_bound (x + q - 1) q Hq) as Hmod.
  set (c := (x + q - 1) / q) in *.
  split; [exists c; reflexivity|]. split; [nia|].
  intros m [t ->] Hm. assert (c <= t) by nia. nia.
Qed.

Lemma fold_max_ge (l : list Z) (x : Z) :
  x <= fold_left Z.max l x /\ forall y, y ∈ l -> y <= fold_left Z.max l x.
Proof.
  revert x. induction l as [|z l IH]; intros x; simpl.
  - split; [lia|]. intros y Hy. apply elem_of_nil in Hy. contradiction.
  - destruct (IH (Z.max x z)) as [Hx Hl]. split; [lia|].
    intros y Hy. apply elem_of_cons in Hy. destruct Hy as [->|Hy]; [lia|auto].
Qed.

Lemma max_Ok (w : list Z) :
  w <> [] -> exists m, Py.max w = Ok m /\ forall x, x ∈ w -> x <= m.
Proof.
  destruct w as [|x w]; [contradiction|]. intros _. simpl.
  eexists. split; [reflexivity|]. destruct (fold_max_ge w x) as [Hx Hw].
  intros y Hy. apply elem_of_cons in Hy. destruct Hy as [->|Hy]; auto.
Qed.

(** The level grid [0, q, 2q, ...] with [n] points. *)
Lemma range_grid (stop q : Z) :
  0 < q -> 0 < stop ->
  Py.range 0 stop q
  = Ok ((fun i => 0 + Z.of_nat i * q)
          <$> seq 0 (Z.to_nat ((stop - 1) / q + 1))).
Proof.
  intros Hq Hs. unfold Py.range, Py.range_len.
  replace (q =? 0) with false by (symmetry; apply Z.eqb_neq; lia).
  replace (0 <? q) with true by (symmetry; apply Z.ltb_lt; lia).
  replace (0 <? stop) with true by (symmetry; apply Z.ltb_lt; lia).
  rewrite Z.sub_0_r. reflexivity.
Qed.

Lemma grid_nondecreasing (q : Z) (s n : nat) :
  0 < q ->
  nondecreasing ((fun i => 0 + Z.of_nat i * q) <$> seq s n) = true.
Proof.
  intros Hq. revert s. induction n as [|n IH]; intros s; [reflexivity|].
  specialize (IH (S s)). csimpl. destruct n as [|n]; [reflexivity|].
  csimpl in *. rewrite IH, andb_true_r. apply Z.leb_le. nia.
Qed.

(** On the grid, the number of levels below [x] is the index of the
    rounded value. *)
Lemma searchsorted_grid (q x : Z) (n : nat) :
  0 < q -> 0 <= x ->
  (Z.to_nat ((x + q - 1) / q) <= n)%nat ->
  searchsorted_left ((fun i => 0 + Z.of_nat i * q) <$> seq 0 n) x
  = Z.to_nat ((x + q - 1) / q).
Proof.
  intros Hq Hx Hk. unfold searchsorted_left.
  pose proof (round_up_spec q x Hq) as (_ & Hr & _). unfold round_up in Hr.
  assert (Hc : 0 <= (x + q - 1) / q) by (apply Z.div_pos; lia).
  set (c := (x + q - 1) / q) in *. set (k := Z.to_nat c) in *.
  replace n with (k + (n - k))%nat by lia.
  rewrite seq_app, fmap_app, list.filter_app, filter_all, filter_none.
  - rewrite app_nil_r, length_fmap, length_seq. reflexivity.
  - intros b Hb. apply list_elem_of_fmap in Hb. destruct Hb as (i & -> & Hi).
    apply elem_of_seq in Hi. nia.
  - intros b Hb. apply list_elem_of_fmap in Hb. destruct Hb as (i & -> & Hi).
    apply elem_of_seq in Hi. nia.
Qed.

(** The body of the loop of [discretize_levels] rounds every value of a
    series up to the grid. *)
Lemma discretize_series (w : list Z) (q : Z) :
  0 < q -> w <> [] -> Forall (fun x => 0 <= x) w ->
  (m <- Py.max w ;;
   levels <- Py.range 0 (m + q) q ;;
   idx <- digitize_right w levels ;;
   take_at levels idx)
  = Ok (round_up q <$> w).
Proof.
  intros Hq Hne Hnn. rewrite list.Forall_forall in Hnn.
  destruct (max_Ok w Hne) as (m & -> & Hmax). simpl.
  assert (Hm : 0 <= m).
  { destruct w as [|x w]; [contradiction|].
    specialize (Hnn x ltac:(left)). specialize (Hmax x ltac:(left)). lia. }
  rewrite range_grid by lia. simpl.
  set (n := Z.to_nat ((m + q - 1) / q + 1)).
  unfold digitize_right. rewrite grid_nondecreasing by exact Hq. simpl.
  unfold take_at.
  rewrite (for_each_Ok_fmap _ (fun i => 0 + Z.of_nat i * q)).
  - f_equal. rewrite <- list_fmap_compose. apply list_fmap_ext.
    intros _ x Hx%list_elem_of_lookup_2. simpl.
    pose proof (Hnn x Hx) as H0. pose proof (Hmax x Hx) as H1.
    assert (Hc : 0 <= (x + q - 1) / q) by (apply Z.div_pos; lia).
    assert (Hle : (x + q - 1) / q <= (m + q - 1) / q)
      by (apply Z.div_le_mono; lia).
    rewrite searchsorted_grid by (try subst n; lia).
    unfold round_up. lia.
  - intros i Hi. apply list_elem_of_fmap in Hi. destruct Hi as (x & -> & Hx).
    pose proof (Hnn x Hx) as H0. pose proof (Hmax x Hx) as H1.
    assert (Hc : 0 <= (x + q - 1) / q) by (apply Z.div_pos; lia).
    assert (Hle : (x + q - 1) / q <= (m + q - 1) / q)
      by (apply Z.div_le_mono; lia).
    rewrite searchsorted_grid by (try subst n; lia).
    rewrite list_lookup_fmap, lookup_seq_lt by (subst n; lia).
    reflexivity.
Qed.

Lemma same_lengths_true (rows : list (list Z)) :
  (forall r1 r2, r1 ∈ rows -> r2 ∈ rows -> length r1 = length r2) ->
  same_lengths rows = true.
Proof.
  destruct rows as [|r rows]; [reflexivity|]. intros H. simpl.
  apply forallb_forall. intros r' Hr'. apply Nat.eqb_eq.
  apply H; [right; apply list_elem_of_In; exact Hr' | left].
Qed.


(** C9. If the number of quanta differs from the number of demand series,
    discretisation raises (the assertion fails) and returns nothing; if the
    performance list of some application is empty, the computation of the
    quanta raises (the reduction of an empty sequence) and returns nothing:
    no partial output is produced in either case. *)
Theorem C9_shape_mismatch_aborts :
  (forall (workloads : list (list Z)) (quanta : list Z),
     length workloads <> length quanta ->
     hybrid.discretize_levels workloads quanta = Raise AssertionError)
  /\ (forall (perf_list : list (list Z)) (quant_factor : Z),
        [] ∈ perf_list ->
        hybrid.get_quanta perf_list quant_factor = Raise TypeError).
Proof.
  split.
  - intros workloads quanta Hne. unfold discretize_levels.
    rewrite bool_decide_eq_false_2 by exact Hne. reflexivity.
  - intros perf_list quant_factor Hin. unfold get_quanta.
    rewrite (for_each_Raise _ TypeError); [reflexivity| |].
    + intros l e _ Hl. destruct l; simpl in Hl; [congruence|discriminate].
    + exists [], TypeError. split; [exact Hin | reflexivity].
Qed.

Lemma lookup_list_mul {A} (l : list A) (n : Z) (i : nat) (x : A) :
  1 <= n -> l !! i = Some x -> Py.list_mul l n !! i = Some x.
Proof.
  intros Hn Hx. unfold Py.list_mul.
  destruct (Z.to_nat n) as [|k] eqn:E; [lia|]. simpl.
  apply lookup_app_l_Some. exact Hx.
Qed.

(** C8. With quantisation factor zero the quantisation step is the
    identity on the demand series: the step returns the raw series without
    calling the discretisation routine (whatever the quanta are, even
    quanta for which that routine would raise), and the series attached to
    each application is exactly its raw series. *)
Theorem C8_zero_factor_is_identity (n_apps first_app : Z)
    (wls : list (list Z)) (quanta : list Z) :
  let raw := hybrid.raw_workloads n_apps first_app wls in
  hybrid.quantize_step n_apps 0 raw quanta
  = Ok (Py.list_mul raw (hybrid.factor_repeat_of n_apps))
  /\ exists ltwp,
       hybrid.workloads_of n_apps first_app 0 wls quanta = Ok ltwp
       /\ forall i app series,
            hybrid.apps_of n_apps !! i = Some app ->
            raw !! i = Some series ->
            ltwp !! i = Some (app, series).
Proof.
  intros raw. split; [reflexivity|].
  unfold workloads_of. fold raw. simpl. eexists. split; [reflexivity|].
  intros i app series Happ Hraw. apply lookup_zip_Some. split; [exact Happ|].
  apply lookup_list_mul; [|exact Hraw].
  apply lookup_lt_Some in Happ. unfold apps_of in Happ.
  rewrite length_fmap, length_seq in Happ.
  unfold factor_repeat_of, N_AVAILABLE_WLS.
  apply Z.div_le_lower_bound; lia.
Qed.

End discretisation.

(* ===================================================================== *)
(** ** Performances *)
(* ===================================================================== *)

Section performances.
Import hybrid.

Lemma ecus_of_default data priv_ecus ic :
  ecu_lookup_fails data (InstanceClass.name ic) ->
  ecus_of data priv_ecus ic = priv_ecus.
Proof.
  unfold ecus_of, first_ECU. intros [Habsent|(r & rest & e & Hrows & Hint)].
  - rewrite filter_none; [reflexivity|]. exact Habsent.
  - rewrite Hrows. simpl. rewrite Hint. reflexivity.
Qed.

Lemma perfs_of_lookup apps perfs_per_ecu ecus perf_factor j app perf :
  NoDup apps ->
  apps !! j = Some app -> perfs_per_ecu !! j = Some perf ->
  Py.dict_get app (perfs_of apps perfs_per_ecu ecus perf_factor)
  = Some (perf * ecus * perf_factor).
Proof.
  intros Hnd Happ Hperf. unfold perfs_of, Py.dict_of.
  apply (dict_get_fold_set (fun kv : App.t * Z => kv.1) (fun kv => kv.2)).
  - intros [a v] Hin Ha. simpl in *. subst a.
    apply list_elem_of_fmap in Hin. destruct Hin as ([a p] & [= -> ->] & Hin).
    apply list_elem_of_lookup_1 in Hin. destruct Hin as [j' Hj'].
    apply lookup_zip_Some in Hj'. destruct Hj' as [Ha' Hp']. simpl in *.
    assert (j' = j) as -> by (eapply NoDup_lookup; eauto).
    congruence.
  - right. exists (app, perf * ecus * perf_factor). split; [|reflexivity].
    apply list_elem_of_fmap. exists (app, perf). split; [reflexivity|].
    eapply list_elem_of_lookup_2. apply lookup_zip_Some. eauto.
Qed.

(** C10. When the ECU lookup for the type of an instance class fails (the
    type is absent from the price table, or the ECU value of its first row
    is not a number), [get_perfs] does not fail: it uses the private-cloud
    ECU default given by the caller, so the performance of that instance
    class for each application is the per-ECU baseline of the application
    times the default ECU count times the performance factor. *)
Theorem C10_ecu_default (data : list Row) (h : store)
    (ics : list InstanceClass.t) (apps : list App.t) (perf_factor : Z)
    (perfs_per_ecu : list Z) (priv_ecus : Z) (ic : InstanceClass.t) :
  ic ∈ ics ->
  ecu_lookup_fails data (InstanceClass.name ic) ->
  let performances :=
    hybrid.get_perfs data h ics apps perf_factor perfs_per_ecu priv_ecus in
  Py.dict_get (hybrid.ic_key h ic) (hybrid.ps_values performances)
  = Some (perfs_of apps perfs_per_ecu priv_ecus perf_factor)
  /\ (NoDup apps ->
      forall j app perf,
        apps !! j = Some app -> perfs_per_ecu !! j = Some perf ->
        Py.dict_get app (perfs_of apps perfs_per_ecu priv_ecus perf_factor)
        = Some (perf * priv_ecus * perf_factor)).
Proof.
  intros Hic Hfail performances. split.
  - subst performances. unfold get_perfs. simpl.
    apply (dict_get_fold_set (ic_key h)
             (fun ic' => perfs_of apps perfs_per_ecu
                           (ecus_of data priv_ecus ic') perf_factor)).
    + intros ic' _ Hkey. rewrite ecus_of_default; [reflexivity|].
      apply (f_equal key_name) in Hkey. simpl in Hkey. rewrite Hkey.
      exact Hfail.
    + right. exists ic. auto.
  - intros Hnd j app perf. apply perfs_of_lookup. exact Hnd.
Qed.

End performances.

(* ===================================================================== *)
(** ** Worked examples *)
(* ===================================================================== *)



Lemma C2_excluded_rows_example :
  excluded sql_row
  /\ cloud_providers.get_amazon_ec2_prices
       (take 2 example_table ++ sql_row :: drop 2 example_table) "c5" "Linux"
     = cloud_providers.get_amazon_ec2_prices
         (take 2 example_table ++ drop 2 example_table) "c5" "Linux".
Proof.
  split; [left; reflexivity|].
  apply C2_excluded_rows_do_not_contribute. left. reflexivity.
Defined.

Lemma C3_constraint_sharing_example :
  exists ins h',
    cloud_providers.generate_amazon_region_instances example_table "eu"
      20 30 2 ["c5"] [] = Ok (ins, h')
    /\ length ins = 3%nat
    /\ forall ic1 ic2 r, ic1 ∈ ins -> ic2 ∈ ins ->
         InstanceClass.is_reserved ic1 = false ->
         InstanceClass.is_reserved ic2 = true ->
         r ∈ InstanceClass.limiting_sets ic1 ->
         r ∉ InstanceClass.limiting_sets ic2.
Proof.
  eexists _, _. split; [vm_compute; reflexivity|].
  split; [reflexivity|].
  pose proof (C3_constraint_sharing example_table "eu" 20 30 2 ["c5"] [] _ _
                ltac:(vm_compute; reflexivity)) as H.
  cbv zeta in H. destruct H as (_ & _ & _ & _ & H). exact H.
Defined.

Lemma C4_catalog_entries_example :
  (forall n, n ∈ ["c5"] ->
     exists r,
       cloud_providers.get_simplified_amazon_prices example_table n "Linux"
       = Ok r)
  /\ exists ins h',
       cloud_providers.generate_amazon_region_instances example_table "us"
         20 30 2 ["c5"] [] = Ok (ins, h')
       /\ (length (on_demand_entries ins) <= 1)%nat
       /\ (length (reserved_entries ins) <= 1 * 2)%nat
       /\ NoDup (InstanceClass.id <$> ins).
Proof.
  assert (H : forall n, n ∈ ["c5"] ->
            exists r,
              cloud_providers.get_simplified_amazon_prices example_table n
                "Linux" = Ok r).
  { intros n Hn. apply list_elem_of_singleton in Hn. subst n.
    eexists. vm_compute. reflexivity. }
  split; [exact H|].
  destruct (C4_catalog_entries example_table "us" 20 30 2 ["c5"] [] H)
    as (ins & h' & Hgen & Hod & Hrs & _ & _ & Hids & _).
  exists ins, h'. split; [exact Hgen|]. split; [exact Hod|].
  split; [exact Hrs|]. apply Hids.
  intros n Hn. apply list_elem_of_singleton in Hn. subst n. reflexivity.
Defined.

(** C4 as stated fails twice. In a region called "AZ1" the on-demand entry
    of type "a_AZ1_AZ1" and the reserved entry of type "a" in zone 1 have the
    same id; and a type that is offered on demand only makes the builder
    raise [KeyError] instead of being skipped for the reserved mode. *)
Lemma C4_ids_collide_and_lookup_raises :
  (exists ins h' ic1 ic2,
     cloud_providers.generate_amazon_region_instances collision_table "AZ1"
       20 20 1 ["a"; "a_AZ1_AZ1"] [] = Ok (ins, h')
     /\ ins !! 1%nat = Some ic1 /\ ins !! 2%nat = Some ic2
     /\ InstanceClass.id ic1 = InstanceClass.id ic2)
  /\ cloud_providers.generate_amazon_region_instances on_demand_only_table
       "eu" 20 20 1 ["t1"] [] = Raise KeyError.
Proof.
  split; [|vm_compute; reflexivity].
  eexists _, _, _, _. split; [vm_compute; reflexivity|].
  split; [reflexivity|]. split; reflexivity.
Qed.

Lemma C5_one_group_cap_example :
  exists ins h',
    cloud_providers.generate_amazon_region_instances example_table "eu"
      20 30 2 ["c5"] [] = Ok (ins, h')
    /\ LimitingSet.max_vms <$> h' !! 0%nat = Some 30
    /\ LimitingSet.max_vms <$> h' !! 1%nat = Some 30
    /\ LimitingSet.max_vms <$> h' !! 2%nat = Some 30.
Proof.
  eexists _, _. split; [vm_compute; reflexivity|].
  destruct (C5_one_group_cap example_table "eu" 20 30 2 ["c5"] [] _ _
              ltac:(vm_compute; reflexivity)) as (_ & _ & Hregion & Hzone).
  split; [exact (f_equal (option_map LimitingSet.max_vms) Hregion)|].
  split.
  - exact (f_equal (option_map LimitingSet.max_vms)
             (Hzone 1%nat ltac:(lia))).
  - exact (f_equal (option_map LimitingSet.max_vms)
             (Hzone 2%nat ltac:(lia))).
Defined.

Lemma C6_quantum_example :
  Forall (fun l : list Z => l <> []) [[1000; 500; 2000]]
  /\ exists quanta,
       hybrid.get_quanta [[1000; 500; 2000]] 1 = Ok quanta
       /\ length quanta = 1%nat.
Proof.
  assert (H : Forall (fun l : list Z => l <> []) [[1000; 500; 2000]])
    by (repeat constructor; discriminate).
  split; [exact H|].
  destruct (C6_quantum_is_scaled_gcd [[1000; 500; 2000]] 1 H)
    as (quanta & Hq & Hlen & _).
  exists quanta. split; [exact Hq | exact Hlen].
Defined.

(** C6 as stated fails: with factor 2 the quantum of the performances
    1000, 500, 2000 is 1000, which does not divide 500. *)
Lemma C6_quantum_need_not_divide :
  hybrid.get_quanta [[1000; 500; 2000]] 2 = Ok [1000]
  /\ 500 ∈ [1000; 500; 2000]
  /\ ~ (1000 | 500).
Proof.
  split; [reflexivity|]. split; [right; left|].
  intros [t Ht]. lia.
Qed.


Lemma C9_shape_mismatch_example :
  length [[1; 2]; [3; 4]] <> length [5]
  /\ [] ∈ [[1000; 500]; []]
  /\ hybrid.discretize_levels [[1; 2]; [3; 4]] [5] = Raise AssertionError
  /\ hybrid.get_quanta [[1000; 500]; []] 3 = Raise TypeError.
Proof.
  assert (H1 : length [[1; 2]; [3; 4]] <> length [5]) by (simpl; lia).
  assert (H2 : [] ∈ [[1000; 500]; []]) by (right; left).
  split; [exact H1|]. split; [exact H2|]. split.
  - apply (proj1 C9_shape_mismatch_aborts). exact H1.
  - apply (proj2 C9_shape_mismatch_aborts). exact H2.
Defined.

Lemma C10_ecu_default_example :
  priv ∈ [priv]
  /\ ecu_lookup_fails example_table (InstanceClass.name priv)
  /\ Py.dict_get (hybrid.ic_key [] priv)
       (hybrid.ps_values
          (hybrid.get_perfs example_table [] [priv] (hybrid.apps_of 2) 3
             [1000; 500] 7))
     = Some (perfs_of (hybrid.apps_of 2) [1000; 500] 7 3).
Proof.
  assert (H1 : priv ∈ [priv]) by left.
  assert (H2 : ecu_lookup_fails example_table (InstanceClass.name priv)).
  { left. intros r Hr. unfold example_table in Hr.
    repeat (apply elem_of_cons in Hr; destruct Hr as [->|Hr];
            [discriminate|]).
    apply elem_of_nil in Hr. contradiction. }
  split; [exact H1|]. split; [exact H2|].
  apply (C10_ecu_default example_table [] [priv] (hybrid.apps_of 2) 3
           [1000; 500] 7 priv H1 H2).
Defined.

(* ===================================================================== *)
(** ** Further properties of the price normaliser *)
(* ===================================================================== *)

Section normaliser_more.
Import cloud_providers.

Lemma keep_row_needed instance os r :
  keep_row instance os r = true -> hybrid.needed_row r = true.
Proof.
  unfold keep_row, hybrid.needed_row.
  rewrite !andb_true_iff. tauto.
Qed.

Lemma fold_loop_ext {A S} (f g : S -> A -> result S) (l : list A) (s : S) :
  (forall s x, f s x = g s x) -> fold_loop f l s = fold_loop g l s.
Proof.
  intros Hext. revert s. induction l as [|x l IH]; intros s; [reflexivity|].
  simpl. rewrite Hext. destruct (g s x); simpl; [apply IH | reflexivity].
Qed.

Lemma prefilter_prices data instance os :
  get_amazon_ec2_prices (hybrid.remove_unneded_instances_ec2 data) instance os
  = get_amazon_ec2_prices data instance os.
Proof.
  unfold get_amazon_ec2_prices, hybrid.remove_unneded_instances_ec2.
  rewrite list_filter_filter_l; [reflexivity|].
  intros r. apply keep_row_needed.
Qed.

(** X1. The table that [remove_unneded_instances_ec2] returns gives the same
    prices, the same simplified prices and the same catalog as the whole
    table, and filtering it again changes nothing. *)
Theorem prefilter_is_transparent (data : list Row) :
  hybrid.remove_unneded_instances_ec2
    (hybrid.remove_unneded_instances_ec2 data)
  = hybrid.remove_unneded_instances_ec2 data
  /\ (forall instance os,
        get_amazon_ec2_prices (hybrid.remove_unneded_instances_ec2 data)
          instance os
        = get_amazon_ec2_prices data instance os)
  /\ (forall instance os,
        get_simplified_amazon_prices
          (hybrid.remove_unneded_instances_ec2 data) instance os
        = get_simplified_amazon_prices data instance os)
  /\ (forall region_name max_inst_per_type max_inst_per_group
             availability_zones instance_names h,
        generate_amazon_region_instances
          (hybrid.remove_unneded_instances_ec2 data) region_name
          max_inst_per_type max_inst_per_group availability_zones
          instance_names h
        = generate_amazon_region_instances data region_name
            max_inst_per_type max_inst_per_group availability_zones
            instance_names h).
Proof.
  split.
  { unfold hybrid.remove_unneded_instances_ec2.
    apply list_filter_filter_l. auto. }
  split; [apply prefilter_prices|].
  assert (Hs : forall instance os,
            get_simplified_amazon_prices
              (hybrid.remove_unneded_instances_ec2 data) instance os
            = get_simplified_amazon_prices data instance os).
  { intros. unfold get_simplified_amazon_prices.
    rewrite prefilter_prices. reflexivity. }
  split; [exact Hs|]. intros.
  rewrite !generate_amazon_region_instances_eq.
  rewrite (fold_loop_ext
             (region_data_step (hybrid.remove_unneded_instances_ec2 data)
                region_name max_inst_per_type)
             (region_data_step data region_name max_inst_per_type));
    [reflexivity|].
  intros rd n. unfold region_data_step. rewrite Hs. reflexivity.
Qed.

Lemma column_loc_Raise g u e : column_loc g u = Raise e -> e = KeyError.
Proof.
  unfold column_loc. destruct (list_find _ _) as [[i c]|]; [discriminate|].
  intros [= <-]. reflexivity.
Qed.

Lemma unit_in_columns fl g u :
  unstack_fillna fl = Ok g -> u ∈ g_columns g <-> u ∈ Unit <$> fl.
Proof.
  intros Hg. apply unstack_fillna_Ok in Hg. destruct Hg as (_ & -> & _).
  rewrite merge_sort_Permutation, elem_of_remove_dups. reflexivity.
Qed.

(** X2. For a literal OS pattern the normaliser returns prices exactly when
    no two surviving rows have the same (region, tenancy, term, option, unit)
    and both an "Hrs" and a "Quantity" row survive; with a repeated index it
    raises [ValueError], and otherwise, with a billing unit missing,
    [KeyError]. *)
Theorem normaliser_returns_iff (data : list Row) (instance os : string) :
  literal_pattern os ->
  let fl := surviving data instance os in
  ((exists prices, get_amazon_ec2_prices data instance os = Ok prices)
   <-> NoDup (index_of <$> fl)
       /\ "Hrs" ∈ Unit <$> fl /\ "Quantity" ∈ Unit <$> fl)
  /\ (~ NoDup (index_of <$> fl) ->
      get_amazon_ec2_prices data instance os = Raise ValueError)
  /\ (NoDup (index_of <$> fl) ->
      "Hrs" ∉ Unit <$> fl \/ "Quantity" ∉ Unit <$> fl ->
      get_amazon_ec2_prices data instance os = Raise KeyError).
Proof.
  intros _ fl. split; [split|split].
  - intros [prices H]. apply get_amazon_ec2_prices_Ok in H.
    destruct H as (g & hrs & quantity & Hg & Hh & Hq & _). fold fl in Hg.
    split; [apply unstack_fillna_Ok in Hg; tauto|].
    split; apply (unit_in_columns fl g _ Hg);
      eapply list_elem_of_lookup_2; eassumption.
  - intros (Hnd & Hh & Hq).
    apply get_amazon_ec2_prices_returns; assumption.
  - intros Hdup. unfold get_amazon_ec2_prices. fold (surviving data instance os).
    fold fl. unfold unstack_fillna.
    rewrite bool_decide_eq_false_2 by exact Hdup. reflexivity.
  - intros Hnd Hmiss. unfold get_amazon_ec2_prices.
    fold (surviving data instance os). fold fl.
    destruct (unstack_fillna fl) as [g|e] eqn:Hg.
    2:{ unfold unstack_fillna in Hg.
        rewrite bool_decide_eq_true_2 in Hg by exact Hnd. discriminate. }
    simpl.
    destruct (column_loc g "Hrs") as [ih|e] eqn:Eh; simpl.
    2:{ apply column_loc_Raise in Eh. rewrite Eh. reflexivity. }
    destruct (column_loc g "Quantity") as [iq|e] eqn:Eq; simpl.
    2:{ apply column_loc_Raise in Eq. rewrite Eq. reflexivity. }
    exfalso. apply column_loc_Ok, list_elem_of_lookup_2 in Eh, Eq.
    apply (unit_in_columns fl g _ Hg) in Eh, Eq. tauto.
Qed.

Lemma tuple_leb_total (a b : list string) :
  tuple_leb a b = true \/ tuple_leb b a = true.
Proof.
  revert b. induction a as [|x a IH]; intros [|y b]; simpl; auto.
  rewrite (String.compare_antisym x y).
  destruct (String.compare y x); simpl; auto.
Qed.

Lemma entry_le_total {V} (a b : PriceKey * V) : entry_le a b \/ entry_le b a.
Proof. unfold entry_le, key_le. apply tuple_leb_total. Qed.

Lemma NoDup_fst_filter {K V} (P : K * V -> Prop) `{forall x, Decision (P x)}
    (l : list (K * V)) :
  NoDup l.*1 -> NoDup (filter P l).*1.
Proof.
  intros Hnd.
  eapply sublist_NoDup; [exact Hnd | apply fmap_sublist, sublist_filter].
Qed.

Lemma fmap_pair_fst {A B} (f : A -> B) (l : list A) :
  ((fun k => (k, f k)) <$> l).*1 = l.
Proof.
  induction l as [|x l IH]; [reflexivity|]. csimpl. rewrite IH. reflexivity.
Qed.

Lemma grouped_keys_NoDup fl g : unstack_fillna fl = Ok g -> NoDup (g_rows g).*1.
Proof.
  intros Hg. apply unstack_fillna_Ok in Hg. destruct Hg as (_ & _ & ->).
  rewrite fmap_pair_fst, merge_sort_Permutation. apply NoDup_remove_dups.
Qed.

Lemma priced_keys {V} (f : PriceKey * V -> Q) (l : list (PriceKey * V)) :
  ((fun row => (row.1, f row)) <$> l).*1 = l.*1.
Proof.
  induction l as [|x l IH]; [reflexivity|]. csimpl. rewrite IH. reflexivity.
Qed.

(** The prices are the three priced selections, in sorted order. *)
Lemma prices_keys_NoDup data instance os prices :
  get_amazon_ec2_prices data instance os = Ok prices -> NoDup prices.*1.
Proof.
  unfold get_amazon_ec2_prices. intros H.
  bind_inv H. rename a into g. bind_inv H. bind_inv H. injection H as <-.
  rewrite merge_sort_Permutation, !fmap_app, !priced_keys.
  pose proof (grouped_keys_NoDup _ _ Ha) as Hnd.
  assert (Hsel : forall rsv k, k ∈ (select_rsv g rsv).*1 -> kRsv k = rsv).
  { intros rsv k Hk. apply list_elem_of_fmap in Hk.
    destruct Hk as (row & -> & Hrow). unfold select_rsv in Hrow.
    apply list_elem_of_filter in Hrow. tauto. }
  apply list.NoDup_app.
  split; [apply NoDup_fst_filter; exact Hnd|]. split.
  - intros k H1 H2. apply Hsel in H1. apply elem_of_app in H2.
    destruct H2 as [H2|H2]; apply Hsel in H2; congruence.
  - apply list.NoDup_app. split; [apply NoDup_fst_filter; exact Hnd|].
    split; [|apply NoDup_fst_filter; exact Hnd].
    intros k H1 H2. apply Hsel in H1, H2. congruence.
Qed.

(** X3. What the normaliser returns is a mapping in index order: no key
    (region, tenancy, term, option) occurs twice, the entries are sorted by
    key, and every term is "1yr", "3yr" or "No". *)
Theorem normaliser_output_is_sorted_mapping data instance os prices :
  get_amazon_ec2_prices data instance os = Ok prices ->
  NoDup prices.*1
  /\ Sorted entry_le prices
  /\ (forall k p, (k, p) ∈ prices ->
        kRsv k = "1yr" \/ kRsv k = "3yr" \/ kRsv k = "No").
Proof.
  intros H. split; [eapply prices_keys_NoDup; exact H|]. split.
  - unfold get_amazon_ec2_prices in H.
    bind_inv H. bind_inv H. bind_inv H. injection H as <-.
    apply (@Sorted_merge_sort _ entry_le _ entry_le_total).
  - intros k p Hkp. apply get_amazon_ec2_prices_Ok in H.
    destruct H as (g & hrs & quantity & _ & _ & _ & Hin).
    apply Hin in Hkp. destruct Hkp as (row & _ & Hk & Hcase). simpl in *.
    rewrite Hk. tauto.
Qed.

End normaliser_more.

(* ===================================================================== *)
(** ** The simplified prices and the prices in the catalog *)
(* ===================================================================== *)

Section simplified.
Import cloud_providers.

Lemma dict_get_Some_elem {K V} `{EqDecision K} (k : K) (v : V)
    (d : list (K * V)) :
  Py.dict_get k d = Some v -> (k, v) ∈ d.
Proof.
  induction d as [|[k' v'] d IH]; simpl; [discriminate|].
  destruct (decide (k' = k)) as [->|Hne].
  - intros [= ->]. left.
  - intros H. right. apply IH. exact H.
Qed.

Lemma elem_of_fold_dict_set {K V} `{EqDecision K} (pairs d : list (K * V)) e :
  e ∈ fold_left (fun d kv => Py.dict_set kv.1 kv.2 d) pairs d ->
  e ∈ d \/ e ∈ pairs.
Proof.
  revert d. induction pairs as [|[k v] pairs IH]; intros d; simpl; [auto|].
  intros He. apply IH in He. destruct He as [He|He].
  - apply elem_of_dict_set in He. destruct He as [->|He]; [right; left|auto].
  - right. right. exact He.
Qed.

Lemma fst_NoDup_inj {K V} (l : list (K * V)) e1 e2 :
  NoDup l.*1 -> e1 ∈ l -> e2 ∈ l -> e1.1 = e2.1 -> e1 = e2.
Proof.
  induction l as [|e l IH]; csimpl; intros Hnd H1 H2 Hk.
  - apply elem_of_nil in H1. contradiction.
  - apply list.NoDup_cons in Hnd. destruct Hnd as [Hnot Hnd].
    apply elem_of_cons in H1, H2.
    destruct H1 as [->|H1], H2 as [->|H2]; [reflexivity| | |auto].
    + exfalso. apply Hnot. rewrite Hk. apply list_elem_of_fmap_2. exact H2.
    + exfalso. apply Hnot. rewrite <- Hk. apply list_elem_of_fmap_2. exact H1.
Qed.

(** Lookup in a dictionary built from pairs with distinct keys. *)
Lemma dict_of_lookup {K V} `{EqDecision K} (pairs : list (K * V)) k v :
  NoDup pairs.*1 ->
  Py.dict_get k (Py.dict_of pairs) = Some v <-> (k, v) ∈ pairs.
Proof.
  intros Hnd. unfold Py.dict_of. split.
  - intros H. apply dict_get_Some_elem, elem_of_fold_dict_set in H.
    destruct H as [H|H]; [apply elem_of_nil in H; contradiction | exact H].
  - intros Hin.
    apply (dict_get_fold_set (fun kv : K * V => kv.1) (fun kv => kv.2)).
    + intros [k' v'] Hin' Hk. simpl in *. subst k'.
      assert (E : (k, v') = (k, v)) by (eapply fst_NoDup_inj; eauto).
      congruence.
    + right. exists (k, v). auto.
Qed.

Lemma xs_to_dict_lookup prices tenancy rsv popt d :
  NoDup prices.*1 ->
  xs_to_dict prices tenancy rsv popt = Ok d ->
  forall region v,
    Py.dict_get region d = Some v
    <-> (mkKey region tenancy rsv popt, v) ∈ prices.
Proof.
  intros Hnd. unfold xs_to_dict.
  destruct (_ && _); [|discriminate]. intros [= <-] region v.
  set (sel := filter _ prices).
  assert (Hsel : forall e, e ∈ sel <->
            e ∈ prices /\ kTenancy e.1 = tenancy /\ kRsv e.1 = rsv
            /\ kPopt e.1 = popt).
  { intros e. subst sel. rewrite list_elem_of_filter. tauto. }
  rewrite dict_of_lookup.
  - rewrite list_elem_of_fmap. split.
    + intros ([k p] & [= -> ->] & He). apply Hsel in He. simpl in He.
      destruct He as (He & <- & <- & <-). destruct k. exact He.
    + intros He. exists (mkKey region tenancy rsv popt, v).
      split; [reflexivity|]. apply Hsel. simpl. auto.
  - rewrite <- list_fmap_compose.
    apply NoDup_fmap_2_strong.
    + intros e1 e2 H1 H2 Hreg. apply Hsel in H1, H2. simpl in Hreg.
      destruct H1 as (H1 & Ht1 & Hr1 & Hp1), H2 as (H2 & Ht2 & Hr2 & Hp2).
      apply (fst_NoDup_inj prices); [assumption..|].
      destruct e1 as [[] ?], e2 as [[] ?]. simpl in *. congruence.
    + subst sel. apply list.NoDup_filter. eapply NoDup_fmap_1. exact Hnd.
Qed.

Lemma get_simplified_amazon_prices_Ok data instance os r :
  get_simplified_amazon_prices data instance os = Ok r ->
  exists prices,
    get_amazon_ec2_prices data instance os = Ok prices
    /\ xs_to_dict prices "Shared" "No" "N/A" = Ok (on_demand r)
    /\ xs_to_dict prices "Shared" "1yr" "All Upfront" = Ok (reserved r).
Proof.
  unfold get_simplified_amazon_prices. intros H.
  bind_inv H. rename a into prices. bind_inv H. bind_inv H.
  injection H as <-. simpl. eauto.
Qed.

(** X4. The simplified view reads the normaliser's mapping: a region has an
    on-demand price exactly when the mapping has the key (region, "Shared",
    "No", "N/A"), and a reserved price exactly when it has the key (region,
    "Shared", "1yr", "All Upfront"); the prices are those of the mapping. *)
Theorem simplified_prices_are_lookups data instance os r :
  get_simplified_amazon_prices data instance os = Ok r ->
  exists prices,
    get_amazon_ec2_prices data instance os = Ok prices
    /\ forall region v,
         (Py.dict_get region (on_demand r) = Some v
          <-> (mkKey region "Shared" "No" "N/A", v) ∈ prices)
         /\ (Py.dict_get region (reserved r) = Some v
             <-> (mkKey region "Shared" "1yr" "All Upfront", v) ∈ prices).
Proof.
  intros H. apply get_simplified_amazon_prices_Ok in H.
  destruct H as (prices & Hp & Hod & Hrs). exists prices.
  split; [exact Hp|]. intros region v.
  pose proof (prices_keys_NoDup _ _ _ _ Hp) as Hnd.
  split; [apply (xs_to_dict_lookup _ _ _ _ _ Hnd Hod)
         | apply (xs_to_dict_lookup _ _ _ _ _ Hnd Hrs)].
Qed.

(** Every priced key is the key of a surviving row. *)
Lemma priced_key_has_row data instance os prices k p :
  get_amazon_ec2_prices data instance os = Ok prices ->
  (k, p) ∈ prices ->
  exists r, r ∈ surviving data instance os /\ key_of r = k.
Proof.
  intros H Hkp. apply get_amazon_ec2_prices_Ok in H.
  destruct H as (g & hrs & quantity & Hg & _ & _ & Hin).
  apply Hin in Hkp. destruct Hkp as (row & Hrow & Hk & _). simpl in Hk.
  apply (grouped_row_in _ g row Hg) in Hrow.
  destruct Hrow as [(r & Hr & Hkey) _]. exists r. split; [exact Hr|].
  congruence.
Qed.

Lemma get_amazon_ec2_prices_Raise data instance os e :
  get_amazon_ec2_prices data instance os = Raise e ->
  e = KeyError \/ e = ValueError.
Proof.
  unfold get_amazon_ec2_prices.
  destruct (unstack_fillna _) as [g|e0] eqn:Hg; simpl.
  - destruct (column_loc g "Hrs") as [ih|e1] eqn:Eh; simpl.
    2:{ apply column_loc_Raise in Eh. intros [= <-]. auto. }
    destruct (column_loc g "Quantity") as [iq|e1] eqn:Eq; simpl.
    2:{ apply column_loc_Raise in Eq. intros [= <-]. auto. }
    discriminate.
  - unfold unstack_fillna in Hg. case_bool_decide; [discriminate|].
    injection Hg as <-. intros [= <-]. auto.
Qed.

Lemma xs_to_dict_KeyError prices tenancy rsv popt :
  (forall e, e ∈ prices -> kRsv e.1 <> rsv) ->
  xs_to_dict prices tenancy rsv popt = Raise KeyError.
Proof.
  intros Hno. unfold xs_to_dict.
  rewrite (bool_decide_eq_false_2 (Exists (fun e => kRsv e.1 = rsv) prices)).
  - rewrite andb_false_r. reflexivity.
  - rewrite list.Exists_exists. intros (e & He & Hr). exact (Hno e He Hr).
Qed.

Lemma xs_to_dict_Raise prices tenancy rsv popt e :
  xs_to_dict prices tenancy rsv popt = Raise e -> e = KeyError.
Proof.
  unfold xs_to_dict. destruct (_ && _); [discriminate|].
  intros [= <-]. reflexivity.
Qed.

Lemma region_data_loop_raises data region_name max_inst_per_type names rd0 n e :
  n ∈ names ->
  get_simplified_amazon_prices data n "Linux" = Raise e ->
  exists e',
    fold_loop (region_data_step data region_name max_inst_per_type) names rd0
    = Raise e'.
Proof.
  revert rd0. induction names as [|m names IH]; intros rd0 Hn He.
  - apply elem_of_nil in Hn. contradiction.
  - simpl. unfold region_data_step at 1.
    destruct (get_simplified_amazon_prices data m "Linux") as [r|e0] eqn:Em;
      simpl; [|eauto].
    apply elem_of_cons in Hn. destruct Hn as [->|Hn]; [congruence|].
    apply IH; assumption.
Qed.

(** X5. If, for some instance type, no row that survives the filter is an
    on-demand row (term "No"), or none is a one-year row (term "1yr"), the
    simplified view raises [KeyError] or, with a repeated index,
    [ValueError]; and the catalog builder, asked for that type, raises as
    well instead of skipping the type. *)
Theorem missing_purchase_mode_raises data instance :
  (forall r, r ∈ surviving data instance "Linux" -> Rsv r <> "No")
  \/ (forall r, r ∈ surviving data instance "Linux" -> Rsv r <> "1yr") ->
  (get_simplified_amazon_prices data instance "Linux" = Raise KeyError
   \/ get_simplified_amazon_prices data instance "Linux" = Raise ValueError)
  /\ forall region_name max_inst_per_type max_inst_per_group
            availability_zones instance_names h,
       instance ∈ instance_names ->
       exists e,
         generate_amazon_region_instances data region_name max_inst_per_type
           max_inst_per_group availability_zones instance_names h = Raise e.
Proof.
  intros Hmiss.
  assert (Hs : get_simplified_amazon_prices data instance "Linux"
               = Raise KeyError
               \/ get_simplified_amazon_prices data instance "Linux"
                  = Raise ValueError).
  { unfold get_simplified_amazon_prices.
    destruct (get_amazon_ec2_prices data instance "Linux") as [prices|e]
      eqn:Hp; simpl.
    - left.
      assert (Hkey : forall rsv,
                (forall r, r ∈ surviving data instance "Linux" ->
                           Rsv r <> rsv) ->
                forall e, e ∈ prices -> kRsv e.1 <> rsv).
      { intros rsv Hno [k p] He. simpl.
        destruct (priced_key_has_row _ _ _ _ _ _ Hp He) as (r & Hr & <-).
        apply Hno. exact Hr. }
      destruct Hmiss as [Hno|Hno].
      + rewrite xs_to_dict_KeyError by (apply Hkey; exact Hno). reflexivity.
      + destruct (xs_to_dict prices "Shared" "No" "N/A") as [d|e] eqn:Hd;
          simpl.
        * rewrite xs_to_dict_KeyError by (apply Hkey; exact Hno). reflexivity.
        * apply xs_to_dict_Raise in Hd. rewrite Hd. reflexivity.
    - apply get_amazon_ec2_prices_Raise in Hp.
      destruct Hp as [-> | ->]; auto. }
  split; [exact Hs|].
  intros region_name mt mg az names h Hin.
  rewrite generate_amazon_region_instances_eq.
  assert (He : exists e,
            get_simplified_amazon_prices data instance "Linux" = Raise e)
    by (destruct Hs as [-> | ->]; eauto).
  destruct He as [e He].
  destruct (region_data_loop_raises data region_name mt
              (merge_sort String.le names) [] instance e) as [e' ->];
    [rewrite merge_sort_Permutation; exact Hin | exact He |].
  simpl. eauto.
Qed.

End simplified.

Section catalog_prices.
Import cloud_providers.

Lemma normalised_price data instance os prices k p :
  get_amazon_ec2_prices data instance os = Ok prices ->
  (k, p) ∈ prices ->
  exists hourly upfront,
    component_of (surviving data instance os) k "Hrs" hourly
    /\ component_of (surviving data instance os) k "Quantity" upfront
    /\ ((kRsv k = "1yr" /\ p = price_1yr hourly upfront)
        \/ (kRsv k = "3yr" /\ p = price_3yr hourly upfront)
        \/ (kRsv k = "No" /\ p = hourly)).
Proof.
  intros H Hkp. apply get_amazon_ec2_prices_Ok in H.
  destruct H as (g & hrs & quantity & Hg & Hh & Hq & Hin).
  set (fl := surviving data instance os) in *.
  apply Hin in Hkp. simpl in Hkp.
  destruct Hkp as (row & Hrow & -> & Hcase).
  apply (grouped_row_in fl g row Hg) in Hrow. destruct Hrow as [_ Hvals].
  rewrite Hvals in Hcase.
  rewrite (at_column_fmap _ _ _ _ Hh) in Hcase.
  rewrite ?(at_column_fmap _ _ _ _ Hq) in Hcase.
  eexists _, _. split; [apply cell_price_component|].
  split; [apply cell_price_component|].
  destruct Hcase as [[Hrsv ->]|[[Hrsv ->]|[Hrsv ->]]].
  - left. split; [exact Hrsv | reflexivity].
  - right; left. split; [exact Hrsv | reflexivity].
  - right; right. split; [exact Hrsv | reflexivity].
Qed.

(** X6. Every entry of a catalog is named after a requested type and is
    billed per hour. An on-demand entry has the local maximum
    [max_inst_per_type] and its price is the hourly price of the surviving
    ("Linux") rows of its type in the group (region, "Shared", "No", "N/A").
    A reserved entry has local maximum 0 and its price is the hourly part
    plus the upfront part divided by 365 and then by 24, in float
    arithmetic, of the group (region, "Shared", "1yr", "All Upfront"). The
    prices of the table are taken in the finite range. *)
Theorem catalog_entry_prices data region_name max_inst_per_type
    max_inst_per_group availability_zones instance_names h ins h' ic :
  finite_prices data ->
  generate_amazon_region_instances data region_name max_inst_per_type
    max_inst_per_group availability_zones instance_names h = Ok (ins, h') ->
  ic ∈ ins ->
  let rows := surviving data (InstanceClass.name ic) "Linux" in
  InstanceClass.name ic ∈ instance_names
  /\ InstanceClass.time_unit ic = "h"
  /\ (InstanceClass.is_reserved ic = false ->
      InstanceClass.max_vms ic = max_inst_per_type
      /\ InstanceClass.id ic = on_demand_id (InstanceClass.name ic) region_name
      /\ component_of rows (mkKey region_name "Shared" "No" "N/A") "Hrs"
           (InstanceClass.price ic))
  /\ (InstanceClass.is_reserved ic = true ->
      InstanceClass.max_vms ic = 0
      /\ exists hourly upfront,
           component_of rows (mkKey region_name "Shared" "1yr" "All Upfront")
             "Hrs" hourly
           /\ component_of rows
                (mkKey region_name "Shared" "1yr" "All Upfront")
                "Quantity" upfront
           /\ InstanceClass.price ic
              = binary64.fadd hourly
                  (binary64.fdiv (binary64.fdiv upfront 365) 24)).
Proof.
  intros _ H Hic rows. apply generate_amazon_region_instances_Ok in H.
  destruct H as (rd & Hrd & -> & _).
  apply region_data_of_names in Hrd. destruct Hrd as (_ & _ & Hin & _).
  apply elem_of_catalog_of in Hic.
  destruct Hic as [(idat & Hidat & He)|(idat & z & Hidat & Hz & He)];
    destruct (Hin idat Hidat) as (Hn & r & Hr & Hd);
    apply get_simplified_amazon_prices_Ok in Hr;
    destruct Hr as (prices & Hprices & Hod & Hrs);
    pose proof (prices_keys_NoDup _ _ _ _ Hprices) as Hnd.
  - unfold on_demand_entry in He.
    destruct (d_on_demand idat.2) as [p|] eqn:Hp; [|discriminate].
    injection He as <-. subst rows. simpl.
    split; [exact Hn|]. split; [reflexivity|]. split; [|discriminate].
    intros _. rewrite Hd. simpl. split; [reflexivity|].
    split; [reflexivity|].
    rewrite Hd in Hp. simpl in Hp.
    apply (xs_to_dict_lookup _ _ _ _ _ Hnd Hod) in Hp.
    destruct (normalised_price _ _ _ _ _ _ Hprices Hp)
      as (hourly & upfront & Hh & _ & Hcase).
    simpl in Hcase.
    destruct Hcase as [[? _]|[[? _]|[_ ->]]]; [discriminate..|exact Hh].
  - unfold reserved_entry in He.
    destruct (d_reserved idat.2) as [p|] eqn:Hp; [|discriminate].
    injection He as <-. subst rows. simpl.
    split; [exact Hn|]. split; [reflexivity|]. split; [discriminate|].
    intros _. split; [reflexivity|].
    rewrite Hd in Hp. simpl in Hp.
    apply (xs_to_dict_lookup _ _ _ _ _ Hnd Hrs) in Hp.
    destruct (normalised_price _ _ _ _ _ _ Hprices Hp)
      as (hourly & upfront & Hh & Hu & Hcase).
    simpl in Hcase. exists hourly, upfront.
    split; [exact Hh|]. split; [exact Hu|].
    destruct Hcase as [[_ Heq]|[[? _]|[? _]]]; [exact Heq|discriminate..].
Qed.

(** X7. The catalog does not depend on the order in which the instance
    types are requested: the names are processed in sorted order. *)
Theorem catalog_ignores_request_order data region_name max_inst_per_type
    max_inst_per_group availability_zones (names1 names2 : list string) h :
  names1 ≡ₚ names2 ->
  generate_amazon_region_instances data region_name max_inst_per_type
    max_inst_per_group availability_zones names1 h
  = generate_amazon_region_instances data region_name max_inst_per_type
      max_inst_per_group availability_zones names2 h.
Proof.
  intros Hperm. rewrite !generate_amazon_region_instances_eq.
  replace (merge_sort String.le names2) with (merge_sort String.le names1);
    [reflexivity|].
  apply (Sorted_unique String.le).
  - apply Sorted_merge_sort. apply _.
  - apply Sorted_merge_sort. apply _.
  - rewrite !merge_sort_Permutation. exact Hperm.
Qed.

End catalog_prices.

(* ===================================================================== *)
(** ** The catalog of several regions *)
(* ===================================================================== *)

Section regions.
Import cloud_providers.

Lemma region_catalog_shape data region_name max_inst_per_type
    max_inst_per_group availability_zones instance_names h cat h2 :
  generate_amazon_region_instances data region_name max_inst_per_type
    max_inst_per_group availability_zones instance_names h = Ok (cat, h2) ->
  length h2 = (length h + 1 + availability_zones)%nat
  /\ (length cat <= length instance_names * (1 + availability_zones))%nat
  /\ forall ic, ic ∈ cat ->
       exists r, InstanceClass.limiting_sets ic = [r]
         /\ (length h <= r < length h2)%nat.
Proof.
  intros H. apply generate_amazon_region_instances_Ok in H.
  destruct H as (rd & Hrd & -> & ->).
  apply region_data_of_names in Hrd. destruct Hrd as (_ & Hlen & _ & _).
  rewrite store_after_length. split; [reflexivity|]. split.
  - unfold catalog_of. rewrite length_app.
    pose proof (omap_length_le (on_demand_entry region_name (length h)) rd).
    pose proof (bind_length_le
      (fun idat => omap (reserved_entry region_name (length h) idat)
                     (seq 1 availability_zones)) availability_zones rd) as Hb.
    assert (length (rd ≫= (fun idat =>
              omap (reserved_entry region_name (length h) idat)
                (seq 1 availability_zones)))
            <= length rd * availability_zones)%nat.
    { apply Hb. intros idat. etrans; [apply omap_length_le|].
      rewrite length_seq. reflexivity. }
    nia.
  - intros ic Hic. apply elem_of_catalog_of in Hic.
    destruct Hic as [(idat & _ & He)|(idat & z & _ & Hz & He)].
    + apply on_demand_entry_Some in He. destruct He as (_ & _ & Hls & _).
      exists (length h). split; [exact Hls | lia].
    + apply reserved_entry_Some in He. destruct He as (_ & _ & Hls & _).
      exists (length h + z)%nat. split; [exact Hls | lia].
Qed.

Lemma join_length_le {A} (ls : list (list A)) (m : nat) :
  (forall l, l ∈ ls -> (length l <= m)%nat) ->
  (length (mjoin ls) <= length ls * m)%nat.
Proof.
  induction ls as [|l ls IH]; intros Hall; simpl; [lia|].
  rewrite length_app. specialize (Hall l ltac:(left)) as Hl.
  assert (length (mjoin ls) <= length ls * m)%nat.
  { apply IH. intros l' Hl'. apply Hall. right. exact Hl'. }
  lia.
Qed.

(** The loop of [create_ics]: one catalog per region, each built on the
    store that the regions before it have left. *)
Lemma create_ics_loop data names regions ics0 (h0 : store) ics h' :
  fold_loop (hybrid.create_ics_step data names) regions (ics0, h0)
  = Ok (ics, h') ->
  exists cats,
    ics = ics0 ++ mjoin cats
    /\ length cats = length regions
    /\ length h' = (length h0 + 4 * length regions)%nat
    /\ forall i c, cats !! i = Some c ->
         (exists region_name hi hi',
            regions !! i = Some region_name
            /\ length hi = (length h0 + 4 * i)%nat
            /\ generate_amazon_region_instances data region_name 20 20 3
                 names hi = Ok (c, hi'))
         /\ (length c <= 4 * length names)%nat
         /\ forall ic, ic ∈ c ->
              exists r, InstanceClass.limiting_sets ic = [r]
                /\ (length h0 + 4 * i <= r < length h0 + 4 * (i + 1))%nat.
Proof.
  revert ics0 h0. induction regions as [|R regions IH]; intros ics0 h0 H.
  - simpl in H. injection H as <- <-. exists []. simpl.
    rewrite app_nil_r. split; [reflexivity|]. split; [reflexivity|].
    split; [lia|]. intros i c Hc. discriminate.
  - simpl in H. bind_inv H. destruct a as [ics1 h1].
    unfold hybrid.create_ics_step in Ha. simpl in Ha. bind_inv Ha.
    destruct a as [cat h1']. injection Ha as <- <-. rename Ha0 into Hgen.
    simpl in H. destruct (IH _ _ H) as (cats & -> & Hlen & Hh & Hcats).
    destruct (region_catalog_shape _ _ _ _ _ _ _ _ _ Hgen)
      as (Hh1 & Hcat & Hrefs).
    exists (cat :: cats). simpl. rewrite <- app_assoc.
    split; [reflexivity|]. split; [lia|]. split; [lia|].
    intros [|i] c Hc; simpl in Hc.
    + injection Hc as <-. split.
      { exists R, h0, h1'. split; [reflexivity|]. split; [lia | exact Hgen]. }
      split; [lia|].
      intros ic Hic. destruct (Hrefs ic Hic) as (r & Hls & Hr).
      exists r. split; [exact Hls | lia].
    + destruct (Hcats i c Hc) as (Hgen' & Hlc & Hr). split.
      { destruct Hgen' as (rn & hi & hi' & Hrn & Hhi & Hg).
        exists rn, hi, hi'. split; [exact Hrn|]. split; [lia | exact Hg]. }
      split; [exact Hlc|]. intros ic Hic.
      destruct (Hr ic Hic) as (r & Hls & Hrr). exists r.
      split; [exact Hls | lia].
Qed.

(** X8. For a non-empty list of regions [create_ics] returns the
    concatenation of one catalog per region, built by the one-region
    builder with three zones, each continuing with the store that the
    previous one left, and the number of regions. Every region adds four
    limiting sets to the store, and the catalog has at most four entries per
    requested type and region. *)
Theorem create_ics_regions data s3 names region rest h ics n h' :
  hybrid.create_ics data s3 names (Some (region :: rest)) h
  = Ok (ics, n, h') ->
  n = length (region :: rest)
  /\ length h' = (length h + 4 * n)%nat
  /\ (length ics <= n * (4 * length names))%nat
  /\ exists cats,
       ics = mjoin cats
       /\ length cats = n
       /\ (forall i c, cats !! i = Some c ->
             exists region_name hi hi',
               (region :: rest) !! i = Some region_name
               /\ length hi = (length h + 4 * i)%nat
               /\ generate_amazon_region_instances data region_name 20 20 3
                    names hi = Ok (c, hi')).
Proof.
  unfold hybrid.create_ics. simpl. intros H. bind_inv H.
  destruct a as [ics1 h1]. injection H as <- <- <-.
  change (fold_loop (hybrid.create_ics_step data names) (region :: rest)
            ([], h) = Ok (ics1, h1)) in Ha.
  apply create_ics_loop in Ha.
  destruct Ha as (cats & -> & Hlen & Hh & Hcats). simpl in *.
  split; [reflexivity|]. split; [lia|]. split.
  - pose proof (join_length_le cats (4 * length names)) as Hj.
    rewrite Hlen in Hj. apply Hj. intros c Hc.
    apply list_elem_of_lookup_1 in Hc. destruct Hc as [i Hi].
    apply (Hcats i c Hi).
  - exists cats. split; [reflexivity|]. split; [exact Hlen|].
    intros i c Hc. apply (Hcats i c Hc).
Qed.

Lemma list_remove_absent {A} `{EqDecision A} (x : A) (l : list A) :
  x ∉ l -> Py.list_remove x l = Raise ValueError.
Proof.
  induction l as [|y l IH]; intros Hx; simpl; [reflexivity|].
  apply not_elem_of_cons in Hx. destruct Hx as [Hne Hx].
  rewrite decide_False by congruence. rewrite IH by exact Hx. reflexivity.
Qed.

Lemma list_remove_present {A} `{EqDecision A} (x : A) (l : list A) :
  x ∈ l -> NoDup l ->
  exists r, Py.list_remove x l = Ok r
    /\ NoDup r /\ forall y, y ∈ r <-> y ∈ l /\ y <> x.
Proof.
  induction l as [|y l IH]; intros Hx Hnd.
  - apply elem_of_nil in Hx. contradiction.
  - apply list.NoDup_cons in Hnd. destruct Hnd as [Hy Hnd]. simpl.
    destruct (decide (y = x)) as [->|Hne].
    + exists l. split; [reflexivity|]. split; [exact Hnd|].
      intros z. rewrite elem_of_cons. split.
      * intros Hz. split; [auto|]. intros ->. contradiction.
      * intros [[->|Hz] Hzx]; [contradiction | exact Hz].
    + apply elem_of_cons in Hx. destruct Hx as [->|Hx]; [contradiction|].
      destruct (IH Hx Hnd) as (r & -> & Hr & Hin). exists (y :: r).
      split; [reflexivity|]. split.
      * apply list.NoDup_cons. split; [|exact Hr]. rewrite Hin. tauto.
      * intros z. rewrite !elem_of_cons, Hin. split.
        -- intros [->|[Hz Hzx]]; auto.
        -- intros [[->|Hz] Hzx]; auto.
Qed.

Lemma elem_of_unique (x : string) (l : list string) :
  x ∈ hybrid.unique l <-> x ∈ l.
Proof.
  induction l as [|y l IH]; simpl; [reflexivity|].
  rewrite !elem_of_cons, list_elem_of_filter, IH.
  destruct (decide (x = y)); tauto.
Qed.

Lemma unique_NoDup (l : list string) : NoDup (hybrid.unique l).
Proof.
  induction l as [|y l IH]; simpl; [constructor|].
  apply list.NoDup_cons. split.
  - rewrite list_elem_of_filter. tauto.
  - apply list.NoDup_filter. exact IH.
Qed.

(** X9. Without a list of regions ([None] or an empty list) [create_ics]
    takes the regions of the S3 table. It raises [ValueError] unless the
    table names "N/A" and both GovCloud regions; otherwise it behaves as for
    the list of the distinct S3 regions other than these three, so that no
    catalog entry is ever built for them. *)
Theorem create_ics_default_regions data (s3 : list string) names
    (region_names : option (list string)) h :
  region_names = None \/ region_names = Some [] ->
  let special := ["N/A"; "AWS GovCloud (US-East)"; "AWS GovCloud (US-West)"] in
  ((exists x, x ∈ special /\ x ∉ s3) ->
   hybrid.create_ics data s3 names region_names h = Raise ValueError)
  /\ ((forall x, x ∈ special -> x ∈ s3) ->
      exists regions,
        hybrid.default_region_names s3 = Ok regions
        /\ NoDup regions
        /\ (forall x, x ∈ regions <-> x ∈ s3 /\ x ∉ special)
        /\ hybrid.create_ics data s3 names region_names h
           = hybrid.create_ics data s3 names (Some regions) h).
Proof.
  intros Hnone special.
  assert (Hcreate : match region_names with
                    | Some (r :: rs) => Ok (r :: rs)
                    | _ => hybrid.default_region_names s3
                    end = hybrid.default_region_names s3).
  { destruct Hnone as [-> | ->]; reflexivity. }
  pose proof (unique_NoDup s3) as Hnd.
  destruct (decide ("N/A" ∈ s3)) as [H1|H1].
  2:{ split.
      - intros _. unfold hybrid.create_ics. rewrite Hcreate.
        unfold hybrid.default_region_names.
        rewrite list_remove_absent by (rewrite elem_of_unique; exact H1).
        reflexivity.
      - intros Hall. exfalso. apply H1, Hall. left. }
  destruct (list_remove_present "N/A" (hybrid.unique s3))
    as (r1 & Hr1 & Hnd1 & Hin1); [apply elem_of_unique; exact H1|exact Hnd|].
  destruct (decide ("AWS GovCloud (US-East)" ∈ s3)) as [H2|H2].
  2:{ split.
      - intros _. unfold hybrid.create_ics. rewrite Hcreate.
        unfold hybrid.default_region_names. rewrite Hr1. simpl.
        rewrite list_remove_absent; [reflexivity|].
        rewrite Hin1, elem_of_unique. tauto.
      - intros Hall. exfalso. apply H2, Hall. right. left. }
  destruct (list_remove_present "AWS GovCloud (US-East)" r1)
    as (r2 & Hr2 & Hnd2 & Hin2);
    [apply Hin1; rewrite elem_of_unique; split; [exact H2|discriminate]
    |exact Hnd1|].
  destruct (decide ("AWS GovCloud (US-West)" ∈ s3)) as [H3|H3].
  2:{ split.
      - intros _. unfold hybrid.create_ics. rewrite Hcreate.
        unfold hybrid.default_region_names. rewrite Hr1. simpl.
        rewrite Hr2. simpl. rewrite list_remove_absent; [reflexivity|].
        rewrite Hin2, Hin1, elem_of_unique. tauto.
      - intros Hall. exfalso. apply H3, Hall. right. right. left. }
  destruct (list_remove_present "AWS GovCloud (US-West)" r2)
    as (r3 & Hr3 & Hnd3 & Hin3);
    [apply Hin2; split; [|discriminate]; apply Hin1;
     rewrite elem_of_unique; split; [exact H3|discriminate]
    |exact Hnd2|].
  assert (Hdef : hybrid.default_region_names s3 = Ok r3).
  { unfold hybrid.default_region_names. rewrite Hr1. simpl. rewrite Hr2.
    simpl. exact Hr3. }
  split.
  - intros (x & Hx & Hnot). exfalso. subst special.
    repeat (apply elem_of_cons in Hx; destruct Hx as [->|Hx];
            [contradiction|]).
    apply elem_of_nil in Hx. exact Hx.
  - intros _. exists r3. split; [exact Hdef|]. split; [exact Hnd3|]. split.
    + intros x. rewrite Hin3, Hin2, Hin1, elem_of_unique. subst special.
      rewrite !not_elem_of_cons. pose proof (not_elem_of_nil x). tauto.
    + unfold hybrid.create_ics. rewrite Hcreate, Hdef.
      destruct r3 as [|r rs]; reflexivity.
Qed.

End regions.

(* ===================================================================== *)
(** ** The ECU lookup of [get_perfs] *)
(* ===================================================================== *)

Section ecu.
Import hybrid.

Lemma digits_value_uint (d : Decimal.uint) (a : nat) :
  digits_value (Z.of_nat a) false (chars (NilEmpty.string_of_uint d))
  = Some (Z.of_nat (Nat.of_uint_acc d a)).
Proof.
  unfold chars. revert a.
  induction d as [|d IH|d IH|d IH|d IH|d IH|d IH|d IH|d IH|d IH|d IH];
    intros a; [reflexivity|..];
    cbn [NilEmpty.string_of_uint String.list_ascii_of_string digits_value
         Nat.of_uint_acc];
    rewrite Nat.tail_mul_spec;
    match goal with
    | |- context [digit_of ?c] =>
        change (Ascii.eqb c "_") with false;
        let v := eval vm_compute in (digit_of c) in
        change (digit_of c) with v
    end;
    cbv iota; rewrite <- IH; f_equal; lia.
Qed.

Lemma to_uint_nonnil (n : nat) : Nat.to_uint n <> Decimal.Nil.
Proof.
  intros H. pose proof (DecimalNat.Unsigned.to_of (Nat.to_uint n)) as E.
  rewrite DecimalNat.Unsigned.of_to, H in E. discriminate.
Qed.

Lemma is_digit_not_space (c : ascii) : is_digit c -> is_space c = false.
Proof.
  unfold is_digit, is_space. intros H. cbv zeta.
  replace (N_of_ascii c <=? 13)%N with false
    by (symmetry; apply N.leb_gt; lia).
  replace (N_of_ascii c =? 32)%N with false
    by (symmetry; apply N.eqb_neq; lia).
  replace (N_of_ascii c =? 133)%N with false
    by (symmetry; apply N.eqb_neq; lia).
  replace (N_of_ascii c =? 160)%N with false
    by (symmetry; apply N.eqb_neq; lia).
  rewrite andb_false_r. reflexivity.
Qed.

Lemma is_digit_not_char (c x : ascii) :
  is_digit c -> ~ is_digit x -> Ascii.eqb c x = false.
Proof. intros Hc Hx. apply Ascii.eqb_neq. intros ->. contradiction. Qed.

Lemma lstrip_digits (l : list ascii) : Forall is_digit l -> lstrip l = l.
Proof.
  destruct l as [|c l]; [reflexivity|]. intros H. simpl.
  apply list.Forall_cons in H. destruct H as [Hc _].
  rewrite (is_digit_not_space c Hc). reflexivity.
Qed.

(** [int] reads back what [str] prints. *)
Lemma int_of_str_of_nat (n : nat) :
  int (CStr (Py.str_of_nat n)) = Ok (Z.of_nat n).
Proof.
  simpl. unfold int_of_str. fold (chars (Py.str_of_nat n)).
  pose proof (str_of_nat_digits n) as Hd.
  unfold strip. rewrite (lstrip_digits _ Hd).
  rewrite lstrip_digits by (apply Forall_reverse; exact Hd).
  rewrite reverse_involutive.
  pose proof (digits_value_uint (Nat.to_uint n) 0) as Hv.
  fold (Py.str_of_nat n) in Hv.
  change (Nat.of_uint_acc (Nat.to_uint n) 0) with
    (Nat.of_uint (Nat.to_uint n)) in Hv.
  rewrite DecimalNat.Unsigned.of_to in Hv. change (Z.of_nat 0) with 0 in Hv.
  destruct (chars (Py.str_of_nat n)) as [|c rest] eqn:E.
  - exfalso. unfold chars, Py.str_of_nat in E.
    destruct (Nat.to_uint n) eqn:En; try discriminate.
    exact (to_uint_nonnil n En).
  - apply list.Forall_cons in Hd. destruct Hd as [Hc _].
    assert (Hminus : ~ is_digit "-") by (unfold is_digit; simpl; lia).
    assert (Hplus : ~ is_digit "+") by (unfold is_digit; simpl; lia).
    assert (Hus : ~ is_digit "_") by (unfold is_digit; simpl; lia).
    rewrite (is_digit_not_char c "-" Hc Hminus).
    rewrite (is_digit_not_char c "+" Hc Hplus).
    unfold unsigned_value. rewrite (is_digit_not_char c "_" Hc Hus).
    rewrite Hv. reflexivity.
Qed.

Lemma get_perfs_lookup data h ics apps perf_factor perfs_per_ecu priv_ecus ic :
  ic ∈ ics ->
  Py.dict_get (ic_key h ic)
    (ps_values (get_perfs data h ics apps perf_factor perfs_per_ecu priv_ecus))
  = Some (perfs_of apps perfs_per_ecu (ecus_of data priv_ecus ic) perf_factor).
Proof.
  intros Hic. unfold get_perfs. simpl.
  apply (dict_get_fold_set (ic_key h)
           (fun ic' => perfs_of apps perfs_per_ecu
                         (ecus_of data priv_ecus ic') perf_factor)).
  - intros ic' _ Hkey. apply (f_equal key_name) in Hkey. simpl in Hkey.
    unfold ecus_of. rewrite Hkey. reflexivity.
  - right. exists ic. auto.
Qed.

Lemma ecus_of_first data priv_ecus ic r rest e :
  filter (fun r => Type_ r = InstanceClass.name ic) data = r :: rest ->
  int (ECU r) = Ok e ->
  ecus_of data priv_ecus ic = e.
Proof.
  intros Hrows He. unfold ecus_of, first_ECU. rewrite Hrows. simpl.
  rewrite He. reflexivity.
Qed.

Lemma perfs_of_no_baseline apps perfs_per_ecu ecus perf_factor j app :
  NoDup apps -> apps !! j = Some app -> perfs_per_ecu !! j = None ->
  Py.dict_get app (perfs_of apps perfs_per_ecu ecus perf_factor) = None.
Proof.
  intros Hnd Happ Hnone.
  destruct (Py.dict_get app _) as [v|] eqn:E; [|reflexivity].
  exfalso. unfold perfs_of, Py.dict_of in E.
  apply dict_get_Some_elem, elem_of_fold_dict_set in E.
  destruct E as [E|E]; [apply elem_of_nil in E; exact E|].
  apply list_elem_of_fmap in E. destruct E as ([a p] & [= -> _] & Hin).
  apply list_elem_of_lookup_1 in Hin. destruct Hin as [j' Hj'].
  apply lookup_zip_Some in Hj'. destruct Hj' as [Ha Hp].
  assert (j' = j) as -> by (eapply NoDup_lookup; eauto).
  congruence.
Qed.

(** X10. When the table has rows of the type of an instance class and the
    ECU cell of the first of them is a number e (as text, a numeral of at
    most 4300 characters, which every version of [int] reads), the
    performance of that
    instance class for the j-th application is the j-th baseline times e
    times the performance factor; only the first row of the type is read,
    and an application beyond the list of baselines gets no performance. *)
Theorem get_perfs_uses_first_ecu (data : list Row) (h : store)
    (ics : list InstanceClass.t) (apps : list App.t) (perf_factor : Z)
    (perfs_per_ecu : list Z) (priv_ecus : Z) (ic : InstanceClass.t)
    (r : Row) (rest : list Row) (e : Z) :
  ic ∈ ics ->
  filter (fun r => Type_ r = InstanceClass.name ic) data = r :: rest ->
  short_cell (ECU r) ->
  hybrid.int (ECU r) = Ok e ->
  Py.dict_get (hybrid.ic_key h ic)
    (hybrid.ps_values
       (hybrid.get_perfs data h ics apps perf_factor perfs_per_ecu priv_ecus))
  = Some (perfs_of apps perfs_per_ecu e perf_factor)
  /\ (NoDup apps ->
      forall j app, apps !! j = Some app ->
        Py.dict_get app (perfs_of apps perfs_per_ecu e perf_factor)
        = (fun perf => perf * e * perf_factor) <$> perfs_per_ecu !! j).
Proof.
  intros Hic Hrows _ He. split.
  - rewrite get_perfs_lookup by exact Hic.
    rewrite (ecus_of_first _ _ _ _ _ _ Hrows He). reflexivity.
  - intros Hnd j app Happ.
    destruct (perfs_per_ecu !! j) as [perf|] eqn:Hp; simpl.
    + apply (perfs_of_lookup _ _ _ _ j); assumption.
    + apply (perfs_of_no_baseline _ _ _ _ j); assumption.
Qed.

End ecu.

(* ===================================================================== *)
(** ** Reordering and the pairing of applications with workloads *)
(* ===================================================================== *)

Section reordering.
Import hybrid.

Lemma lookup_rotate {A} (l : list A) (k j : nat) :
  (k <= length l)%nat -> (j < length l)%nat ->
  (drop k l ++ take k l) !! j
  = l !! (if decide (j + k < length l)%nat then (j + k)%nat
          else (j + k - length l)%nat).
Proof.
  intros Hk Hj. destruct (decide (j + k < length l)%nat) as [Hlt|Hge].
  - rewrite lookup_app_l by (rewrite length_drop; lia).
    rewrite lookup_drop. f_equal. lia.
  - rewrite lookup_app_r by (rewrite length_drop; lia).
    rewrite length_drop, lookup_take_lt by lia. f_equal. lia.
Qed.

Lemma reordered_list_lookup {A} (l : list A) (z : Z) (j : nat) :
  - Z.of_nat (length l) <= z <= Z.of_nat (length l) ->
  (j < length l)%nat ->
  reordered_list l z !! j
  = l !! Z.to_nat ((Z.of_nat j + z) mod Z.of_nat (length l)).
Proof.
  intros Hz Hj. unfold reordered_list, Py.slice_from, Py.slice_to.
  set (k := Py.slice_bound l z).
  assert (Hk : Z.of_nat k = if z <? 0 then Z.of_nat (length l) + z else z).
  { subst k. unfold Py.slice_bound. destruct (z <? 0) eqn:E.
    - apply Z.ltb_lt in E. lia.
    - apply Z.ltb_ge in E. lia. }
  rewrite lookup_rotate by (destruct (z <? 0) eqn:E;
    [apply Z.ltb_lt in E | apply Z.ltb_ge in E]; lia).
  f_equal.
  set (n := Z.of_nat (length l)) in *.
  assert (Hn : 0 < n) by lia.
  destruct (z <? 0) eqn:E; [apply Z.ltb_lt in E | apply Z.ltb_ge in E];
    destruct (decide (j + k < length l)%nat) as [Hlt|Hge].
  - assert (E' : (Z.of_nat j + z) mod n = Z.of_nat j + z + n)
      by (symmetry; apply (Z.mod_unique _ _ (-1)); lia).
    rewrite E'. lia.
  - rewrite Z.mod_small by lia. lia.
  - rewrite Z.mod_small by lia. lia.
  - assert (E' : (Z.of_nat j + z) mod n = Z.of_nat j + z - n)
      by (symmetry; apply (Z.mod_unique _ _ 1); lia).
    rewrite E'. lia.
Qed.

Lemma length_list_mul {A} (l : list A) (n : Z) :
  length (Py.list_mul l n) = (Z.to_nat n * length l)%nat.
Proof.
  unfold Py.list_mul. induction (Z.to_nat n) as [|k IH]; [reflexivity|].
  simpl. rewrite length_app, IH. reflexivity.
Qed.

Lemma lookup_list_mul_mod {A} (l : list A) (n : Z) (i : nat) :
  (i < Z.to_nat n * length l)%nat ->
  Py.list_mul l n !! i = l !! (i mod length l)%nat.
Proof.
  unfold Py.list_mul. revert i.
  induction (Z.to_nat n) as [|k IH]; intros i Hi; [lia|]. simpl.
  assert (0 < length l)%nat by (destruct l; simpl in *; lia).
  destruct (decide (i < length l)%nat) as [Hlt|Hge].
  - rewrite lookup_app_l by exact Hlt. rewrite Nat.mod_small by exact Hlt.
    reflexivity.
  - rewrite lookup_app_r by lia. rewrite IH by (simpl in Hi; lia).
    f_equal.
    replace i with ((i - length l) + 1 * length l)%nat at 2 by lia.
    rewrite Nat.Div0.mod_add. reflexivity.
Qed.

(** X12. [reordered_list] rotates: the result is a permutation of the list
    of the same length, element j of the result is element
    (j + first_element) mod len of the list when first_element lies between
    -len and len, and a first_element beyond the length leaves the list as
    it is. *)
Theorem reordered_list_rotates {A} (l : list A) (first_element : Z) :
  hybrid.reordered_list l first_element ≡ₚ l
  /\ length (hybrid.reordered_list l first_element) = length l
  /\ (- Z.of_nat (length l) <= first_element <= Z.of_nat (length l) ->
      forall j, (j < length l)%nat ->
        hybrid.reordered_list l first_element !! j
        = l !! Z.to_nat ((Z.of_nat j + first_element)
                           mod Z.of_nat (length l)))
  /\ (Z.of_nat (length l) <= first_element ->
      hybrid.reordered_list l first_element = l).
Proof.
  assert (Hperm : reordered_list l first_element ≡ₚ l).
  { unfold reordered_list, Py.slice_from, Py.slice_to.
    rewrite Permutation_app_comm, take_drop. reflexivity. }
  split; [exact Hperm|]. split; [rewrite Hperm; reflexivity|].
  split; [intros Hz j Hj; apply reordered_list_lookup; assumption|].
  intros Hbig. unfold reordered_list, Py.slice_from, Py.slice_to.
  assert (Py.slice_bound l first_element = length l) as ->.
  { unfold Py.slice_bound.
    replace (first_element <? 0) with false by (symmetry; apply Z.ltb_ge; lia).
    lia. }
  rewrite drop_all, take_ge by lia. reflexivity.
Qed.

Lemma reordered_list_length {A} (l : list A) (z : Z) :
  length (reordered_list l z) = length l.
Proof.
  unfold reordered_list, Py.slice_from, Py.slice_to.
  rewrite length_app, length_drop, length_take. lia.
Qed.

Lemma factor_repeat_covers (n_apps : Z) :
  0 < n_apps -> 1 <= factor_repeat_of n_apps /\ n_apps <= 4 * factor_repeat_of n_apps.
Proof.
  intros Hn. unfold factor_repeat_of, N_AVAILABLE_WLS.
  pose proof (Z.div_mod (n_apps + 4 - 1) 4 ltac:(lia)) as Hdm.
  pose proof (Z.mod_pos_bound (n_apps + 4 - 1) 4 ltac:(lia)) as Hmod.
  lia.
Qed.

(** X13. With four workload series and a first application between -4 and
    4, application i of [solve_problem] gets workload series number
    (i + first_app) mod 4 and the baseline performance with the same
    number: workloads and baselines stay paired for every number of
    applications. *)
Theorem applications_pair_workloads_and_baselines (n_apps first_app : Z)
    (wls : list (list Z)) (i : nat) :
  length wls = 4%nat ->
  -4 <= first_app <= 4 ->
  Z.of_nat i < n_apps ->
  let src := Z.to_nat ((Z.of_nat i + first_app) mod 4) in
  hybrid.raw_workloads n_apps first_app wls !! i = wls !! src
  /\ hybrid.perfs_per_ecu_of n_apps first_app !! i
     = [1000; 500; 2000; 300] !! src.
Proof.
  intros Hlen Hfirst Hi src.
  destruct (factor_repeat_covers n_apps ltac:(lia)) as [Hfr Hcover].
  set (fr := factor_repeat_of n_apps) in *.
  assert (Hmod4 : (i mod 4 < 4)%nat) by (apply Nat.mod_upper_bound; lia).
  assert (Hsrc : Z.to_nat ((Z.of_nat (i mod 4) + first_app) mod 4) = src).
  { subst src. rewrite Nat2Z.inj_mod. change (Z.of_nat 4) with 4.
    rewrite Z.add_mod_idemp_l by lia. reflexivity. }
  split.
  - unfold raw_workloads, Py.slice_to. fold fr.
    rewrite lookup_take_lt.
    2:{ unfold Py.slice_bound.
        rewrite length_list_mul, reordered_list_length, Hlen.
        replace (n_apps <? 0) with false by (symmetry; apply Z.ltb_ge; lia).
        lia. }
    rewrite lookup_list_mul_mod
      by (rewrite reordered_list_length, Hlen; lia).
    rewrite reordered_list_length, Hlen.
    rewrite reordered_list_lookup by (rewrite Hlen; simpl; lia).
    rewrite Hlen. change (Z.of_nat 4) with 4. rewrite Hsrc. reflexivity.
  - unfold perfs_per_ecu_of. fold fr.
    set (base := [1000; 500; 2000; 300]).
    assert (Hl : length (Py.list_mul base fr) = (Z.to_nat fr * 4)%nat)
      by (rewrite length_list_mul; reflexivity).
    rewrite reordered_list_lookup by (rewrite Hl; lia).
    rewrite Hl.
    set (t := (Z.of_nat i + first_app) mod Z.of_nat (Z.to_nat fr * 4)).
    assert (Ht : 0 <= t < Z.of_nat (Z.to_nat fr * 4))
      by (apply Z.mod_pos_bound; lia).
    rewrite lookup_list_mul_mod by (simpl; lia).
    f_equal. change (length base) with 4%nat. subst src.
    assert (Hs : 0 <= (Z.of_nat i + first_app) mod 4 < 4)
      by (apply Z.mod_pos_bound; lia).
    apply Nat2Z.inj. rewrite Nat2Z.inj_mod.
    rewrite (Z2Nat.id t) by lia.
    rewrite (Z2Nat.id ((Z.of_nat i + first_app) mod 4)) by lia.
    subst t. change (Z.of_nat 4) with 4. apply Z.mod_mod_divide.
    exists (Z.of_nat (Z.to_nat fr)). lia.
Qed.

End reordering.

(* ===================================================================== *)
(** ** Further properties of the discretisation *)
(* ===================================================================== *)

Section discretisation_more.
Import hybrid.

Lemma round_up_fixed (q x : Z) : 0 < q -> (q | x) -> round_up q x = x.
Proof.
  intros Hq Hx. destruct (round_up_spec q x Hq) as (_ & Hb & Hmin).
  specialize (Hmin x Hx ltac:(lia)). lia.
Qed.

Lemma round_up_mono (q x x' : Z) :
  0 < q -> x <= x' -> round_up q x <= round_up q x'.
Proof.
  intros Hq Hx. unfold round_up. apply Z.mul_le_mono_nonneg_r; [lia|].
  apply Z.div_le_mono; lia.
Qed.

Lemma discretize_levels_eq workloads quanta :
  demand_shape workloads quanta ->
  discretize_levels workloads quanta
  = Ok ((fun wq : list Z * Z => round_up wq.2 <$> wq.1)
          <$> zip workloads quanta).
Proof.
  intros (Hlen & Hq & Hw & Hsame). unfold discretize_levels.
  rewrite bool_decide_eq_true_2 by exact Hlen.
  rewrite list.Forall_forall in Hq. rewrite list.Forall_forall in Hw.
  rewrite (for_each_Ok_fmap _ (fun wq => round_up wq.2 <$> wq.1)).
  - simpl. unfold np_array. rewrite same_lengths_true; [reflexivity|].
    intros r1 r2 H1 H2. apply list_elem_of_fmap in H1, H2.
    destruct H1 as ([w1 q1] & -> & H1), H2 as ([w2 q2] & -> & H2).
    simpl. rewrite !length_fmap.
    apply list_elem_of_lookup_1 in H1, H2.
    destruct H1 as [i1 H1], H2 as [i2 H2].
    apply lookup_zip_Some in H1, H2.
    apply Hsame; eapply list_elem_of_lookup_2; [apply H1 | apply H2].
  - intros [w q] Hwq. apply list_elem_of_lookup_1 in Hwq.
    destruct Hwq as [i Hi]. apply lookup_zip_Some in Hi.
    destruct Hi as [Hwi Hqi]. simpl.
    destruct (Hw w) as [Hne Hnn]; [eapply list_elem_of_lookup_2, Hwi|].
    apply discretize_series; [|exact Hne|exact Hnn].
    eapply Hq, list_elem_of_lookup_2, Hqi.
Qed.

(** X14. On well-formed demand the discretisation is tight and stable:
    each quantized value exceeds its demand by less than one quantum, a
    demand that already is a multiple of the quantum is unchanged, a larger
    demand never gets a smaller level, and quantizing the result again
    returns it unchanged. *)
Theorem discretize_levels_tight_and_idempotent workloads quanta :
  well_formed_demand workloads quanta ->
  exists quantized,
    hybrid.discretize_levels workloads quanta = Ok quantized
    /\ hybrid.discretize_levels quantized quanta = Ok quantized
    /\ forall i w q out, workloads !! i = Some w -> quanta !! i = Some q ->
         quantized !! i = Some out ->
         forall j x y, w !! j = Some x -> out !! j = Some y ->
           x <= y < x + q
           /\ ((q | x) -> y = x)
           /\ forall j' x' y', w !! j' = Some x' -> out !! j' = Some y' ->
                x <= x' -> y <= y'.
Proof.
  intros [Hwf _]. pose proof Hwf as (Hlen & Hq & Hw & Hsame).
  rewrite list.Forall_forall in Hq. rewrite list.Forall_forall in Hw.
  set (F := fun wq : list Z * Z => round_up wq.2 <$> wq.1).
  assert (Hlook : forall i w q, workloads !! i = Some w ->
            quanta !! i = Some q ->
            (F <$> zip workloads quanta) !! i = Some (round_up q <$> w)).
  { intros i w q Hwi Hqi. rewrite list_lookup_fmap.
    rewrite (proj2 (lookup_zip_Some workloads quanta i w q) (conj Hwi Hqi)).
    reflexivity. }
  exists (F <$> zip workloads quanta).
  split; [apply discretize_levels_eq; exact Hwf|]. split.
  - rewrite discretize_levels_eq.
    + f_equal. apply list_eq. intros i.
      rewrite !list_lookup_fmap.
      destruct (zip (F <$> zip workloads quanta) quanta !! i)
        as [[o q]|] eqn:E; simpl.
      * apply lookup_zip_Some in E. destruct E as [Ho Hqi].
        rewrite list_lookup_fmap in Ho.
        destruct (zip workloads quanta !! i) as [[w q']|] eqn:E';
          [|discriminate].
        simpl in Ho. injection Ho as <-.
        apply lookup_zip_Some in E'. destruct E' as [Hwi Hqi'].
        assert (q' = q) as -> by congruence. unfold F at 1. simpl.
        f_equal. rewrite <- list_fmap_compose. apply list_fmap_ext.
        intros _ x _. simpl. apply round_up_fixed.
        -- eapply Hq, list_elem_of_lookup_2, Hqi.
        -- apply round_up_spec. eapply Hq, list_elem_of_lookup_2, Hqi.
      * destruct (zip workloads quanta !! i) as [[w q]|] eqn:E';
          [|reflexivity].
        exfalso. apply lookup_zip_Some in E'. destruct E' as [Hwi Hqi].
        pose proof (Hlook i w q Hwi Hqi) as Ho.
        assert (Hz : zip (F <$> zip workloads quanta) quanta !! i
                     = Some (round_up q <$> w, q))
          by (apply lookup_zip_Some; auto).
        congruence.
    + split; [rewrite length_fmap, length_zip; lia|].
      split; [apply list.Forall_forall; exact Hq|]. split.
      * apply list.Forall_forall. intros o Ho.
        apply list_elem_of_fmap in Ho. destruct Ho as ([w q] & -> & Hin).
        apply list_elem_of_lookup_1 in Hin. destruct Hin as [i Hi].
        apply lookup_zip_Some in Hi. destruct Hi as [Hwi Hqi].
        destruct (Hw w) as [Hne Hnn]; [eapply list_elem_of_lookup_2, Hwi|].
        assert (Hqp : 0 < q) by (eapply Hq, list_elem_of_lookup_2, Hqi).
        unfold F. simpl. split.
        -- destruct w; [contradiction | discriminate].
        -- rewrite list.Forall_forall in Hnn. apply list.Forall_forall.
           intros y Hy. apply list_elem_of_fmap in Hy.
           destruct Hy as (x & -> & Hx).
           destruct (round_up_spec q x Hqp) as (_ & Hb & _).
           specialize (Hnn x Hx). lia.
      * intros o1 o2 H1 H2. apply list_elem_of_fmap in H1, H2.
        destruct H1 as ([w1 q1] & -> & H1), H2 as ([w2 q2] & -> & H2).
        unfold F. simpl. rewrite !length_fmap.
        apply list_elem_of_lookup_1 in H1, H2.
        destruct H1 as [i1 H1], H2 as [i2 H2].
        apply lookup_zip_Some in H1, H2.
        apply Hsame; eapply list_elem_of_lookup_2; [apply H1 | apply H2].
  - intros i w q out Hwi Hqi Hout j x y Hx Hy.
    rewrite (Hlook i w q Hwi Hqi) in Hout. injection Hout as <-.
    rewrite list_lookup_fmap, Hx in Hy. injection Hy as <-.
    assert (Hqp : 0 < q) by (eapply Hq, list_elem_of_lookup_2, Hqi).
    destruct (round_up_spec q x Hqp) as (_ & Hb & _).
    split; [exact Hb|]. split; [apply round_up_fixed; exact Hqp|].
    intros j' x' y' Hx' Hy' Hle.
    rewrite list_lookup_fmap, Hx' in Hy'. injection Hy' as <-.
    apply round_up_mono; assumption.
Qed.

Lemma for_each_raises {A B} (f : A -> result B) (l : list A) x e :
  x ∈ l -> f x = Raise e -> exists e', for_each f l = Raise e'.
Proof.
  induction l as [|y l IH]; intros Hx He.
  - apply elem_of_nil in Hx. contradiction.
  - simpl. destruct (f y) as [b|e0] eqn:E; simpl; [|eauto].
    apply elem_of_cons in Hx. destruct Hx as [->|Hx]; [congruence|].
    destruct (IH Hx He) as [e' ->]. simpl. eauto.
Qed.

Lemma discretize_body_rejects (w : list Z) (q : Z) :
  w = [] \/ q = 0 ->
  (m <- Py.max w ;;
   levels <- Py.range 0 (m + q) q ;;
   idx <- digitize_right w levels ;;
   take_at levels idx) = Raise ValueError.
Proof.
  intros H. destruct w as [|x w]; [reflexivity|].
  destruct H as [H| ->]; [discriminate|]. reflexivity.
Qed.

(** X15. A demand series that is empty, or a quantum that is zero, makes
    the discretisation raise: it never returns levels for such input. *)
Theorem discretize_levels_rejects workloads quanta i w q :
  length workloads = length quanta ->
  workloads !! i = Some w -> quanta !! i = Some q ->
  w = [] \/ q = 0 ->
  exists e, hybrid.discretize_levels workloads quanta = Raise e.
Proof.
  intros Hlen Hw Hq Hbad. unfold discretize_levels.
  rewrite bool_decide_eq_true_2 by exact Hlen.
  edestruct (for_each_raises
    (fun wq : list Z * Z =>
       let '(workload, quantum) := wq in
       m <- Py.max workload ;;
       levels <- Py.range 0 (m + quantum) quantum ;;
       idx <- digitize_right workload levels ;;
       take_at levels idx) (zip workloads quanta) (w, q)) as [e' He'].
  - eapply list_elem_of_lookup_2. apply lookup_zip_Some. eauto.
  - apply discretize_body_rejects. exact Hbad.
  - rewrite He'. simpl. eauto.
Qed.

(** X16. The quanta for quantisation factor zero are all zero, and the
    discretisation raises [ValueError] on them for any non-empty list of
    series: this is the case that the test on the factor in [solve_problem]
    keeps away from [discretize_levels]. *)
Theorem zero_factor_quanta_cannot_be_used (perf_list : list (list Z))
    (workloads : list (list Z)) :
  Forall (fun l => l <> []) perf_list ->
  length workloads = length perf_list ->
  workloads <> [] ->
  exists quanta,
    hybrid.get_quanta perf_list 0 = Ok quanta
    /\ Forall (fun q => q = 0) quanta
    /\ hybrid.discretize_levels workloads quanta = Raise ValueError.
Proof.
  intros Hne Hlen Hws. unfold get_quanta.
  set (gcd_of := fun l : list Z => match l with
                                   | [] => 0
                                   | x :: l' => fold_left Z.gcd l' x
                                   end).
  rewrite (for_each_Ok_fmap _ gcd_of).
  2:{ intros l Hl. rewrite list.Forall_forall in Hne. specialize (Hne l Hl).
      destruct l; [contradiction | reflexivity]. }
  simpl. eexists. split; [reflexivity|]. split.
  - apply list.Forall_forall. intros q Hq.
    apply list_elem_of_fmap in Hq. destruct Hq as (g & -> & _). lia.
  - unfold discretize_levels.
    rewrite bool_decide_eq_true_2 by (rewrite !length_fmap; exact Hlen).
    destruct workloads as [|w ws]; [contradiction|].
    destruct perf_list as [|l ls]; [discriminate|]. csimpl.
    rewrite Z.mul_0_r.
    rewrite (discretize_body_rejects w 0) by (right; reflexivity).
    reflexivity.
Qed.

Lemma take_at_out_of_range (levels : list Z) (idx : list nat) i :
  i ∈ idx -> levels !! i = None -> take_at levels idx = Raise IndexError.
Proof.
  intros Hi Hnone. unfold take_at. apply for_each_Raise.
  - intros k e _. destruct (levels !! k); [discriminate|].
    intros [= <-]. reflexivity.
  - exists i, IndexError. rewrite Hnone. auto.
Qed.

Lemma discretize_body_negative_quantum (w : list Z) (q : Z) :
  q < 0 -> Forall (fun x => 0 <= x) w -> (exists x, x ∈ w /\ 0 < x) ->
  (m <- Py.max w ;;
   levels <- Py.range 0 (m + q) q ;;
   idx <- digitize_right w levels ;;
   take_at levels idx) = Raise IndexError.
Proof.
  intros Hq Hnn (x & Hx & Hpos).
  destruct (max_Ok w) as (m & -> & Hmax).
  { intros ->. apply elem_of_nil in Hx. exact Hx. }
  pose proof (Hmax x Hx) as Hm. simpl.
  unfold Py.range, Py.range_len.
  replace (q =? 0) with false by (symmetry; apply Z.eqb_neq; lia).
  replace (0 <? q) with false by (symmetry; apply Z.ltb_ge; lia).
  destruct (m + q <? 0) eqn:E.
  - apply Z.ltb_lt in E.
    rewrite (Z.div_small (0 - (m + q) - 1) (- q)) by lia. simpl.
    apply (take_at_out_of_range _ _ (searchsorted_left [0 + 0 * q] x)).
    + apply list_elem_of_fmap_2. exact Hx.
    + unfold searchsorted_left. rewrite filter_cons_True by lia. reflexivity.
  - simpl.
    apply (take_at_out_of_range _ _ (searchsorted_left [] x)).
    + apply list_elem_of_fmap_2. exact Hx.
    + reflexivity.
Qed.

(** X17. With a negative quantum for the first series, which a negative
    quantisation factor produces, the discretisation raises [IndexError] as
    soon as that series holds a positive demand. *)
Theorem negative_quantum_raises (w : list Z) (q : Z)
    (workloads : list (list Z)) (quanta : list Z) :
  length workloads = length quanta ->
  q < 0 ->
  Forall (fun x => 0 <= x) w ->
  (exists x, x ∈ w /\ 0 < x) ->
  hybrid.discretize_levels (w :: workloads) (q :: quanta) = Raise IndexError.
Proof.
  intros Hlen Hq Hnn Hpos. unfold discretize_levels.
  rewrite bool_decide_eq_true_2 by (simpl; lia). csimpl.
  rewrite (discretize_body_negative_quantum w q Hq Hnn Hpos). reflexivity.
Qed.

(** X18. For a quantisation factor other than zero and well-formed demand,
    the workload that [solve_problem] attaches to application i is its raw
    series with every value rounded up to the next multiple of the i-th
    quantum. *)
Theorem nonzero_factor_rounds_every_workload (n_apps first_app quant_factor : Z)
    (wls : list (list Z)) (quanta : list Z) :
  quant_factor <> 0 ->
  let raw := hybrid.raw_workloads n_apps first_app wls in
  well_formed_demand raw quanta ->
  exists ltwp,
    hybrid.workloads_of n_apps first_app quant_factor wls quanta = Ok ltwp
    /\ forall i app series q,
         hybrid.apps_of n_apps !! i = Some app ->
         raw !! i = Some series -> quanta !! i = Some q ->
         ltwp !! i = Some (app, round_up q <$> series).
Proof.
  intros Hqf raw [Hwf _]. unfold workloads_of, quantize_step. fold raw.
  replace (quant_factor =? 0) with false by (symmetry; apply Z.eqb_neq; lia).
  simpl. rewrite (discretize_levels_eq raw quanta Hwf). simpl.
  eexists. split; [reflexivity|].
  intros i app series q Happ Hraw Hq. apply lookup_zip_Some.
  split; [exact Happ|]. apply lookup_list_mul.
  - apply lookup_lt_Some in Happ. unfold apps_of in Happ.
    rewrite length_fmap, length_seq in Happ.
    unfold factor_repeat_of, N_AVAILABLE_WLS.
    apply Z.div_le_lower_bound; lia.
  - rewrite list_lookup_fmap.
    rewrite (proj2 (lookup_zip_Some raw quanta i series q) (conj Hraw Hq)).
    reflexivity.
Qed.

End discretisation_more.

(* ===================================================================== *)
(** ** Floats that hold integers *)
(* ===================================================================== *)

Section floats.
Import binary64.

Lemma Qred_inject_Z (z : Z) : Qred (inject_Z z) = inject_Z z.
Proof.
  unfold Qred, inject_Z.
  pose proof (Z.ggcd_gcd z 1) as Hg.
  pose proof (Z.ggcd_correct_divisors z 1) as Hd.
  destruct (Z.ggcd z 1) as [g [aa bb]]. simpl in Hg. simpl.
  rewrite Z.gcd_1_r in Hg. subst g. destruct Hd as [Ha Hb].
  replace aa with z by lia. replace bb with 1 by lia. reflexivity.
Qed.

Lemma round_Qeq (x y : Q) : (x == y)%Q -> round x = round y.
Proof. intros H. unfold round. rewrite (Qred_complete x y H). reflexivity. Qed.

Lemma round_half_even_int (x : Q) (m : Z) :
  (x == inject_Z m)%Q -> round_half_even x = m.
Proof.
  intros H. unfold round_half_even.
  rewrite (Qfloor_comp _ _ H), Qfloor_Z.
  assert (x - inject_Z m == 0)%Q as H0 by (rewrite H; ring).
  rewrite H0. reflexivity.
Qed.

Lemma pow2_neg (k : Z) : 0 <= k -> (pow2 (- k) == / inject_Z (2 ^ k))%Q.
Proof.
  intros Hk. unfold pow2.
  destruct (Z.eq_dec k 0) as [->|Hne]; [reflexivity|].
  replace (0 <=? - k) with false by (symmetry; apply Z.leb_gt; lia).
  rewrite Z.opp_involutive.
  pose proof (Z.pow_pos_nonneg 2 k ltac:(lia) Hk) as Hpos.
  destruct (2 ^ k) as [|p|p] eqn:E; try lia. reflexivity.
Qed.

Lemma round_int (z : Z) : Z.abs z < 2 ^ 53 -> round (inject_Z z) = inject_Z z.
Proof.
  intros Hz. unfold round. rewrite Qred_inject_Z. cbv zeta.
  destruct (Z.eq_dec z 0) as [->|Hne]; [reflexivity|].
  assert (Qeq_bool (inject_Z z) 0 = false) as ->.
  { destruct (Qeq_bool (inject_Z z) 0) eqn:E; [|reflexivity].
    apply Qeq_bool_iff in E. unfold Qeq in E. simpl in E. lia. }
  change (Qabs (inject_Z z)) with (inject_Z (Z.abs z)).
  set (a := Z.abs z). assert (0 < a) as Ha by (unfold a; lia).
  pose proof (Z.log2_spec a Ha) as [Hlo Hhi].
  pose proof (Z.log2_nonneg a) as Hnn.
  assert (Z.log2 a < 53) as Hlog by (apply Z.log2_lt_pow2; [exact Ha|exact Hz]).
  assert (floor_log2 (inject_Z a) = Z.log2 a) as ->.
  { unfold floor_log2. cbn [Qnum Qden inject_Z].
    change (Z.log2 1) with 0. rewrite Z.sub_0_r.
    assert (Qle_bool (pow2 (Z.log2 a)) (inject_Z a) = true) as ->;
      [|reflexivity].
    apply Qle_bool_iff. unfold pow2.
    replace (0 <=? Z.log2 a) with true by (symmetry; apply Z.leb_le; lia).
    unfold Qle. simpl. lia. }
  set (k := 52 - Z.log2 a).
  replace (Z.max (Z.log2 a - 52) (-1074)) with (- k) by (unfold k; lia).
  assert (0 <= k) as Hk by (unfold k; lia).
  pose proof (Z.pow_pos_nonneg 2 k ltac:(lia) Hk) as Hpow.
  assert (~ inject_Z (2 ^ k) == 0)%Q as Hnz.
  { unfold Qeq. simpl. lia. }
  rewrite (round_half_even_int _ (a * 2 ^ k)).
  2:{ rewrite (pow2_neg k Hk), inject_Z_mult. field. exact Hnz. }
  assert (inject_Z (a * 2 ^ k) * pow2 (- k) == inject_Z a)%Q as Hy.
  { rewrite (pow2_neg k Hk), inject_Z_mult. field. exact Hnz. }
  transitivity (Qred (inject_Z z)); [|apply Qred_inject_Z].
  apply Qred_complete.
  destruct (Qle_bool 0 (inject_Z z)) eqn:Hs.
  - apply Qle_bool_iff in Hs. unfold Qle in Hs. simpl in Hs.
    transitivity (inject_Z a); [exact Hy|].
    unfold a. rewrite Z.abs_eq by lia. reflexivity.
  - assert (z < 0) as Hneg.
    { destruct (Z_lt_le_dec z 0) as [?|Hge]; [assumption|].
      assert (Qle_bool 0 (inject_Z z) = true); [|congruence].
      apply Qle_bool_iff. unfold Qle. simpl. lia. }
    transitivity (- inject_Z a)%Q; [apply Qopp_comp; exact Hy|].
    unfold a. rewrite Z.abs_neq by lia.
    rewrite inject_Z_opp. ring.
Qed.

Lemma of_int_exact (z : Z) : Z.abs z < 2 ^ 53 -> of_int z = inject_Z z.
Proof. apply round_int. Qed.

Lemma fmul_int (a b : Z) :
  Z.abs (a * b) < 2 ^ 53 -> fmul (inject_Z a) (inject_Z b) = inject_Z (a * b).
Proof.
  intros H. unfold fmul. rewrite <- (round_int _ H).
  apply round_Qeq. rewrite inject_Z_mult. reflexivity.
Qed.

End floats.

(* ===================================================================== *)
(** ** Resampling of a load *)
(* ===================================================================== *)

Section resampling.
Import resample_load.

Lemma filter_imap_none {A} (g : nat -> Z) (k : Z) (l : list A) :
  (forall i, (i < length l)%nat -> g i <> k) ->
  filter (fun kv : Z * A => kv.1 = k) (imap (fun i v => (g i, v)) l) = [].
Proof.
  revert g. induction l as [|x l IH]; intros g H; [reflexivity|].
  simpl. rewrite filter_cons_False by (simpl; apply H; simpl; lia).
  apply (IH (g ∘ S)). intros i Hi. apply H. simpl; lia.
Qed.

Lemma filter_imap_all {A} (g : nat -> Z) (k : Z) (l : list A) :
  (forall i, (i < length l)%nat -> g i = k) ->
  snd <$> filter (fun kv : Z * A => kv.1 = k) (imap (fun i v => (g i, v)) l)
  = l.
Proof.
  revert g. induction l as [|x l IH]; intros g H; [reflexivity|].
  simpl. rewrite filter_cons_True by (simpl; apply H; simpl; lia).
  simpl. f_equal. apply (IH (g ∘ S)). intros i Hi. apply H. simpl; lia.
Qed.

Lemma keys_of_imap {A} (g : nat -> Z) (l : list A) :
  fst <$> imap (fun i v => (g i, v)) l = g <$> seq 0 (length l).
Proof.
  revert g. induction l as [|x l IH]; intros g; [reflexivity|].
  simpl. f_equal. rewrite <- fmap_S_seq, <- list_fmap_compose.
  apply (IH (g ∘ S)).
Qed.

Lemma values_of_imap {A} (g : nat -> Z) (l : list A) :
  snd <$> imap (fun i v => (g i, v)) l = l.
Proof.
  revert g. induction l as [|x l IH]; intros g; [reflexivity|].
  simpl. f_equal. apply (IH (g ∘ S)).
Qed.

Lemma key_of_position (n x k : nat) :
  (0 < n)%nat ->
  Z.of_nat x / Z.of_nat n = Z.of_nat k <-> (k * n <= x < k * n + n)%nat.
Proof.
  intros Hn.
  pose proof (Z.div_mod (Z.of_nat x) (Z.of_nat n) ltac:(lia)) as Hdm.
  pose proof (Z.mod_pos_bound (Z.of_nat x) (Z.of_nat n) ltac:(lia)) as Hb.
  split.
  - intros Hk. rewrite Hk in Hdm. nia.
  - intros Hx. symmetry.
    apply (Z.div_unique _ _ _ (Z.of_nat x - Z.of_nat k * Z.of_nat n)); nia.
Qed.

Lemma group_is_block (n k : nat) (l : list Z) :
  (0 < n)%nat ->
  snd <$> filter (fun kv : Z * Z => kv.1 = Z.of_nat k)
            (imap (fun x v => (Z.of_nat x / Z.of_nat n, v)) l)
  = take n (drop (k * n) l).
Proof.
  intros Hn. destruct (decide (k * n <= length l)%nat) as [Hle|Hgt].
  - rewrite <- (take_drop (k * n) l) at 1.
    rewrite imap_app, list.filter_app, fmap_app.
    rewrite filter_imap_none; cycle 1.
    { intros i Hi. rewrite length_take in Hi.
      rewrite key_of_position by exact Hn. lia. }
    simpl. rewrite length_take, Nat.min_l by exact Hle.
    rewrite <- (take_drop n (drop (k * n) l)) at 1.
    rewrite imap_app, list.filter_app, fmap_app.
    rewrite (filter_imap_none _ _ (drop n (drop (k * n) l))); cycle 1.
    { intros i Hi.
      assert (n <= length (drop (k * n) l))%nat as Hlen.
      { rewrite !length_drop in Hi. rewrite length_drop. lia. }
      rewrite length_take, Nat.min_l by exact Hlen.
      rewrite key_of_position by exact Hn. lia. }
    rewrite app_nil_r.
    apply (filter_imap_all (fun i => Z.of_nat (k * n + i) / Z.of_nat n)).
    intros i Hi. rewrite length_take in Hi.
    apply key_of_position; [exact Hn | lia].
  - rewrite drop_ge by lia. rewrite take_nil.
    rewrite filter_imap_none; [reflexivity|].
    intros i Hi. rewrite key_of_position by exact Hn. lia.
Qed.

Lemma sorted_naturals (s m : nat) :
  StronglySorted Z.le (Z.of_nat <$> seq s m).
Proof.
  revert s. induction m as [|m IH]; intros s; simpl; constructor.
  - apply IH.
  - apply list.Forall_forall. intros x Hx.
    apply list_elem_of_fmap in Hx as (i & -> & Hi).
    apply elem_of_seq in Hi. lia.
Qed.

Lemma number_of_blocks (n len : nat) :
  (0 < n)%nat ->
  forall k, (k < (len + n - 1) / n)%nat <-> (k * n < len)%nat.
Proof.
  intros Hn k.
  pose proof (Nat.div_mod_eq (len + n - 1) n) as Hdm.
  pose proof (Nat.mod_upper_bound (len + n - 1) n ltac:(lia)) as Hb.
  split; intros H; nia.
Qed.

Lemma sorted_keys (n : nat) (l : list Z) :
  (0 < n)%nat ->
  merge_sort Z.le
    (remove_dups (fst <$> imap (fun x v => (Z.of_nat x / Z.of_nat n, v)) l))
  = Z.of_nat <$> seq 0 ((length l + n - 1) / n).
Proof.
  intros Hn. apply (StronglySorted_unique Z.le).
  - apply StronglySorted_merge_sort; apply _.
  - apply sorted_naturals.
  - apply NoDup_Permutation.
    + rewrite merge_sort_Permutation. apply NoDup_remove_dups.
    + apply NoDup_fmap_2; [apply _ | apply NoDup_seq].
    + intros x. rewrite merge_sort_Permutation, elem_of_remove_dups.
      rewrite keys_of_imap, !list_elem_of_fmap. split.
      * intros (i & -> & Hi). apply elem_of_seq in Hi.
        exists (i / n)%nat. split.
        { rewrite Nat2Z.inj_div. reflexivity. }
        apply elem_of_seq. split; [lia|]. simpl.
        apply number_of_blocks; [exact Hn|].
        pose proof (Nat.div_mod_eq i n). nia.
      * intros (k & -> & Hk). apply elem_of_seq in Hk.
        exists (k * n)%nat. split.
        { symmetry. apply key_of_position; [exact Hn | lia]. }
        apply elem_of_seq. split; [lia|]. simpl.
        apply number_of_blocks; [exact Hn | lia].
Qed.

Lemma groupby_blocks (df : list Z) (nseconds : Z) :
  0 < nseconds ->
  groupby df nseconds = inr (blocks (Z.to_nat nseconds) df).
Proof.
  intros Hn. set (n := Z.to_nat nseconds).
  assert (nseconds = Z.of_nat n) as Hnn by lia.
  clearbody n. subst nseconds.
  unfold groupby, blocks. destruct df as [|x df].
  - simpl. rewrite Nat.div_small by lia. reflexivity.
  - replace (Z.of_nat n =? 0) with false by (symmetry; apply Z.eqb_neq; lia).
    f_equal. set (l := x :: df). cbv zeta.
    rewrite sorted_keys by lia.
    rewrite <- list_fmap_compose. apply list_fmap_ext.
    intros i k _. apply (group_is_block n k l). lia.
Qed.

Lemma percentile_used_None (percentile : option Q) :
  percentile_used percentile = None <-> percentile_not_used percentile.
Proof.
  destruct percentile as [p|]; simpl; [|tauto].
  destruct (Qeq_bool p 0) eqn:Heq.
  - apply Qeq_bool_iff in Heq. split; [|reflexivity].
    intros _. rewrite Heq. apply Qle_refl.
  - destruct (Qle_bool p 0) eqn:Hle.
    + apply Qle_bool_iff in Hle. tauto.
    + split; [discriminate|]. intros H. apply Qle_bool_iff in H. congruence.
Qed.

Lemma percentile_used_Some (percentile : option Q) (q : Q) :
  percentile_used percentile = Some q
  <-> percentile = Some q /\ (0 < q)%Q.
Proof.
  destruct percentile as [p|]; simpl.
  - destruct (Qeq_bool p 0) eqn:Heq.
    + apply Qeq_bool_iff in Heq. split; [discriminate|].
      intros [[= ->] Hq]. rewrite Heq in Hq.
      exfalso. exact (Qlt_irrefl 0 Hq).
    + destruct (Qle_bool p 0) eqn:Hle.
      * apply Qle_bool_iff in Hle. split; [discriminate|].
        intros [[= ->] Hq]. exfalso. exact (Qlt_not_le _ _ Hq Hle).
      * split.
        { intros [= ->]. split; [reflexivity|]. apply Qnot_le_lt.
          intros H. apply Qle_bool_iff in H. congruence. }
        { intros [[= ->] _]. reflexivity. }
  - split; [discriminate | intros [[=] _]].
Qed.

(** X19. With a positive period and no percentile in use, summing mode
    returns one value per block of [nseconds] consecutive values, the last
    block possibly shorter, and that value is the sum of the block, for a
    load whose sums fit 64 bits. *)
Theorem totalsum_gives_block_sums (df : list Z) (percentile : option Q)
    (nseconds : Z) :
  0 < nseconds ->
  percentile_not_used percentile ->
  int64_load df ->
  resample_load.resample_dataframe df percentile true nseconds
  = inr (resample_load.sum <$> blocks (Z.to_nat nseconds) df).
Proof.
  intros Hn Hp _. unfold resample_dataframe.
  rewrite (groupby_blocks df nseconds Hn).
  rewrite (proj2 (percentile_used_None percentile) Hp). reflexivity.
Qed.

Lemma sum_cons (x : Z) (l : list Z) :
  resample_load.sum (x :: l) = x + resample_load.sum l.
Proof. reflexivity. Qed.

Lemma sum_fmap_zero {A} (l : list A) :
  resample_load.sum ((fun _ => 0) <$> l) = 0.
Proof.
  induction l as [|x l IH]; [reflexivity|].
  rewrite fmap_cons, sum_cons, IH. reflexivity.
Qed.

Lemma sum_fmap_plus {A} (f g : A -> Z) (l : list A) :
  resample_load.sum ((fun k => f k + g k) <$> l)
  = resample_load.sum (f <$> l) + resample_load.sum (g <$> l).
Proof.
  induction l as [|x l IH]; [reflexivity|].
  rewrite !fmap_cons, !sum_cons, IH. lia.
Qed.

Lemma sum_indicator (k0 v : Z) (ks : list Z) :
  NoDup ks -> k0 ∈ ks ->
  resample_load.sum ((fun k => if decide (k0 = k) then v else 0) <$> ks) = v.
Proof.
  induction 1 as [|k ks Hnotin Hnd IH]; intros Hin.
  - apply elem_of_nil in Hin. destruct Hin.
  - rewrite fmap_cons, sum_cons. destruct (decide (k0 = k)) as [->|Hne].
    + assert (resample_load.sum
                ((fun k' => if decide (k = k') then v else 0) <$> ks) = 0)
        as ->; [|lia].
      etrans; [|apply (sum_fmap_zero ks)]. f_equal.
      apply list_fmap_ext. intros i k' Hk'.
      destruct (decide (k = k')) as [->|]; [|reflexivity].
      exfalso. apply Hnotin. eapply list_elem_of_lookup_2. exact Hk'.
    + apply elem_of_cons in Hin as [?|Hin]; [congruence|].
      rewrite (IH Hin). lia.
Qed.

Lemma groups_partition (rows : list (Z * Z)) (ks : list Z) :
  NoDup ks -> (forall kv, kv ∈ rows -> kv.1 ∈ ks) ->
  resample_load.sum
    ((fun k => resample_load.sum
                 (snd <$> filter (fun kv : Z * Z => kv.1 = k) rows)) <$> ks)
  = resample_load.sum (snd <$> rows).
Proof.
  intros Hnd. induction rows as [|[k0 v] rows IH]; intros Hks.
  - apply sum_fmap_zero.
  - transitivity
      (resample_load.sum
         ((fun k => (if decide (k0 = k) then v else 0)
                    + resample_load.sum
                        (snd <$> filter (fun kv : Z * Z => kv.1 = k) rows))
            <$> ks)).
    + f_equal. apply list_fmap_ext. intros i k _.
      rewrite filter_cons. simpl.
      destruct (decide (k0 = k)); reflexivity.
    + rewrite sum_fmap_plus, sum_indicator, IH; try assumption.
      * reflexivity.
      * intros kv Hkv. apply Hks. apply elem_of_cons. auto.
      * apply (Hks (k0, v)). apply elem_of_cons. auto.
Qed.

(** X20. Whatever the non-zero period, also a negative one, summing mode
    returns a series with the same total as the load, for a load whose sums
    fit 64 bits. *)
Theorem totalsum_conserves_the_total (df : list Z) (percentile : option Q)
    (nseconds : Z) :
  nseconds <> 0 ->
  percentile_not_used percentile ->
  int64_load df ->
  exists rph,
    resample_load.resample_dataframe df percentile true nseconds = inr rph
    /\ resample_load.sum rph = resample_load.sum df.
Proof.
  intros Hn Hp _. unfold resample_dataframe, groupby.
  rewrite (proj2 (percentile_used_None percentile) Hp).
  destruct df as [|x df]; [exists []; split; reflexivity|].
  replace (nseconds =? 0) with false by (symmetry; apply Z.eqb_neq; lia).
  eexists. split; [reflexivity|].
  set (rows := imap (fun x v => (Z.of_nat x / nseconds, v)) (x :: df)).
  rewrite <- list_fmap_compose.
  rewrite <- (values_of_imap (fun x => Z.of_nat x / nseconds) (x :: df)).
  fold rows. apply (groups_partition rows).
  - rewrite merge_sort_Permutation. apply NoDup_remove_dups.
  - intros kv Hkv. rewrite merge_sort_Permutation, elem_of_remove_dups.
    apply list_elem_of_fmap. exists kv. auto.
Qed.

(** X21. For a load of 64-bit integers and a period in the 64-bit range,
    [resample_dataframe] returns a series exactly when the period is not
    zero and either a percentile in (0, 1] is given or no percentile is in
    use and summing mode is on; otherwise it raises. *)
Theorem resample_returns_iff (df : list Z) (percentile : option Q)
    (totalsum : bool) (nseconds : Z) :
  int64_values df ->
  - 2 ^ 63 <= nseconds < 2 ^ 63 ->
  (exists rph,
     resample_load.resample_dataframe df percentile totalsum nseconds
     = inr rph)
  <-> nseconds <> 0
      /\ ((exists q, percentile = Some q /\ (0 < q)%Q /\ (q <= 1)%Q)
          \/ (percentile_not_used percentile /\ totalsum = true)).
Proof.
  intros [Hne _] _. unfold resample_dataframe. split.
  - intros [rph H].
    destruct (groupby df nseconds) as [e|groups] eqn:Hg; [discriminate|].
    split.
    + unfold groupby in Hg. destruct df; [congruence|].
      destruct (nseconds =? 0) eqn:E; [discriminate|].
      apply Z.eqb_neq. exact E.
    + destruct (percentile_used percentile) as [q|] eqn:Hp.
      * apply percentile_used_Some in Hp as [-> Hq].
        destruct (Qle_bool q 1) eqn:Hle; [|discriminate].
        apply Qle_bool_iff in Hle. left. eauto.
      * apply percentile_used_None in Hp.
        destruct totalsum; [auto | discriminate].
  - intros [Hn Hmode].
    assert (exists groups, groupby df nseconds = inr groups) as [groups ->].
    { unfold groupby. destruct df as [|x df]; [eauto|].
      replace (nseconds =? 0) with false
        by (symmetry; apply Z.eqb_neq; lia).
      eauto. }
    destruct Hmode as [(q & -> & Hq & Hle)|[Hp ->]].
    + rewrite (proj2 (percentile_used_Some (Some q) q) (conj eq_refl Hq)).
      rewrite (proj2 (Qle_bool_iff q 1) Hle). eauto.
    + rewrite (proj2 (percentile_used_None percentile) Hp). eauto.
Qed.

Lemma sorted_last_is_greatest (s : list Z) (x : Z) :
  StronglySorted Z.le s -> s !! (length s - 1)%nat = Some x ->
  forall y, y ∈ s -> y <= x.
Proof.
  intros Hs Hx y Hy. apply list_elem_of_lookup_1 in Hy as [j Hj].
  pose proof (lookup_lt_Some _ _ _ Hj) as Hlt.
  destruct (decide (j = length s - 1)%nat) as [->|Hne].
  - assert (x = y) by congruence. lia.
  - rewrite <- (take_drop (length s - 1) s) in Hs.
    apply (StronglySorted_app_1_elem_of _ _ _ y x Hs).
    + apply (list_elem_of_lookup_2 _ j). rewrite lookup_take_lt by lia.
      exact Hj.
    + apply (list_elem_of_lookup_2 _ 0). rewrite lookup_drop.
      rewrite Nat.add_0_r. exact Hx.
Qed.

Lemma quantile_one (group : list Z) :
  group <> [] ->
  Z.of_nat (length group) <= 2 ^ 53 ->
  Forall (fun x => Z.abs x < 2 ^ 53) group ->
  exists m, quantile 1 group = inject_Z m
            /\ m ∈ group /\ forall y, y ∈ group -> y <= m.
Proof.
  intros Hne Hlen53 Hsmall. unfold quantile.
  set (z := Z.of_nat (length group) - 1).
  assert (0 < length group)%nat as Hpos.
  { destruct group; [congruence | simpl; lia]. }
  assert (binary64.fmul 1 (binary64.of_int z) = inject_Z z) as Hrank.
  { rewrite of_int_exact by (unfold z; lia).
    change 1%Q with (inject_Z 1).
    rewrite fmul_int by (unfold z; lia). f_equal. lia. }
  cbv zeta. rewrite Hrank, Qfloor_Z.
  assert (Qeq_bool (inject_Z z - inject_Z z) 0 = true) as ->.
  { apply Qeq_bool_iff. ring. }
  set (s := merge_sort Z.le group).
  assert (length s = length group) as Hlen.
  { unfold s. rewrite merge_sort_Permutation. reflexivity. }
  assert (Z.to_nat z = (length s - 1)%nat) as -> by (unfold z; lia).
  destruct (lookup_lt_is_Some_2 s (length s - 1)%nat ltac:(lia)) as [m Hm].
  assert (m ∈ group) as Hin.
  { rewrite <- (merge_sort_Permutation Z.le group). fold s.
    eapply list_elem_of_lookup_2. exact Hm. }
  exists m. rewrite list_lookup_fmap, Hm. simpl.
  rewrite of_int_exact
    by (exact (proj1 (list.Forall_forall _ _) Hsmall m Hin)).
  split; [reflexivity|]. split; [exact Hin|].
  intros y Hy. apply (sorted_last_is_greatest s m); [|exact Hm|].
  - apply StronglySorted_merge_sort; apply _.
  - unfold s. rewrite merge_sort_Permutation. exact Hy.
Qed.

Lemma astype_int_inject_Z (m : Z) : astype_int (inject_Z m) = m.
Proof. unfold astype_int, inject_Z. cbn [Qnum Qden]. apply Z.quot_1_r. Qed.

Lemma block_lookup (n k : nat) (l b : list Z) :
  (0 < n)%nat -> blocks n l !! k = Some b ->
  b = take n (drop (k * n) l) /\ (k * n < length l)%nat.
Proof.
  intros Hn Hb. unfold blocks in Hb. rewrite list_lookup_fmap in Hb.
  destruct (seq 0 ((length l + n - 1) / n) !! k) as [k'|] eqn:Hk;
    [|discriminate].
  apply lookup_seq in Hk as [-> Hk]. simpl in Hb. injection Hb as <-.
  apply number_of_blocks in Hk; [|exact Hn]. auto.
Qed.

Lemma block_not_empty (n k : nat) (l b : list Z) :
  (0 < n)%nat -> blocks n l !! k = Some b -> b <> [].
Proof.
  intros Hn Hb. destruct (block_lookup n k l b Hn Hb) as [-> Hk].
  intros Hnil. apply (f_equal length) in Hnil.
  rewrite length_take, length_drop in Hnil. simpl in Hnil. lia.
Qed.

(** X22. With percentile 1 and a positive period, each returned value is
    the greatest value of its block multiplied by the period, whether or
    not summing mode is on, as long as the period and the products of the
    values with the period are below 2^53, where floats hold integers
    exactly. *)
Theorem full_percentile_is_block_maximum (df : list Z) (totalsum : bool)
    (nseconds : Z) :
  0 < nseconds < 2 ^ 53 ->
  Forall (fun x => Z.abs x * nseconds < 2 ^ 53) df ->
  exists rph,
    resample_load.resample_dataframe df (Some 1%Q) totalsum nseconds = inr rph
    /\ length rph = length (blocks (Z.to_nat nseconds) df)
    /\ forall k b, blocks (Z.to_nat nseconds) df !! k = Some b ->
         exists m, rph !! k = Some (m * nseconds)
                   /\ m ∈ b /\ forall y, y ∈ b -> y <= m.
Proof.
  intros [Hn Hn53] Hsmall. unfold resample_dataframe.
  rewrite (groupby_blocks df nseconds Hn).
  change (percentile_used (Some 1%Q)) with (Some 1%Q).
  change (Qle_bool 1 1) with true. cbv iota beta.
  eexists. split; [reflexivity|]. split; [apply length_fmap|].
  intros k b Hb. rewrite list_lookup_fmap, Hb. simpl.
  destruct (block_lookup (Z.to_nat nseconds) k df b ltac:(lia) Hb)
    as [Hbeq _].
  assert (forall x, x ∈ b -> x ∈ df) as Hsub.
  { intros x Hx. subst b.
    apply (elem_of_sublist _ _ _ Hx).
    transitivity (drop (k * Z.to_nat nseconds) df);
      [apply sublist_take | apply sublist_drop]. }
  assert (forall x, x ∈ b -> Z.abs x * nseconds < 2 ^ 53) as Hb53.
  { intros x Hx. apply (proj1 (list.Forall_forall _ _) Hsmall x), Hsub, Hx. }
  destruct (quantile_one b) as (m & Hq & Hin & Hmax).
  { apply (block_not_empty (Z.to_nat nseconds) k df); [lia | exact Hb]. }
  { subst b. rewrite length_take. lia. }
  { apply list.Forall_forall. intros x Hx. pose proof (Hb53 x Hx).
    pose proof (Z.abs_nonneg x). nia. }
  exists m. rewrite Hq.
  rewrite of_int_exact by (rewrite Z.abs_eq by lia; lia).
  rewrite fmul_int
    by (rewrite Z.abs_mul, (Z.abs_eq nseconds) by lia; apply Hb53, Hin).
  rewrite astype_int_inject_Z. auto.
Qed.

Lemma split_commas_not_nil (s : string) : split_commas s <> [].
Proof.
  induction s as [|c s IH]; simpl; [discriminate|].
  destruct (split_commas s) as [|piece rest]; [congruence|].
  destruct (Ascii.eqb c ","); discriminate.
Qed.

Lemma split_commas_plain (s : string) :
  Forall (fun c => c <> ","%char) (chars s) -> split_commas s = [s].
Proof.
  unfold chars. induction s as [|c s IH]; intros H; [reflexivity|].
  simpl in H. apply list.Forall_cons in H as [Hc H].
  simpl. rewrite (IH H).
  apply Ascii.eqb_neq in Hc. rewrite Hc. reflexivity.
Qed.

Lemma split_commas_joined (s t : string) :
  Forall (fun c => c <> ","%char) (chars s) ->
  split_commas (s +:+ "," +:+ t) = s :: split_commas t.
Proof.
  unfold chars. induction s as [|c s IH]; intros H.
  - change ("" +:+ "," +:+ t) with (String "," t). simpl.
    destruct (split_commas t) as [|piece rest] eqn:E; [|reflexivity].
    exfalso. exact (split_commas_not_nil t E).
  - simpl in H. apply list.Forall_cons in H as [Hc H].
    change (String c s +:+ "," +:+ t) with (String c (s +:+ "," +:+ t)).
    simpl. rewrite (IH H).
    apply Ascii.eqb_neq in Hc. rewrite Hc. reflexivity.
Qed.

Lemma split_commas_concat (pieces : list string) :
  pieces <> [] ->
  Forall (fun s => Forall (fun c => c <> ","%char) (chars s)) pieces ->
  split_commas (String.concat "," pieces) = pieces.
Proof.
  induction pieces as [|s pieces IH]; intros Hne H; [congruence|].
  apply list.Forall_cons in H as [Hs H].
  destruct pieces as [|s' pieces].
  - simpl. apply split_commas_plain. exact Hs.
  - change (String.concat "," (s :: s' :: pieces))
      with (s +:+ "," +:+ String.concat "," (s' :: pieces)).
    rewrite (split_commas_joined _ _ Hs). f_equal.
    apply IH; [discriminate | exact H].
Qed.

Lemma digit_is_not_comma (c : ascii) : is_digit c -> c <> ","%char.
Proof. intros H ->. unfold is_digit in H. simpl in H. lia. Qed.

Lemma str_of_int_no_comma (z : Z) :
  Forall (fun c => c <> ","%char) (chars (str_of_int z)).
Proof.
  unfold str_of_int. destruct (z <? 0).
  - change (chars (String "-" (Py.str_of_nat (Z.to_nat (- z)))))
      with ("-"%char :: chars (Py.str_of_nat (Z.to_nat (- z)))).
    apply list.Forall_cons. split; [discriminate|].
    eapply list.Forall_impl; [apply str_of_nat_digits|].
    intros c. apply digit_is_not_comma.
  - eapply list.Forall_impl; [apply str_of_nat_digits|].
    intros c. apply digit_is_not_comma.
Qed.

Lemma int_of_str_minus (n : nat) :
  hybrid.int_of_str (String "-" (Py.str_of_nat n)) = Ok (- Z.of_nat n).
Proof.
  unfold hybrid.int_of_str.
  change (String.list_ascii_of_string (String "-" (Py.str_of_nat n)))
    with ("-"%char :: chars (Py.str_of_nat n)).
  pose proof (str_of_nat_digits n) as Hd.
  pose proof (digits_value_uint (Nat.to_uint n) 0) as Hv.
  fold (Py.str_of_nat n) in Hv.
  change (Nat.of_uint_acc (Nat.to_uint n) 0) with
    (Nat.of_uint (Nat.to_uint n)) in Hv.
  rewrite DecimalNat.Unsigned.of_to in Hv. change (Z.of_nat 0) with 0 in Hv.
  destruct (chars (Py.str_of_nat n)) as [|c rest] eqn:E.
  { exfalso. unfold chars, Py.str_of_nat in E.
    destruct (Nat.to_uint n) eqn:En; try discriminate.
    exact (to_uint_nonnil n En). }
  assert (hybrid.strip ("-"%char :: c :: rest) = "-"%char :: c :: rest) as ->.
  { unfold hybrid.strip.
    change (hybrid.lstrip ("-"%char :: c :: rest)) with ("-"%char :: c :: rest).
    rewrite reverse_cons.
    assert (hybrid.lstrip (reverse (c :: rest) ++ ["-"%char])
            = reverse (c :: rest) ++ ["-"%char]) as ->.
    { destruct (reverse (c :: rest)) as [|c' r] eqn:Er.
      - reflexivity.
      - simpl. assert (is_digit c') as Hc'.
        { apply (proj1 (list.Forall_forall _ _) (proj2 (Forall_reverse _ _) Hd)).
          rewrite Er. apply elem_of_cons. auto. }
        rewrite (is_digit_not_space c' Hc'). reflexivity. }
    rewrite <- reverse_cons. apply reverse_involutive. }
  change (Ascii.eqb "-" "-") with true. cbv iota.
  apply list.Forall_cons in Hd. destruct Hd as [Hc _].
  assert (Hus : ~ is_digit "_") by (unfold is_digit; simpl; lia).
  unfold hybrid.unsigned_value. rewrite (is_digit_not_char c "_" Hc Hus).
  rewrite Hv. reflexivity.
Qed.

Lemma int_of_str_of_int (z : Z) :
  hybrid.int_of_str (str_of_int z) = Ok z.
Proof.
  unfold str_of_int. destruct (z <? 0) eqn:E.
  - apply Z.ltb_lt in E. rewrite int_of_str_minus. f_equal. lia.
  - apply Z.ltb_ge in E.
    pose proof (int_of_str_of_nat (Z.to_nat z)) as H. simpl in H.
    rewrite H. f_equal. lia.
Qed.

Lemma read_back (rph : list Z) :
  for_each hybrid.int_of_str (str_of_int <$> rph) = Ok rph.
Proof.
  induction rph as [|z rph IH]; [reflexivity|].
  rewrite fmap_cons. cbn [for_each]. rewrite int_of_str_of_int.
  cbn [bind]. rewrite IH. reflexivity.
Qed.

Lemma load_dataframe_text (rph : list Z) :
  rph <> [] ->
  load_dataframe (String.concat "," (str_of_int <$> rph)) = inr rph.
Proof.
  intros Hne. unfold load_dataframe. rewrite split_commas_concat.
  - rewrite read_back. reflexivity.
  - destruct rph; [congruence | discriminate].
  - apply list.Forall_forall. intros s Hs.
    apply list_elem_of_fmap in Hs as (z & -> & _).
    apply str_of_int_no_comma.
Qed.

Lemma for_each_length {A B} (f : A -> result B) (l : list A) (r : list B) :
  for_each f l = Ok r -> length r = length l.
Proof.
  revert r. induction l as [|x l IH]; intros r H.
  - injection H as <-. reflexivity.
  - simpl in H. destruct (f x) as [y|e]; [|discriminate]. simpl in H.
    destruct (for_each f l) as [ys|e]; [|discriminate]. simpl in H.
    injection H as <-. simpl. rewrite (IH ys eq_refl). reflexivity.
Qed.

Lemma load_dataframe_not_empty (content : string) (df : list Z) :
  load_dataframe content = inr df -> df <> [].
Proof.
  unfold load_dataframe.
  destruct (for_each hybrid.int_of_str (split_commas content)) as [r|e] eqn:E;
    [|discriminate].
  intros [= <-] ->. apply for_each_length in E.
  pose proof (split_commas_not_nil content) as Hne.
  destruct (split_commas content); [congruence | discriminate].
Qed.

(** X23. The text that [main] writes for a series is read back by
    [load_dataframe] as that series exactly when the series is not empty;
    the text of an empty series is refused. *)
Theorem written_text_is_read_back (rph : list Z) :
  resample_load.load_dataframe
    (String.concat "," (resample_load.str_of_int <$> rph)) = inr rph
  <-> rph <> [].
Proof.
  split.
  - apply load_dataframe_not_empty.
  - apply load_dataframe_text.
Qed.

Lemma blocks_not_nil (n : nat) (l : list Z) :
  (0 < n)%nat -> l <> [] -> blocks n l <> [].
Proof.
  intros Hn Hl Hnil. apply (f_equal length) in Hnil.
  unfold blocks in Hnil. rewrite length_fmap, length_seq in Hnil.
  assert (0 < (length l + n - 1) / n)%nat; [|simpl in Hnil; lia].
  apply number_of_blocks; [exact Hn|].
  destruct l; [congruence | simpl; lia].
Qed.

Lemma Qeq_bool_false (x y : Q) : ~ (x == y)%Q -> Qeq_bool x y = false.
Proof.
  intros H. destruct (Qeq_bool x y) eqn:E; [|reflexivity].
  apply Qeq_bool_iff in E. contradiction.
Qed.

Lemma Qle_bool_false (x y : Q) : (y < x)%Q -> Qle_bool x y = false.
Proof.
  intros H. destruct (Qle_bool x y) eqn:E; [|reflexivity].
  apply Qle_bool_iff in E. exfalso. exact (Qlt_not_le _ _ H E).
Qed.

(** X24. In its default mode (summing, no percentile in use) [main] turns
    an input text that [load_dataframe] reads as a series into an output
    text that [load_dataframe] reads as the sums of the blocks of 3600
    consecutive values of that series, for numerals of at most 4300
    characters and a load whose sums fit 64 bits. *)
Theorem main_writes_hourly_sums (content : string) (percentile : option Q)
    (df : list Z) :
  percentile_not_used percentile ->
  short_numerals content ->
  resample_load.load_dataframe content = inr df ->
  int64_load df ->
  exists text,
    resample_load.main content percentile true = Written text
    /\ resample_load.load_dataframe text
       = inr (resample_load.sum <$> blocks 3600 df).
Proof.
  intros Hp _ Hload _. unfold main. rewrite Hload.
  change (negb true && negb (truthy percentile)) with false. cbv iota.
  unfold resample_dataframe.
  rewrite (groupby_blocks df 3600) by lia.
  rewrite (proj2 (percentile_used_None percentile) Hp).
  change (Z.to_nat 3600) with 3600%nat.
  eexists. split; [reflexivity|].
  apply load_dataframe_text.
  pose proof (blocks_not_nil 3600 df ltac:(lia)
                (load_dataframe_not_empty content df Hload)) as Hne.
  destruct (blocks 3600 df); [congruence | discriminate].
Qed.

(** X25. Once an input text with numerals of at most 4300 characters has
    been read as a load of 64-bit integers, [main] raises exactly when the
    percentile is greater than 1, or is negative while summing mode is off:
    its guard only stops a missing or zero percentile. *)
Theorem main_raises_iff (content : string) (percentile : option Q)
    (totalsum : bool) (df : list Z) :
  short_numerals content ->
  resample_load.load_dataframe content = inr df ->
  int64_values df ->
  (exists e, resample_load.main content percentile totalsum = Raised e)
  <-> exists q, percentile = Some q
                /\ ((q < 0)%Q /\ totalsum = false \/ (1 < q)%Q).
Proof.
  intros _ Hload _. unfold main. rewrite Hload. unfold resample_dataframe.
  rewrite (groupby_blocks df 3600) by lia.
  generalize (blocks (Z.to_nat 3600) df). intros groups. split.
  - intros [e H].
    destruct (negb totalsum && negb (truthy percentile)) eqn:Hguard;
      [discriminate|].
    destruct (percentile_used percentile) as [q|] eqn:Hp.
    + apply percentile_used_Some in Hp as [-> Hq].
      destruct (Qle_bool q 1) eqn:Hle; [discriminate|].
      exists q. split; [reflexivity|]. right. apply Qnot_le_lt.
      intros Hq1. apply Qle_bool_iff in Hq1. congruence.
    + apply percentile_used_None in Hp.
      destruct totalsum; [discriminate|]. simpl in Hguard.
      destruct percentile as [q|]; [|discriminate]. simpl in Hguard, Hp.
      exists q. split; [reflexivity|]. left. split; [|reflexivity].
      apply Qle_lt_or_eq in Hp as [Hlt|Heq]; [exact Hlt|].
      apply Qeq_bool_iff in Heq. rewrite Heq in Hguard. discriminate.
  - intros (q & -> & [[Hq ->]|Hq]).
    + simpl. rewrite (Qeq_bool_false q 0) by (apply Qlt_not_eq; exact Hq).
      rewrite (proj2 (Qle_bool_iff q 0)) by (apply Qlt_le_weak; exact Hq).
      simpl. eauto.
    + assert (0 < q)%Q as Hpos by (apply (Qlt_trans _ 1); [reflexivity|exact Hq]).
      simpl.
      rewrite (Qeq_bool_false q 0)
        by (intros Heq; rewrite Heq in Hpos; exact (Qlt_irrefl 0 Hpos)).
      rewrite andb_false_r.
      rewrite (Qle_bool_false q 0 Hpos), (Qle_bool_false q 1 Hq). eauto.
Qed.

End resampling.

(* ===================================================================== *)
(** ** Worked examples of the further properties *)
(* ===================================================================== *)

Lemma example_demand_well_formed :
  well_formed_demand [[0; 499; 500; 501]] [500].
Proof.
  split.
  - split; [reflexivity|]. split; [repeat constructor|]. split.
    + repeat constructor; (discriminate || lia).
    + intros w1 w2 Hw1 Hw2. apply list_elem_of_singleton in Hw1, Hw2.
      subst. reflexivity.
  - split; repeat constructor.
Qed.

Lemma normaliser_output_is_sorted_mapping_example :
  cloud_providers.get_amazon_ec2_prices example_table "c5" "Linux"
  = Ok example_prices
  /\ NoDup example_prices.*1
  /\ Sorted entry_le example_prices.
Proof.
  split; [vm_compute; reflexivity|].
  destruct (normaliser_output_is_sorted_mapping example_table "c5" "Linux"
              example_prices ltac:(vm_compute; reflexivity)) as (H1 & H2 & _).
  split; [exact H1 | exact H2].
Defined.

Lemma simplified_prices_are_lookups_example :
  exists r,
    cloud_providers.get_simplified_amazon_prices example_table "c5" "Linux"
    = Ok r
    /\ exists prices,
         cloud_providers.get_amazon_ec2_prices example_table "c5" "Linux"
         = Ok prices
         /\ forall region v,
              (Py.dict_get region (cloud_providers.on_demand r) = Some v
               <-> (mkKey region "Shared" "No" "N/A", v) ∈ prices)
              /\ (Py.dict_get region (cloud_providers.reserved r) = Some v
                  <-> (mkKey region "Shared" "1yr" "All Upfront", v)
                      ∈ prices).
Proof.
  eexists. split; [vm_compute; reflexivity|].
  apply (simplified_prices_are_lookups example_table "c5" "Linux").
  vm_compute. reflexivity.
Defined.

Lemma missing_purchase_mode_raises_example :
  (forall r, r ∈ surviving on_demand_only_table "t1" "Linux" ->
             Rsv r <> "1yr")
  /\ (cloud_providers.get_simplified_amazon_prices on_demand_only_table "t1"
        "Linux" = Raise KeyError
      \/ cloud_providers.get_simplified_amazon_prices on_demand_only_table
           "t1" "Linux" = Raise ValueError).
Proof.
  assert (H : forall r, r ∈ surviving on_demand_only_table "t1" "Linux" ->
                        Rsv r <> "1yr").
  { intros r Hr.
    change (surviving on_demand_only_table "t1" "Linux")
      with on_demand_only_table in Hr.
    apply list_elem_of_singleton in Hr. subst r. discriminate. }
  split; [exact H|].
  apply (proj1 (missing_purchase_mode_raises on_demand_only_table "t1"
                  (or_intror H))).
Defined.

Lemma catalog_entry_prices_example :
  finite_prices example_table
  /\ exists ins h' ic,
       cloud_providers.generate_amazon_region_instances example_table "eu"
         20 30 2 ["c5"] [] = Ok (ins, h')
       /\ ins !! 0%nat = Some ic
       /\ InstanceClass.name ic ∈ ["c5"]
       /\ InstanceClass.time_unit ic = "h".
Proof.
  split; [vm_compute; reflexivity|].
  eexists _, _, _. split; [vm_compute; reflexivity|].
  split; [reflexivity|].
  pose proof (catalog_entry_prices example_table "eu" 20 30 2 ["c5"] [] _ _ _
                ltac:(vm_compute; reflexivity)
                ltac:(vm_compute; reflexivity) ltac:(left)) as H.
  cbv zeta in H. destruct H as (H1 & H2 & _). split; [exact H1 | exact H2].
Defined.

Lemma catalog_ignores_request_order_example :
  ["a_AZ1_AZ1"; "a"] ≡ₚ ["a"; "a_AZ1_AZ1"]
  /\ cloud_providers.generate_amazon_region_instances collision_table "AZ1"
       20 20 1 ["a_AZ1_AZ1"; "a"] []
     = cloud_providers.generate_amazon_region_instances collision_table "AZ1"
         20 20 1 ["a"; "a_AZ1_AZ1"] [].
Proof.
  assert (H : ["a_AZ1_AZ1"; "a"] ≡ₚ ["a"; "a_AZ1_AZ1"]) by apply perm_swap.
  split; [exact H|].
  apply catalog_ignores_request_order. exact H.
Defined.

Lemma create_ics_regions_example :
  exists ics n h',
    hybrid.create_ics example_table [] ["c5"] (Some ["eu"; "us"]) []
    = Ok (ics, n, h')
    /\ n = 2%nat
    /\ length h' = 8%nat.
Proof.
  eexists _, _, _. split; [vm_compute; reflexivity|].
  destruct (create_ics_regions example_table [] ["c5"] "eu" ["us"] [] _ _ _
              ltac:(vm_compute; reflexivity)) as (H1 & H2 & _).
  split; [exact H1 | exact H2].
Defined.

Lemma create_ics_default_regions_example :
  (@None (list string) = None \/ @None (list string) = Some [])
  /\ hybrid.create_ics example_table ["eu"] ["c5"] None [] = Raise ValueError.
Proof.
  assert (H : @None (list string) = None \/ @None (list string) = Some [])
    by (left; reflexivity).
  split; [exact H|].
  apply (proj1 (create_ics_default_regions example_table ["eu"] ["c5"] None
                  [] H)).
  exists "N/A". split; [left|].
  intros Hin. apply list_elem_of_singleton in Hin. discriminate.
Defined.

Lemma get_perfs_uses_first_ecu_example :
  c5_ic ∈ [c5_ic]
  /\ short_cell (CStr "9")
  /\ hybrid.int (CStr "9") = Ok 9
  /\ Py.dict_get (hybrid.ic_key [] c5_ic)
       (hybrid.ps_values
          (hybrid.get_perfs example_table [] [c5_ic] (hybrid.apps_of 2) 3
             [1000; 500] 7))
     = Some (perfs_of (hybrid.apps_of 2) [1000; 500] 9 3).
Proof.
  assert (H1 : c5_ic ∈ [c5_ic]) by left.
  assert (H2 : short_cell (CStr "9")) by (simpl; lia).
  assert (H3 : hybrid.int (CStr "9") = Ok 9) by reflexivity.
  split; [exact H1|]. split; [exact H2|]. split; [exact H3|].
  apply (proj1 (get_perfs_uses_first_ecu example_table [] [c5_ic]
                  (hybrid.apps_of 2) 3 [1000; 500] 7 c5_ic
                  (price_row "c5" "eu" 0.5 "Hrs" "No" "N/A")
                  (drop 1 example_table) 9 H1 eq_refl H2 H3)).
Defined.

Lemma applications_pair_workloads_and_baselines_example :
  length four_series = 4%nat
  /\ -4 <= 1 <= 4
  /\ Z.of_nat 5 < 6
  /\ hybrid.raw_workloads 6 1 four_series !! 5%nat = four_series !! 2%nat
  /\ hybrid.perfs_per_ecu_of 6 1 !! 5%nat = Some 2000.
Proof.
  split; [reflexivity|]. split; [lia|]. split; [lia|].
  exact (applications_pair_workloads_and_baselines 6 1 four_series 5
           eq_refl ltac:(lia) ltac:(lia)).
Defined.

Lemma discretize_levels_tight_and_idempotent_example :
  well_formed_demand [[0; 499; 500; 501]] [500]
  /\ exists quantized,
       hybrid.discretize_levels [[0; 499; 500; 501]] [500] = Ok quantized
       /\ hybrid.discretize_levels quantized [500] = Ok quantized.
Proof.
  split; [exact example_demand_well_formed|].
  destruct (discretize_levels_tight_and_idempotent [[0; 499; 500; 501]] [500]
              example_demand_well_formed) as (quantized & H1 & H2 & _).
  exists quantized. split; [exact H1 | exact H2].
Defined.

Lemma discretize_levels_rejects_example :
  length [[1; 2]; []] = length [5; 5]
  /\ exists e, hybrid.discretize_levels [[1; 2]; []] [5; 5] = Raise e.
Proof.
  split; [reflexivity|].
  apply (discretize_levels_rejects [[1; 2]; []] [5; 5] 1 [] 5
           eq_refl eq_refl eq_refl (or_introl eq_refl)).
Defined.

Lemma zero_factor_quanta_cannot_be_used_example :
  Forall (fun l : list Z => l <> []) [[1000; 500]]
  /\ exists quanta,
       hybrid.get_quanta [[1000; 500]] 0 = Ok quanta
       /\ Forall (fun q => q = 0) quanta
       /\ hybrid.discretize_levels [[1; 2]] quanta = Raise ValueError.
Proof.
  assert (H : Forall (fun l : list Z => l <> []) [[1000; 500]])
    by (repeat constructor; discriminate).
  split; [exact H|].
  apply (zero_factor_quanta_cannot_be_used [[1000; 500]] [[1; 2]] H eq_refl).
  discriminate.
Defined.

Lemma negative_quantum_raises_example :
  -5 < 0
  /\ Forall (fun x => 0 <= x) [0; 3]
  /\ hybrid.discretize_levels [[0; 3]] [-5] = Raise IndexError.
Proof.
  assert (H : Forall (fun x => 0 <= x) [0; 3]) by (repeat constructor; lia).
  split; [lia|]. split; [exact H|].
  apply (negative_quantum_raises [0; 3] (-5) [] [] eq_refl ltac:(lia) H).
  exists 3. split; [right; left | lia].
Defined.

Lemma nonzero_factor_rounds_every_workload_example :
  hybrid.raw_workloads 1 0 four_series = [[0; 499; 500; 501]]
  /\ exists ltwp,
       hybrid.workloads_of 1 0 2 four_series [500] = Ok ltwp
       /\ forall i app series q,
            hybrid.apps_of 1 !! i = Some app ->
            hybrid.raw_workloads 1 0 four_series !! i = Some series ->
            [500] !! i = Some q ->
            ltwp !! i = Some (app, round_up q <$> series).
Proof.
  assert (Hraw : hybrid.raw_workloads 1 0 four_series = [[0; 499; 500; 501]])
    by (vm_compute; reflexivity).
  split; [exact Hraw|].
  apply (nonzero_factor_rounds_every_workload 1 0 2 four_series [500]
           ltac:(lia)).
  rewrite Hraw. exact example_demand_well_formed.
Defined.

Lemma example_load_fits : int64_load [1; 2; 3; 4; 5].
Proof. split; [discriminate | reflexivity]. Qed.

Lemma example_text_load :
  resample_load.load_dataframe "1,2,3" = inr [1; 2; 3].
Proof. vm_compute. reflexivity. Qed.

Lemma totalsum_gives_block_sums_example :
  0 < 2
  /\ percentile_not_used None
  /\ int64_load [1; 2; 3; 4; 5]
  /\ resample_load.resample_dataframe [1; 2; 3; 4; 5] None true 2
     = inr [3; 7; 5].
Proof.
  split; [lia|]. split; [exact I|]. split; [exact example_load_fits|].
  exact (totalsum_gives_block_sums [1; 2; 3; 4; 5] None 2 ltac:(lia) I
           example_load_fits).
Defined.

Lemma totalsum_conserves_the_total_example :
  -2 <> 0
  /\ int64_load [1; 2; 3; 4; 5]
  /\ exists rph,
       resample_load.resample_dataframe [1; 2; 3; 4; 5] None true (-2)
       = inr rph
       /\ resample_load.sum rph = 15.
Proof.
  split; [lia|]. split; [exact example_load_fits|].
  exact (totalsum_conserves_the_total [1; 2; 3; 4; 5] None (-2)
           ltac:(lia) I example_load_fits).
Defined.

Lemma resample_returns_iff_example :
  int64_values [1; 2; 3]
  /\ - 2 ^ 63 <= 2 < 2 ^ 63
  /\ exists rph,
       resample_load.resample_dataframe [1; 2; 3] (Some 0.5%Q) false 2
       = inr rph.
Proof.
  assert (H1 : int64_values [1; 2; 3])
    by (split; [discriminate | repeat constructor; lia]).
  assert (H2 : - 2 ^ 63 <= 2 < 2 ^ 63) by lia.
  split; [exact H1|]. split; [exact H2|].
  apply (proj2 (resample_returns_iff [1; 2; 3] (Some 0.5%Q) false 2 H1 H2)).
  split; [lia|]. left. exists 0.5%Q.
  split; [reflexivity|]. split; reflexivity || discriminate.
Defined.

Lemma full_percentile_is_block_maximum_example :
  0 < 2 < 2 ^ 53
  /\ Forall (fun x => Z.abs x * 2 < 2 ^ 53) [1; 5; 2; 4; 3]
  /\ exists rph,
       resample_load.resample_dataframe [1; 5; 2; 4; 3] (Some 1%Q) false 2
       = inr rph
       /\ length rph = 3%nat.
Proof.
  assert (H1 : 0 < 2 < 2 ^ 53) by lia.
  assert (H2 : Forall (fun x => Z.abs x * 2 < 2 ^ 53) [1; 5; 2; 4; 3])
    by (repeat constructor; lia).
  split; [exact H1|]. split; [exact H2|].
  destruct (full_percentile_is_block_maximum [1; 5; 2; 4; 3] false 2 H1 H2)
    as (rph & H3 & H4 & _).
  exists rph. split; [exact H3 | exact H4].
Defined.

Lemma main_writes_hourly_sums_example :
  short_numerals "1,2,3"
  /\ resample_load.load_dataframe "1,2,3" = inr [1; 2; 3]
  /\ int64_load [1; 2; 3]
  /\ exists text,
       resample_load.main "1,2,3" None true = resample_load.Written text
       /\ resample_load.load_dataframe text
          = inr (resample_load.sum <$> blocks 3600 [1; 2; 3]).
Proof.
  assert (H1 : short_numerals "1,2,3") by reflexivity.
  assert (H3 : int64_load [1; 2; 3])
    by (split; [discriminate | reflexivity]).
  split; [exact H1|]. split; [exact example_text_load|]. split; [exact H3|].
  exact (main_writes_hourly_sums "1,2,3" None [1; 2; 3] I H1
           example_text_load H3).
Defined.

Lemma main_raises_iff_example :
  short_numerals "1,2,3"
  /\ resample_load.load_dataframe "1,2,3" = inr [1; 2; 3]
  /\ int64_values [1; 2; 3]
  /\ exists e,
       resample_load.main "1,2,3" (Some 2%Q) true = resample_load.Raised e.
Proof.
  assert (H1 : short_numerals "1,2,3") by reflexivity.
  assert (H3 : int64_values [1; 2; 3])
    by (split; [discriminate | repeat constructor; lia]).
  split; [exact H1|]. split; [exact example_text_load|]. split; [exact H3|].
  apply (proj2 (main_raises_iff "1,2,3" (Some 2%Q) true [1; 2; 3] H1
                  example_text_load H3)).
  exists 2%Q. split; [reflexivity|]. right. reflexivity.
Defined.

Lemma normaliser_returns_iff_example :
  literal_pattern "Linux"
  /\ cloud_providers.get_amazon_ec2_prices on_demand_only_table "t1" "Linux"
     = Raise KeyError.
Proof.
  split; [reflexivity|].
  apply (proj2 (proj2 (normaliser_returns_iff on_demand_only_table "t1"
                         "Linux" eq_refl))).
  - apply (bool_decide_unpack _). vm_compute. exact I.
  - right. apply (bool_decide_unpack _). vm_compute. exact I.
Defined.
